(** * ZhihuQuestionTracker: the snapshot store, its observers and the tracker

    A shallow embedding of [data.py] (EventSource, DataManager) and
    [tracker.py] (DataTracker), and the properties of the merge, the
    question-list projection, the watch list, the broadcast and the
    scheduler loop. *)

From Stdlib Require Import List String ZArith QArith Bool Arith Lia Permutation Sorted.
Import ListNotations.
Close Scope Q_scope.
Open Scope string_scope.
Open Scope list_scope.
Open Scope nat_scope.

Set Implicit Arguments.

(** ** Python values used by the program *)

(** Exceptions.  Every value of this type stands for an instance of a
    subclass of Python's [Exception]: [IndexError] is raised by indexing or
    popping an empty list, [TypeError] by [register_listener], [OSError] by
    a failed file write, [Raised] by code outside the repository's core (the
    fetch function, an observer's [update]). *)
Inductive PyExc : Type :=
| IndexError
| TypeError (msg : string)
| OSError (msg : string)
| Raised (msg : string).

Inductive Result (A : Type) : Type :=
| Ok (a : A)
| Raise (e : PyExc).
Arguments Ok {A} a.
Arguments Raise {A} e.

(** A question record: the dict built by [ZhihuScraper.fetch_data], with the
    [saved_at] key that [update_question_history] adds.  [potential_score]
    is a Python float; a finite float is a rational and the comparison of
    finite floats is the comparison of rationals. *)
Record Question : Type := mkQuestion {
  question_text : string;
  question_url : string;
  topics : list string;
  date_raw : string;
  potential_score_raw : string;
  view_amount_raw : string;
  answer_amount_raw : string;
  potential_score : Q;
  view_increment : Z;
  view_total : Z;
  answer_increment : Z;
  answer_total : Z;
  date : option string;
  saved_at : option string
}.

(** [new_data['saved_at'] = ...] : an in-place update of one key. *)
Definition set_saved_at (q : Question) (t : string) : Question :=
  {| question_text := question_text q;
     question_url := question_url q;
     topics := topics q;
     date_raw := date_raw q;
     potential_score_raw := potential_score_raw q;
     view_amount_raw := view_amount_raw q;
     answer_amount_raw := answer_amount_raw q;
     potential_score := potential_score q;
     view_increment := view_increment q;
     view_total := view_total q;
     answer_increment := answer_increment q;
     answer_total := answer_total q;
     date := date q;
     saved_at := Some t |}.

(** Question dicts are mutable objects that the store, the watch list and
    the change record share by reference: a reference is a location, and the
    heap maps every location to the current contents of its object. *)
Definition loc : Type := nat.
Definition Heap : Type := loc -> Question.

Definition heap_set (h : Heap) (l : loc) (q : Question) : Heap :=
  fun l' => if Nat.eqb l' l then q else h l'.

(** ** Python dicts: insertion-ordered, keyed by strings *)

Module Dict.
Section Ops.
Variable V : Type.

Definition t : Type := list (string * V).

Fixpoint get (d : t) (k : string) : option V :=
  match d with
  | [] => None
  | (k', v) :: d' => if String.eqb k k' then Some v else get d' k
  end.

(** [k in d] *)
Definition mem (d : t) (k : string) : bool :=
  match get d k with Some _ => true | None => false end.

(** [d[k] = v]: an existing key keeps its position, a new key goes last. *)
Fixpoint set (d : t) (k : string) (v : V) : t :=
  match d with
  | [] => [(k, v)]
  | (k', v') :: d' =>
      if String.eqb k k' then (k', v) :: d' else (k', v') :: set d' k v
  end.

(** [del d[k]] *)
Fixpoint del (d : t) (k : string) : t :=
  match d with
  | [] => []
  | (k', v') :: d' =>
      if String.eqb k k' then d' else (k', v') :: del d' k
  end.

Definition keys (d : t) : list string := map fst d.

(** A dict holds each key once. *)
Definition wf (d : t) : Prop := NoDup (keys d).
End Ops.
End Dict.

(** ** The data manager *)

(** One entry of [changes['updated']]. *)
Record UpdatedEntry : Type := mkUpdated {
  upd_question_url : string;
  upd_view_increment : Z;
  upd_answer_increment : Z
}.

(** [changes = {'updated': [], 'new': []}]; ['new'] holds references to the
    incoming question objects themselves. *)
Record Changes : Type := mkChanges {
  updated : list UpdatedEntry;
  new : list loc
}.

(** What [json.dump] writes: the contents of the objects, by value. *)
Definition ItemsContent : Type := list (string * list Question).
Definition WatchedContent : Type := list (string * Question).

Inductive File (A : Type) : Type :=
| Missing
| Holds (content : A)
| Torn.
Arguments Missing {A}.
Arguments Holds {A} content.
Arguments Torn {A}.

(** The payload of [EventSource._data]; the data manager never assigns it. *)
Definition PyValue : Type := string.

(** What an observer can read when it is called: the store and the watch
    list, as [get_question_list] and the GUI read them. *)
Record View : Type := mkView {
  view_questions : ItemsContent;
  view_watched : WatchedContent
}.

(** An observer object.  [isinstance_DataListener] is the answer of
    [isinstance(listener, DataListener)]; [update] returns [None] when the
    call returns and the exception when it raises.  Observers read the data
    manager and do not write it. *)
Record Listener : Type := mkListener {
  lid : nat;
  isinstance_DataListener : bool;
  update : option PyValue -> View -> option PyExc
}.

(** The lines [DataTracker.perform_update] prints. *)
Inductive ConsoleLine : Type :=
| FetchingNewData (time : string)
| DataUpdated (time : string) (changes : Changes)
| ErrorOccurred (e : PyExc).

(** Observable effects, in the order they happen. *)
Inductive Event : Type :=
| WroteDataFile (content : ItemsContent)
| WroteWatchedFile (content : WatchedContent)
| WriteFailed (e : PyExc)
| Notified (listener : nat) (data : option PyValue) (seen : View)
| Printed (line : ConsoleLine).

Record DataManager : Type := mkDataManager {
  heap : Heap;
  _data : option PyValue;
  _listeners : list Listener;
  max_history : nat;
  questions : Dict.t (list loc);
  watched_questions : Dict.t loc;
  data_file : File ItemsContent;
  watched_file : File WatchedContent;
  ticks : nat;          (* readings of the clock so far *)
  writes : nat;         (* file writes attempted so far *)
  trace : list Event
}.

(** Field updates of the data manager object. *)
Definition set_heap (h : Heap) (dm : DataManager) : DataManager :=
  mkDataManager h (_data dm) (_listeners dm) (max_history dm) (questions dm)
    (watched_questions dm) (data_file dm) (watched_file dm) (ticks dm)
    (writes dm) (trace dm).
Definition set_data (d : option PyValue) (dm : DataManager) : DataManager :=
  mkDataManager (heap dm) d (_listeners dm) (max_history dm) (questions dm)
    (watched_questions dm) (data_file dm) (watched_file dm) (ticks dm)
    (writes dm) (trace dm).
Definition set_listeners (ls : list Listener) (dm : DataManager) : DataManager :=
  mkDataManager (heap dm) (_data dm) ls (max_history dm) (questions dm)
    (watched_questions dm) (data_file dm) (watched_file dm) (ticks dm)
    (writes dm) (trace dm).
Definition set_questions (qs : Dict.t (list loc)) (dm : DataManager) : DataManager :=
  mkDataManager (heap dm) (_data dm) (_listeners dm) (max_history dm) qs
    (watched_questions dm) (data_file dm) (watched_file dm) (ticks dm)
    (writes dm) (trace dm).
Definition set_watched_questions (w : Dict.t loc) (dm : DataManager) : DataManager :=
  mkDataManager (heap dm) (_data dm) (_listeners dm) (max_history dm)
    (questions dm) w (data_file dm) (watched_file dm) (ticks dm)
    (writes dm) (trace dm).
Definition set_data_file (f : File ItemsContent) (dm : DataManager) : DataManager :=
  mkDataManager (heap dm) (_data dm) (_listeners dm) (max_history dm)
    (questions dm) (watched_questions dm) f (watched_file dm) (ticks dm)
    (writes dm) (trace dm).
Definition set_watched_file (f : File WatchedContent) (dm : DataManager) : DataManager :=
  mkDataManager (heap dm) (_data dm) (_listeners dm) (max_history dm)
    (questions dm) (watched_questions dm) (data_file dm) f (ticks dm)
    (writes dm) (trace dm).
Definition tick (dm : DataManager) : DataManager :=
  mkDataManager (heap dm) (_data dm) (_listeners dm) (max_history dm)
    (questions dm) (watched_questions dm) (data_file dm) (watched_file dm)
    (S (ticks dm)) (writes dm) (trace dm).
Definition count_write (dm : DataManager) : DataManager :=
  mkDataManager (heap dm) (_data dm) (_listeners dm) (max_history dm)
    (questions dm) (watched_questions dm) (data_file dm) (watched_file dm)
    (ticks dm) (S (writes dm)) (trace dm).
Definition emit (e : Event) (dm : DataManager) : DataManager :=
  mkDataManager (heap dm) (_data dm) (_listeners dm) (max_history dm)
    (questions dm) (watched_questions dm) (data_file dm) (watched_file dm)
    (ticks dm) (writes dm) (trace dm ++ [e]).

(** Methods that may raise: a state and error monad over the object the
    method belongs to. *)
Definition ST (S A : Type) : Type := S -> S * Result A.

Definition ret {S A : Type} (a : A) : ST S A := fun s => (s, Ok a).
Definition raise {S A : Type} (e : PyExc) : ST S A := fun s => (s, Raise e).
Definition bind {S A B : Type} (c : ST S A) (k : A -> ST S B) : ST S B :=
  fun s =>
    match c s with
    | (s', Ok a) => k a s'
    | (s', Raise e) => (s', Raise e)
    end.
Definition modify {S : Type} (f : S -> S) : ST S unit :=
  fun s => (f s, Ok tt).
(** [try: body except Exception as e: handler(e)] *)
Definition try_except {S A : Type} (body : ST S A) (handler : PyExc -> ST S A)
    : ST S A :=
  fun s =>
    match body s with
    | (s', Ok a) => (s', Ok a)
    | (s', Raise e) => handler e s'
    end.

Notation "x <- c1 ;; c2" := (bind c1 (fun x => c2))
  (at level 61, c1 at next level, right associativity).
Notation "c1 ;;; c2" := (bind c1 (fun _ => c2))
  (at level 61, right associativity).

Definition M (A : Type) : Type := ST DataManager A.

(** The store and the watch list as [json.dump] and an observer see them. *)
Definition items_content (dm : DataManager) : ItemsContent :=
  map (fun kv => (fst kv, map (heap dm) (snd kv))) (questions dm).
Definition watched_content (dm : DataManager) : WatchedContent :=
  map (fun kv => (fst kv, heap dm (snd kv))) (watched_questions dm).
Definition view_of (dm : DataManager) : View :=
  mkView (items_content dm) (watched_content dm).

(** [history[-1]] of a non-empty list. *)
Definition latest (history : list loc) : option loc :=
  match history with
  | [] => None
  | l :: rest => Some (last rest l)
  end.

(** [while len(history) > self.max_history: history.pop(0)] *)
Fixpoint evict (max : nat) (history : list loc) : list loc :=
  match history with
  | [] => []
  | _ :: rest => if max <? List.length history then evict max rest else history
  end.

Definition empty_changes : Changes := mkChanges [] [].

Section Engine.
(** [now n]: the string [datetime.now().strftime(...)] gives at the n-th
    reading of the clock.  [disk_ok n]: whether the n-th file write
    succeeds. *)
Variable now : nat -> string.
Variable disk_ok : nat -> bool.

(** *** EventSource *)

(** One call [listener.update(self._data)]. *)
Definition call_update (l : Listener) : M unit :=
  fun dm =>
    let dm' := emit (Notified (lid l) (_data dm) (view_of dm)) dm in
    match update l (_data dm) (view_of dm) with
    | None => (dm', Ok tt)
    | Some e => (dm', Raise e)
    end.

(** [for listener in self._listeners: listener.update(self._data)] *)
Fixpoint notify_loop (ls : list Listener) : M unit :=
  match ls with
  | [] => ret tt
  | l :: rest => call_update l ;;; notify_loop rest
  end.

Definition _notify_listeners : M unit :=
  fun dm => notify_loop (_listeners dm) dm.

(** The setter of the [data] property. *)
Definition data_setter (value : PyValue) : M unit :=
  modify (set_data (Some value)) ;;; _notify_listeners.

(** [listener in self._listeners]: object identity. *)
Definition listener_in (l : Listener) (ls : list Listener) : bool :=
  existsb (fun l' => Nat.eqb (lid l') (lid l)) ls.

(** [register_listener]: a second registration of the same observer
    raises [TypeError] like an object of another class. *)
Definition register_listener (l : Listener) : M unit :=
  fun dm =>
    if isinstance_DataListener l && negb (listener_in l (_listeners dm))
    then (set_listeners (_listeners dm ++ [l]) dm, Ok tt)
    else (dm, Raise (TypeError "The listener must be an instance of DataListener")).

(** [list.remove]: the first equal element. *)
Fixpoint remove_first (l : Listener) (ls : list Listener) : list Listener :=
  match ls with
  | [] => []
  | l' :: rest =>
      if Nat.eqb (lid l') (lid l) then rest else l' :: remove_first l rest
  end.

(** [unregister_listener] *)
Definition unregister_listener (l : Listener) : M unit :=
  fun dm =>
    if listener_in l (_listeners dm)
    then (set_listeners (remove_first l (_listeners dm)) dm, Ok tt)
    else (dm, Ok tt).

(** *** DataManager: persistence *)

(** [save_data(self.questions, self.data_file)].  A failed write leaves
    the file in an unknown state and raises. *)
Definition save_questions : M unit :=
  fun dm =>
    let dm1 := count_write dm in
    if disk_ok (writes dm)
    then (emit (WroteDataFile (items_content dm))
            (set_data_file (Holds (items_content dm)) dm1), Ok tt)
    else (emit (WriteFailed (OSError "data_file"))
            (set_data_file Torn dm1), Raise (OSError "data_file")).

(** [save_data(self.watched_questions, self.watched_file)] *)
Definition save_watched : M unit :=
  fun dm =>
    let dm1 := count_write dm in
    if disk_ok (writes dm)
    then (emit (WroteWatchedFile (watched_content dm))
            (set_watched_file (Holds (watched_content dm)) dm1), Ok tt)
    else (emit (WriteFailed (OSError "watched_file"))
            (set_watched_file Torn dm1), Raise (OSError "watched_file")).

(** *** DataManager: the merge *)

(** [self.questions.get(question_url, [])] *)
Definition history_of (dm : DataManager) (question_url : string) : list loc :=
  match Dict.get (questions dm) question_url with
  | Some h => h
  | None => []
  end.

(** [update_question_history]: create the key if needed, stamp the object
    [new_data] in place, append it, drop the oldest entries over the
    bound. *)
Definition update_question_history (question_url : string) (new_data : loc)
    (dm : DataManager) : DataManager :=
  let dm1 :=
    if Dict.mem (questions dm) question_url then dm
    else set_questions (Dict.set (questions dm) question_url []) dm in
  let history := history_of dm1 question_url in
  let dm2 :=
    tick (set_heap (heap_set (heap dm1) new_data
                      (set_saved_at (heap dm1 new_data) (now (ticks dm1)))) dm1) in
  let history := history ++ [new_data] in
  set_questions (Dict.set (questions dm2) question_url
                   (evict (max_history dm2) history)) dm2.

(** The body of the [for question in new_questions] loop. *)
Definition merge_item (st : DataManager * Changes) (question : loc)
    : DataManager * Changes :=
  let (dm, changes) := st in
  let url := question_url (heap dm question) in
  let changes' :=
    match latest (history_of dm url) with
    | Some old =>
        let old_data := heap dm old in
        let view_inc := (view_total (heap dm question) - view_total old_data)%Z in
        let answer_inc := (answer_total (heap dm question) - answer_total old_data)%Z in
        if negb (Z.eqb view_inc 0) || negb (Z.eqb answer_inc 0)
        then mkChanges (updated changes ++ [mkUpdated url view_inc answer_inc])
                       (new changes)
        else changes
    | None => mkChanges (updated changes) (new changes ++ [question])
    end in
  (update_question_history url question dm, changes').

(** [for question in new_questions: ...] *)
Definition merge_loop (new_questions : list loc) (st : DataManager * Changes)
    : DataManager * Changes :=
  fold_left merge_item new_questions st.

(** [update_questions]: the loop, then [save_data], then
    [_notify_listeners], then [return changes]. *)
Definition update_questions (new_questions : list loc) : M Changes :=
  fun dm =>
    let (dm1, changes) := merge_loop new_questions (dm, empty_changes) in
    (save_questions ;;; _notify_listeners ;;; ret changes) dm1.

(** *** DataManager: the watch list *)

(** [add_to_watched]; [self.questions[question_url][-1]] raises
    [IndexError] on an empty history, before the watch list is assigned. *)
Definition add_to_watched (question_url : string) : M unit :=
  fun dm =>
    if negb (Dict.mem (watched_questions dm) question_url)
       && Dict.mem (questions dm) question_url
    then
      match latest (history_of dm question_url) with
      | None => (dm, Raise IndexError)
      | Some l =>
          save_watched
            (set_watched_questions
               (Dict.set (watched_questions dm) question_url l) dm)
      end
    else (dm, Ok tt).

(** [remove_from_watched] *)
Definition remove_from_watched (question_url : string) : M unit :=
  fun dm =>
    if Dict.mem (watched_questions dm) question_url
    then save_watched
           (set_watched_questions
              (Dict.del (watched_questions dm) question_url) dm)
    else (dm, Ok tt).
End Engine.

(** *** DataManager: the question list *)

(** The first loop of [get_question_list]: one watched key. *)
Definition pin_watched (dm : DataManager) (st : list loc * list string)
    (watch : string) : list loc * list string :=
  match latest (history_of dm watch) with
  | Some l => (fst st ++ [l], snd st ++ [watch])
  | None => st
  end.

(** [key=lambda x: x[1][0]["potential_score"]] *)
Definition sort_key (dm : DataManager) (x : string * list loc) : Result Q :=
  match snd x with
  | [] => Raise IndexError
  | first :: _ => Ok (potential_score (heap dm first))
  end.

(** [sorted] computes the key of every element before it compares any. *)
Fixpoint decorate (dm : DataManager) (items : list (string * list loc))
    : Result (list (Q * (string * list loc))) :=
  match items with
  | [] => Ok []
  | x :: rest =>
      match sort_key dm x with
      | Raise e => Raise e
      | Ok k =>
          match decorate dm rest with
          | Raise e => Raise e
          | Ok ds => Ok ((k, x) :: ds)
          end
      end
  end.

Definition score_lt (a b : Q) : bool := negb (Qle_bool b a).

(** [sorted(..., reverse=True)] is stable: larger keys first, equal keys in
    their original order.  A stable sort has one possible result, computed
    here by insertion from the right. *)
Fixpoint insert_desc {A : Type} (x : Q * A) (l : list (Q * A)) : list (Q * A) :=
  match l with
  | [] => [x]
  | y :: l' => if score_lt (fst x) (fst y) then y :: insert_desc x l' else x :: l
  end.

Definition sorted_reverse {A : Type} (l : list (Q * A)) : list (Q * A) :=
  fold_right insert_desc [] l.

(** The second loop of [get_question_list]: one entry of the sorted store. *)
Definition append_unseen (st : list loc * list string)
    (kv : string * list loc) : list loc * list string :=
  match latest (snd kv) with
  | None => st
  | Some l =>
      if existsb (String.eqb (fst kv)) (snd st) then st
      else (fst st ++ [l], snd st ++ [fst kv])
  end.

(** [get_question_list], with [question_id_list] next to [question_list]. *)
Definition get_question_list_ids (dm : DataManager)
    : Result (list loc * list string) :=
  let st := fold_left (pin_watched dm) (Dict.keys (watched_questions dm)) ([], []) in
  match decorate dm (questions dm) with
  | Raise e => Raise e
  | Ok ds =>
      let raw_questions_list := map snd (sorted_reverse ds) in
      Ok (fold_left append_unseen raw_questions_list st)
  end.

Definition get_question_list (dm : DataManager) : Result (list loc) :=
  match get_question_list_ids dm with
  | Raise e => Raise e
  | Ok (question_list, _) => Ok question_list
  end.

(** ** The tracker *)

(** What one call of the fetch function gives: a list of new question
    dicts, or an exception. *)
Inductive FetchResult : Type :=
| Fetched (items : list Question)
| FetchRaised (e : PyExc).

(** Where the worker thread is in [run]. *)
Inductive WorkerPc : Type :=
| NotStarted      (* before [start()] *)
| LoopTest        (* about to evaluate [not self.stop_event.is_set()] *)
| Cycle           (* about to run [self.perform_update()] *)
| Waiting         (* inside [self.stop_event.wait(self.interval)] *)
| AfterWait       (* about to test [self.refresh_event] *)
| Exited.         (* [run] has returned *)

Record DataTracker : Type := mkDataTracker {
  data_manager : DataManager;
  stop_event : bool;
  refresh_event : bool;
  last_refresh_time : string;
  fetches : nat;          (* calls of the fetch function so far *)
  next_loc : loc;         (* where the next new object is allocated *)
  pc : WorkerPc;
  worker_cycles : nat     (* cycles the worker thread has begun; bookkeeping *)
}.

Definition set_data_manager (dm : DataManager) (t : DataTracker) : DataTracker :=
  mkDataTracker dm (stop_event t) (refresh_event t) (last_refresh_time t)
    (fetches t) (next_loc t) (pc t) (worker_cycles t).
Definition set_stop_event (b : bool) (t : DataTracker) : DataTracker :=
  mkDataTracker (data_manager t) b (refresh_event t) (last_refresh_time t)
    (fetches t) (next_loc t) (pc t) (worker_cycles t).
Definition set_refresh_event (b : bool) (t : DataTracker) : DataTracker :=
  mkDataTracker (data_manager t) (stop_event t) b (last_refresh_time t)
    (fetches t) (next_loc t) (pc t) (worker_cycles t).
Definition set_last_refresh_time (s : string) (t : DataTracker) : DataTracker :=
  mkDataTracker (data_manager t) (stop_event t) (refresh_event t) s
    (fetches t) (next_loc t) (pc t) (worker_cycles t).
Definition count_fetch (t : DataTracker) : DataTracker :=
  mkDataTracker (data_manager t) (stop_event t) (refresh_event t)
    (last_refresh_time t) (S (fetches t)) (next_loc t) (pc t) (worker_cycles t).
Definition set_next_loc (l : loc) (t : DataTracker) : DataTracker :=
  mkDataTracker (data_manager t) (stop_event t) (refresh_event t)
    (last_refresh_time t) (fetches t) l (pc t) (worker_cycles t).
Definition set_pc (p : WorkerPc) (t : DataTracker) : DataTracker :=
  mkDataTracker (data_manager t) (stop_event t) (refresh_event t)
    (last_refresh_time t) (fetches t) (next_loc t) p (worker_cycles t).
Definition count_cycle (t : DataTracker) : DataTracker :=
  mkDataTracker (data_manager t) (stop_event t) (refresh_event t)
    (last_refresh_time t) (fetches t) (next_loc t) (pc t) (S (worker_cycles t)).

Definition T (A : Type) : Type := ST DataTracker A.

(** A method of the data manager called through [self.data_manager]. *)
Definition on_data_manager {A : Type} (c : M A) : T A :=
  fun t =>
    let (dm', r) := c (data_manager t) in (set_data_manager dm' t, r).

(** The new dicts of a fetch become objects at fresh locations. *)
Fixpoint allocate (items : list Question) (h : Heap) (next : loc)
    : list loc * Heap * loc :=
  match items with
  | [] => ([], h, next)
  | q :: rest =>
      let '(ls, h', next') := allocate rest (heap_set h next q) (S next) in
      (next :: ls, h', next')
  end.

(** What another thread or the user can do to a running tracker. *)
Inductive Action : Type :=
| CallStart       (* [tracker.start()] *)
| CallStop        (* [tracker.stop()], from call to return *)
| CallRefresh     (* [tracker.refresh()], from call to return *)
| WorkerStep.     (* the worker thread executes up to its next program point *)

Section Tracker.
Variable now : nat -> string.
Variable disk_ok : nat -> bool.
(** [fetch_data n]: the outcome of the n-th call of [self.fetch_data()]. *)
Variable fetch_data : nat -> FetchResult.

(** [time.strftime('%Y-%m-%d %H:%M:%S')] *)
Definition strftime : T string :=
  fun t =>
    (set_data_manager (tick (data_manager t)) t,
     Ok (now (ticks (data_manager t)))).

Definition print (line : ConsoleLine) : T unit :=
  modify (fun t => set_data_manager (emit (Printed line) (data_manager t)) t).

(** [self.fetch_data()] *)
Definition call_fetch : T (list loc) :=
  fun t =>
    let t1 := count_fetch t in
    match fetch_data (fetches t) with
    | FetchRaised e => (t1, Raise e)
    | Fetched items =>
        let '(ls, h, next) :=
          allocate items (heap (data_manager t1)) (next_loc t1) in
        (set_next_loc next (set_data_manager (set_heap h (data_manager t1)) t1),
         Ok ls)
    end.

(** [perform_update]: the first [print] is outside the [try]. *)
Definition perform_update : T unit :=
  time <- strftime ;;
  print (FetchingNewData time) ;;;
  try_except
    (time <- strftime ;;
     modify (set_last_refresh_time time) ;;;
     new_data <- call_fetch ;;
     changes <- on_data_manager (update_questions now disk_ok new_data) ;;
     time <- strftime ;;
     print (DataUpdated time changes))
    (fun e => print (ErrorOccurred e)).

(** [stop]: [self.stop_event.set()], nothing else. *)
Definition stop : T unit := modify (set_stop_event true).

(** [refresh]: a cycle on the caller's thread, then
    [self.refresh_event.set()]. *)
Definition refresh : T unit :=
  perform_update ;;;
  modify (set_refresh_event true).

(** One step of the worker thread through [run]; [None] when the thread
    dies of an exception that [run] does not catch.  The wait ends when the
    stop event is set or when the interval has elapsed, so the step out of
    [Waiting] can always be taken; [refresh_event] does not end it. *)
Definition worker_step (t : DataTracker) : option DataTracker :=
  match pc t with
  | NotStarted => Some t
  | LoopTest =>
      Some (if stop_event t then set_pc Exited t else set_pc Cycle t)
  | Cycle =>
      match perform_update (count_cycle t) with
      | (t', Ok _) => Some (set_pc Waiting t')
      | (_, Raise _) => None
      end
  | Waiting => Some (set_pc AfterWait t)
  | AfterWait =>
      Some (set_pc LoopTest
              (if refresh_event t then set_refresh_event false t else t))
  | Exited => Some t
  end.

(** The calls of the foreground thread are atomic with respect to the
    worker's program points.  [start()] on a thread that was started
    already raises in the caller and leaves the tracker as it is. *)
Definition act (a : Action) (t : DataTracker) : option DataTracker :=
  match a with
  | CallStart =>
      Some (match pc t with NotStarted => set_pc LoopTest t | _ => t end)
  | CallStop =>
      match stop t with (t', Ok _) => Some t' | (_, Raise _) => None end
  | CallRefresh =>
      match refresh t with (t', Ok _) => Some t' | (_, Raise _) => None end
  | WorkerStep => worker_step t
  end.

Fixpoint run_schedule (sched : list Action) (t : DataTracker)
    : option DataTracker :=
  match sched with
  | [] => Some t
  | a :: rest =>
      match act a t with
      | Some t' => run_schedule rest t'
      | None => None
      end
  end.
End Tracker.

(** ** Vocabulary of the properties *)

(** The object after the events [es] happened and nothing else changed. *)
Definition emits (es : list Event) (dm : DataManager) : DataManager :=
  mkDataManager (heap dm) (_data dm) (_listeners dm) (max_history dm)
    (questions dm) (watched_questions dm) (data_file dm) (watched_file dm)
    (ticks dm) (writes dm) (trace dm ++ es).

(** The observers a broadcast reaches: the registered ones in order, up to
    and including the first whose [update] raises. *)
Fixpoint called (d : option PyValue) (v : View) (ls : list Listener)
    : list Listener :=
  match ls with
  | [] => []
  | l :: rest =>
      l :: match update l d v with
           | None => called d v rest
           | Some _ => []
           end
  end.

Fixpoint first_failure (d : option PyValue) (v : View) (ls : list Listener)
    : option PyExc :=
  match ls with
  | [] => None
  | l :: rest =>
      match update l d v with
      | None => first_failure d v rest
      | Some e => Some e
      end
  end.

(** The part of the object that is the store: everything but the trace and
    the counters of the environment. *)
Definition same_store (dm dm' : DataManager) : Prop :=
  heap dm' = heap dm /\ questions dm' = questions dm
  /\ watched_questions dm' = watched_questions dm
  /\ max_history dm' = max_history dm
  /\ _listeners dm' = _listeners dm /\ _data dm' = _data dm
  /\ data_file dm' = data_file dm /\ watched_file dm' = watched_file dm.

(** The object after a sequence of calls of [update_questions], one per
    batch; a call that raises has still merged its batch in memory. *)
Definition merges (now : nat -> string) (disk_ok : nat -> bool)
    (batches : list (list loc)) (dm : DataManager) : DataManager :=
  fold_left (fun dm batch => fst (update_questions now disk_ok batch dm))
    batches dm.

(** The items of identity [url] among [items], in the order of arrival. *)
Definition merged_for (dm : DataManager) (url : string) (items : list loc)
    : list loc :=
  filter (fun l => String.eqb (question_url (heap dm l)) url) items.

(** The invariant of the merges that started from [dm0]: the store holds,
    for every identity, the last [max_history] items of [log] with that
    identity; no stored history is empty; merging does not change the
    identity of an object. *)
Definition history_inv (dm0 dm : DataManager) (log : list loc) : Prop :=
  (forall l, question_url (heap dm l) = question_url (heap dm0 l))
  /\ (forall url,
        history_of dm url = evict (max_history dm0) (merged_for dm0 url log))
  /\ (forall url,
        Dict.mem (questions dm) url = true -> history_of dm url <> [])
  /\ max_history dm = max_history dm0
  /\ Dict.wf (questions dm).

(** Whether an identity has a non-empty history in the store. *)
Definition has_history (dm : DataManager) (k : string) : bool :=
  match history_of dm k with [] => false | _ :: _ => true end.

(** The watched identities that have a history, in the order of the watch
    list. *)
Definition pinned (dm : DataManager) : list string :=
  filter (has_history dm) (Dict.keys (watched_questions dm)).

(** Which entries of the sorted store the second loop keeps. *)
Definition unseen (ids : list string) (kv : string * list loc) : bool :=
  match latest (snd kv) with
  | Some _ => negb (existsb (String.eqb (fst kv)) ids)
  | None => false
  end.

(** The score [get_question_list] sorts an identity by: the one of the
    first entry of its history. *)
Definition oldest_score (dm : DataManager) (k : string) : Q :=
  match history_of dm k with
  | first :: _ => potential_score (heap dm first)
  | [] => 0%Q
  end.

(** Larger scores first. *)
Definition score_ge {A : Type} (key : A -> Q) (x y : A) : Prop :=
  Qle (key y) (key x).

(** The elements whose score is [q]. *)
Definition score_is {A : Type} (key : A -> Q) (q : Q) (x : A) : bool :=
  Qeq_bool (key x) q.

(** How many cycles the worker has begun but not finished. *)
Definition pending (p : WorkerPc) : nat :=
  match p with Cycle => 1 | _ => 0 end.

(** How many steps a started worker needs to leave its loop once the stop
    event is set. *)
Definition steps_to_exit (p : WorkerPc) : nat :=
  match p with
  | Cycle => 4
  | Waiting => 3
  | AfterWait => 2
  | LoopTest => 1
  | Exited => 0
  | NotStarted => 0
  end.

Definition worker_steps (sched : list Action) : nat :=
  List.length (filter (fun a => match a with WorkerStep => true | _ => false end) sched).

(** ** Sample data *)

Module Ex.
Definition question (url : string) (score : Q) (views answers : Z) : Question :=
  mkQuestion "text" url [] "" "" "" "" score 0 views 0 answers None None.

(** Objects 0, 1 and 3 are three observations of question "a", object 2
    is an observation of question "b". *)
Definition objects : Heap :=
  fun l =>
    match l with
    | 0 => question "a" (1 # 1) 100 5
    | 1 => question "a" (1 # 1) 150 5
    | 2 => question "b" (5 # 1) 10 1
    | 3 => question "a" (9 # 1) 150 5
    | _ => question "c" (3 # 1) 7 0
    end.

Definition clock (n : nat) : string :=
  String (Ascii.ascii_of_nat (48 + n)) "".
Definition disk_fine (n : nat) : bool := true.
Definition disk_broken (n : nat) : bool := false.

(** A data manager whose files do not exist yet. *)
Definition fresh (max : nat) (ls : list Listener) : DataManager :=
  mkDataManager objects None ls max [] [] Missing Missing 0 0 [].

(** A data manager started with a watched file but no items file: the
    watched identity "a" has no history. *)
Definition orphan_watch : DataManager :=
  mkDataManager objects None [] 3 [] [("a", 0)]
    Missing (Holds [("a", objects 0)]) 0 0 [].

(** The store after the batches [[0; 2]] and [[3]]: "a" has the history
    [[0; 3]] with scores 1 then 9, "b" the history [[2]] with score 5. *)
Definition two_questions : DataManager :=
  merges clock disk_fine [[0; 2]; [3]] (fresh 2 []).

(** A tracker that has not been started, over an empty store. *)
Definition tracker0 : DataTracker :=
  mkDataTracker (fresh 2 []) false false "" 0 10 NotStarted 0.

(** A fetch function that always finds question "c", and one whose first
    call fails. *)
Definition fetch_c (n : nat) : FetchResult :=
  Fetched [question "c" (3 # 1) 7 0].
Definition fetch_flaky (n : nat) : FetchResult :=
  match n with
  | 0 => FetchRaised (Raised "timeout")
  | S _ => Fetched [question "c" (3 # 1) 7 0]
  end.

(** The tracker when [stop()] has returned and the worker is between its
    loop test and its cycle. *)
Definition stopped_in_flight : DataTracker :=
  set_stop_event true (set_pc Cycle tracker0).

Definition quiet : Listener := mkListener 1 true (fun _ _ => None).
Definition failing : Listener :=
  mkListener 2 true (fun _ _ => Some (Raised "boom")).
End Ex.

(** ** DataManager: construction *)

(** [json.load] of the items file: the dict is built key by key in the order
    of the file, and every snapshot of the file becomes a new object. *)
Fixpoint load_histories (content : ItemsContent) (d : Dict.t (list loc))
    (h : Heap) (next : loc) : Dict.t (list loc) * Heap * loc :=
  match content with
  | [] => (d, h, next)
  | (k, snapshots) :: rest =>
      let '(ls, h1, next1) := allocate snapshots h next in
      load_histories rest (Dict.set d k ls) h1 next1
  end.

(** [json.load] of the watched file. *)
Fixpoint load_snapshots (content : WatchedContent) (d : Dict.t loc)
    (h : Heap) (next : loc) : Dict.t loc * Heap * loc :=
  match content with
  | [] => (d, h, next)
  | (k, snapshot) :: rest =>
      load_snapshots rest (Dict.set d k next) (heap_set h next snapshot) (S next)
  end.

(** [load_data(self.data_file)]: [{}] when the file does not exist; a file
    that a failed write left behind is one [json.load] rejects. *)
Definition load_questions (f : File ItemsContent) (h : Heap) (next : loc)
    : Result (Dict.t (list loc) * Heap * loc) :=
  match f with
  | Missing => Ok ([], h, next)
  | Holds content => Ok (load_histories content [] h next)
  | Torn => Raise (Raised "JSONDecodeError")
  end.

(** [load_data(self.watched_file)] *)
Definition load_watched (f : File WatchedContent) (h : Heap) (next : loc)
    : Result (Dict.t loc * Heap * loc) :=
  match f with
  | Missing => Ok ([], h, next)
  | Holds content => Ok (load_snapshots content [] h next)
  | Torn => Raise (Raised "JSONDecodeError")
  end.

(** [DataManager.__init__] in the world [world] is in (its files, its
    clock, the objects that exist, of which [next] is the first free
    location): no observer, [_data = None], the two dicts loaded from the
    two files. *)
Definition DataManager_init (world : DataManager) (next : loc)
    (max_history : nat) : Result (DataManager * loc) :=
  match load_questions (data_file world) (heap world) next with
  | Raise e => Raise e
  | Ok (qs, h1, next1) =>
      match load_watched (watched_file world) h1 next1 with
      | Raise e => Raise e
      | Ok (ws, h2, next2) =>
          Ok (mkDataManager h2 None [] max_history qs ws
                (data_file world) (watched_file world)
                (ticks world) (writes world) (trace world),
              next2)
      end
  end.

(** ** The list view of the GUI *)

(** One line of the [ttk.Treeview]: its item id and its eight columns. *)
Record Row : Type := mkRow {
  iid : string;
  col_name : string;
  col_time : option string;
  col_potential : Q;
  col_views : Z;
  col_view_increment : Z;
  col_answers : Z;
  col_answers_increment : Z;
  col_watched : string
}.

Record GUI : Type := mkGUI {
  treeview : list Row;
  question_list : list loc;
  last_refresh_label : string
}.

Definition set_treeview (rows : list Row) (g : GUI) : GUI :=
  mkGUI rows (question_list g) (last_refresh_label g).
Definition set_question_list (qs : list loc) (g : GUI) : GUI :=
  mkGUI (treeview g) qs (last_refresh_label g).
Definition set_last_refresh_label (text : string) (g : GUI) : GUI :=
  mkGUI (treeview g) (question_list g) text.

(** The [values] tuple [refresh_list] builds for one question; the last
    column is ["Yes" if question['question_url'] in watched_questions else
    "No"]. *)
Definition row_of (dm : DataManager) (question : loc) : Row :=
  let q := heap dm question in
  mkRow (question_url q) (question_text q) (date q) (potential_score q)
    (view_total q) (view_increment q) (answer_total q) (answer_increment q)
    (if Dict.mem (watched_questions dm) (question_url q) then "Yes" else "No").

(** [self.treeview.insert('', 'end', values=values, iid=...)]: Tk refuses an
    item id that is already in the tree. *)
Definition treeview_insert (r : Row) : ST GUI unit :=
  fun g =>
    if existsb (String.eqb (iid r)) (map iid (treeview g))
    then (g, Raise (Raised "TclError"))
    else (set_treeview (treeview g ++ [r]) g, Ok tt).

Fixpoint insert_rows (dm : DataManager) (questions : list loc) : ST GUI unit :=
  match questions with
  | [] => ret tt
  | question :: rest =>
      treeview_insert (row_of dm question) ;;; insert_rows dm rest
  end.

(** [GUI.refresh_list]: empty the tree, ask the data manager for the
    question list, insert one line per question, update the label with the
    tracker's [last_refresh_time]. *)
Definition refresh_list (dm : DataManager) (last_refresh_time : string)
    : ST GUI unit :=
  modify (set_treeview []) ;;;
  match get_question_list dm with
  | Raise e => raise e
  | Ok qs =>
      modify (set_question_list qs) ;;;
      insert_rows dm qs ;;;
      modify (set_last_refresh_label ("Last Refresh: " ++ last_refresh_time)%string)
  end.

(** ** Sequences of calls *)

(** A call on the registry of observers; a call that raises leaves the
    object as the method left it. *)
Inductive RegistryCall : Type :=
| CallRegister (l : Listener)
| CallUnregister (l : Listener).

Definition registry_call (c : RegistryCall) (dm : DataManager) : DataManager :=
  match c with
  | CallRegister l => fst (register_listener l dm)
  | CallUnregister l => fst (unregister_listener l dm)
  end.

Definition registry_calls (cs : list RegistryCall) (dm : DataManager)
    : DataManager :=
  fold_left (fun dm c => registry_call c dm) cs dm.

(** The observers a trace says were called, in order. *)
Fixpoint notified_ids (tr : list Event) : list nat :=
  match tr with
  | [] => []
  | Notified n _ _ :: rest => n :: notified_ids rest
  | _ :: rest => notified_ids rest
  end.

(** The identities of [urls] that are not in [seen], each once, in the order
    of their first appearance. *)
Fixpoint first_seen (seen urls : list string) : list string :=
  match urls with
  | [] => []
  | u :: rest =>
      if existsb (String.eqb u) seen then first_seen seen rest
      else u :: first_seen (u :: seen) rest
  end.

(** What a merge step reads of the object. *)
Definition same_core (dm dm' : DataManager) : Prop :=
  heap dm' = heap dm /\ questions dm' = questions dm
  /\ max_history dm' = max_history dm /\ ticks dm' = ticks dm.

(** A call on the store or on the watch list; a call that raises leaves the
    object as the method left it. *)
Inductive StoreCall : Type :=
| CallUpdate (new_questions : list loc)
| CallWatch (question_url : string)
| CallUnwatch (question_url : string).

Definition store_call (now : nat -> string) (disk_ok : nat -> bool)
    (c : StoreCall) (dm : DataManager) : DataManager :=
  match c with
  | CallUpdate new_questions => fst (update_questions now disk_ok new_questions dm)
  | CallWatch url => fst (add_to_watched disk_ok url dm)
  | CallUnwatch url => fst (remove_from_watched disk_ok url dm)
  end.

Definition store_calls (now : nat -> string) (disk_ok : nat -> bool)
    (cs : list StoreCall) (dm : DataManager) : DataManager :=
  fold_left (fun dm c => store_call now disk_ok c dm) cs dm.

(** A store in order: each key once in both dicts, no empty history, every
    snapshot filed under its own identity, every watched identity in the
    store, a bound of at least 1. *)
Definition store_ok (dm : DataManager) : Prop :=
  Dict.wf (questions dm)
  /\ Dict.wf (watched_questions dm)
  /\ (forall k, Dict.mem (questions dm) k = true -> history_of dm k <> [])
  /\ (forall k l, In l (history_of dm k) -> question_url (heap dm l) = k)
  /\ (forall k, Dict.mem (watched_questions dm) k = true ->
                Dict.mem (questions dm) k = true)
  /\ 1 <= max_history dm.



(** * Properties *)

(** ** Dicts *)

Section DictFacts.
Variable V : Type.
Implicit Types (d : Dict.t V) (k : string) (v : V).

Lemma get_set_same d k v : Dict.get (Dict.set d k v) k = Some v.
Proof.
  induction d as [|[k' v'] d IH]; simpl.
  - now rewrite String.eqb_refl.
  - destruct (String.eqb k k') eqn:E; simpl; rewrite E; auto.
Qed.

Lemma get_set_other d k k' v :
  k' <> k -> Dict.get (Dict.set d k v) k' = Dict.get d k'.
Proof.
  intros Hne. induction d as [|[k0 v0] d IH]; simpl.
  - destruct (String.eqb k' k) eqn:E; auto.
    apply String.eqb_eq in E. contradiction.
  - destruct (String.eqb k k0) eqn:E; simpl.
    + apply String.eqb_eq in E. subst k0.
      destruct (String.eqb k' k) eqn:E'; auto.
      apply String.eqb_eq in E'. contradiction.
    + now rewrite IH.
Qed.

Lemma mem_get d k : Dict.mem d k = true <-> exists v, Dict.get d k = Some v.
Proof.
  unfold Dict.mem. destruct (Dict.get d k); split; eauto; try discriminate.
  intros [v H]. discriminate.
Qed.

Lemma get_In d k v : Dict.get d k = Some v -> In (k, v) d.
Proof.
  induction d as [|[k' v'] d IH]; simpl; [discriminate|].
  destruct (String.eqb k k') eqn:E.
  - apply String.eqb_eq in E. intros [= ->]. subst. now left.
  - intros H. right. auto.
Qed.

Lemma get_None_keys d k : Dict.get d k = None <-> ~ In k (Dict.keys d).
Proof.
  induction d as [|[k' v'] d IH]; simpl.
  - tauto.
  - destruct (String.eqb k k') eqn:E.
    + apply String.eqb_eq in E. subst. split; [discriminate|]. tauto.
    + apply String.eqb_neq in E. rewrite IH. split.
      * intros H [H1|H1]; [now subst | tauto].
      * tauto.
Qed.

Lemma In_get d k v : Dict.wf d -> In (k, v) d -> Dict.get d k = Some v.
Proof.
  unfold Dict.wf, Dict.keys.
  induction d as [|[k' v'] d IH]; simpl; [tauto|].
  intros Hnd [H|H].
  - injection H as -> ->. now rewrite String.eqb_refl.
  - inversion Hnd as [|? ? Hnin Hnd']; subst.
    destruct (String.eqb k k') eqn:E.
    + apply String.eqb_eq in E. subst k'. exfalso. apply Hnin.
      change k with (fst (k, v)). now apply in_map.
    + auto.
Qed.

Lemma keys_set_mem d k v :
  Dict.mem d k = true -> Dict.keys (Dict.set d k v) = Dict.keys d.
Proof.
  unfold Dict.mem, Dict.keys.
  induction d as [|[k' v'] d IH]; simpl; [discriminate|].
  destruct (String.eqb k k') eqn:E; simpl; auto.
  intros H. now rewrite IH.
Qed.

Lemma keys_set_new d k v :
  Dict.mem d k = false -> Dict.keys (Dict.set d k v) = Dict.keys d ++ [k].
Proof.
  unfold Dict.mem, Dict.keys.
  induction d as [|[k' v'] d IH]; simpl; auto.
  destruct (String.eqb k k') eqn:E; simpl; [discriminate|].
  intros H. now rewrite IH.
Qed.

Lemma wf_set d k v : Dict.wf d -> Dict.wf (Dict.set d k v).
Proof.
  intros Hwf. unfold Dict.wf.
  destruct (Dict.mem d k) eqn:E.
  - now rewrite keys_set_mem.
  - rewrite keys_set_new by assumption.
    apply NoDup_app; [assumption | repeat constructor; simpl; tauto |].
    intros x Hx [Hk|[]]. subst x.
    unfold Dict.mem in E. destruct (Dict.get d k) eqn:G; [discriminate|].
    apply get_None_keys in G. contradiction.
Qed.

Lemma keys_del_subset d k x : In x (Dict.keys (Dict.del d k)) -> In x (Dict.keys d).
Proof.
  unfold Dict.keys.
  induction d as [|[k' v'] d IH]; simpl; auto.
  destruct (String.eqb k k'); simpl; intuition.
Qed.

Lemma wf_del d k : Dict.wf d -> Dict.wf (Dict.del d k).
Proof.
  unfold Dict.wf.
  induction d as [|[k' v'] d IH]; simpl; auto.
  intros Hnd. inversion Hnd as [|? ? Hnin Hnd']; subst.
  destruct (String.eqb k k'); simpl; auto.
  constructor; auto.
  intros H. apply Hnin. eapply keys_del_subset; eauto.
Qed.

Lemma get_del_same d k : Dict.wf d -> Dict.get (Dict.del d k) k = None.
Proof.
  unfold Dict.wf.
  induction d as [|[k' v'] d IH]; simpl; auto.
  intros Hnd. inversion Hnd as [|? ? Hnin Hnd']; subst.
  destruct (String.eqb k k') eqn:E; simpl.
  - apply String.eqb_eq in E. subst. now apply get_None_keys.
  - rewrite E. auto.
Qed.

Lemma get_del_other d k k' :
  k' <> k -> Dict.get (Dict.del d k) k' = Dict.get d k'.
Proof.
  intros Hne. induction d as [|[k0 v0] d IH]; simpl; auto.
  destruct (String.eqb k k0) eqn:E; simpl.
  - apply String.eqb_eq in E. subst k0.
    destruct (String.eqb k' k) eqn:E'; auto.
    apply String.eqb_eq in E'. contradiction.
  - now rewrite IH.
Qed.
End DictFacts.

(** ** The bounded history *)

Lemma evict_skipn (max : nat) (history : list loc) :
  evict max history = skipn (List.length history - max) history.
Proof.
  induction history as [|l rest IH]; [reflexivity|].
  cbn [evict]. destruct (max <? List.length (l :: rest)) eqn:E.
  - apply Nat.ltb_lt in E. cbn [List.length] in *. rewrite IH.
    replace (S (List.length rest) - max) with (S (List.length rest - max))
      by lia.
    reflexivity.
  - apply Nat.ltb_ge in E.
    replace (List.length (l :: rest) - max) with 0 by lia. reflexivity.
Qed.

Lemma evict_length (max : nat) (history : list loc) :
  List.length (evict max history) = Nat.min max (List.length history).
Proof. rewrite evict_skipn, length_skipn. lia. Qed.

Lemma evict_nonempty (max : nat) (history : list loc) :
  1 <= max -> history <> [] -> evict max history <> [].
Proof.
  intros Hmax Hne Heq.
  assert (H : List.length (evict max history) = 0) by now rewrite Heq.
  rewrite evict_length in H. destruct history; [congruence | simpl in H; lia].
Qed.

Lemma latest_app (history : list loc) (l : loc) :
  latest (history ++ [l]) = Some l.
Proof.
  destruct history as [|x rest]; [reflexivity|].
  simpl. f_equal. apply last_last.
Qed.

Lemma latest_None (history : list loc) : latest history = None <-> history = [].
Proof. destruct history; simpl; split; congruence. Qed.

Lemma latest_In (history : list loc) (l : loc) :
  latest history = Some l -> In l history.
Proof.
  destruct history as [|x rest]; simpl; [discriminate|].
  intros [= <-]. induction rest as [|y rest IH].
  - now left.
  - destruct rest as [|z rest']; [right; now left|].
    change (last (y :: z :: rest') x) with (last (z :: rest') x).
    destruct IH as [IH|IH]; [now left | right; now right].
Qed.

Lemma skipn_app_last (n : nat) (history : list loc) (l : loc) :
  n <= List.length history ->
  skipn n (history ++ [l]) = skipn n history ++ [l].
Proof.
  intros H. rewrite skipn_app.
  replace (n - List.length history) with 0 by lia. reflexivity.
Qed.

Lemma latest_evict (max : nat) (history : list loc) (l : loc) :
  1 <= max -> latest (evict max (history ++ [l])) = Some l.
Proof.
  intros Hmax. rewrite evict_skipn, length_app. simpl.
  rewrite skipn_app_last by lia. apply latest_app.
Qed.

(** ** The merge *)

Section MergeFacts.
Variable now : nat -> string.
Variable disk_ok : nat -> bool.

Local Abbreviation uqh := (update_question_history now).
Local Abbreviation mitem := (merge_item now).
Local Abbreviation mloop := (merge_loop now).

Lemma history_of_set (dm : DataManager) (url url' : string) (h : list loc) :
  history_of (set_questions (Dict.set (questions dm) url h) dm) url'
  = if String.eqb url' url then h else history_of dm url'.
Proof.
  unfold history_of. simpl. destruct (String.eqb url' url) eqn:E.
  - apply String.eqb_eq in E. subst. now rewrite get_set_same.
  - apply String.eqb_neq in E. now rewrite get_set_other.
Qed.

Lemma uqh_history (url : string) (l : loc) (dm : DataManager) :
  history_of (uqh url l dm) url
  = evict (max_history dm) (history_of dm url ++ [l]).
Proof.
  unfold update_question_history, history_of.
  destruct (Dict.mem (questions dm) url) eqn:E; simpl.
  - now rewrite get_set_same.
  - rewrite !get_set_same. unfold Dict.mem in E.
    destruct (Dict.get (questions dm) url); [discriminate | reflexivity].
Qed.

Lemma uqh_history_other (url url' : string) (l : loc) (dm : DataManager) :
  url' <> url -> history_of (uqh url l dm) url' = history_of dm url'.
Proof.
  intros Hne. unfold update_question_history, history_of.
  destruct (Dict.mem (questions dm) url); simpl;
    now rewrite ?get_set_other by assumption.
Qed.

Lemma uqh_heap (url : string) (l : loc) (dm : DataManager) :
  heap (uqh url l dm)
  = heap_set (heap dm) l (set_saved_at (heap dm l) (now (ticks dm))).
Proof.
  unfold update_question_history.
  destruct (Dict.mem (questions dm) url); reflexivity.
Qed.

Lemma uqh_frame (url : string) (l : loc) (dm : DataManager) :
  let dm' := uqh url l dm in
  max_history dm' = max_history dm /\ ticks dm' = S (ticks dm)
  /\ watched_questions dm' = watched_questions dm
  /\ _listeners dm' = _listeners dm /\ _data dm' = _data dm
  /\ data_file dm' = data_file dm /\ watched_file dm' = watched_file dm
  /\ writes dm' = writes dm /\ trace dm' = trace dm.
Proof.
  unfold update_question_history.
  destruct (Dict.mem (questions dm) url); simpl; repeat split.
Qed.

Lemma heap_set_url (h : Heap) (l l' : loc) (t : string) :
  question_url (heap_set h l (set_saved_at (h l) t) l') = question_url (h l').
Proof. unfold heap_set. destruct (Nat.eqb l' l) eqn:E; [|reflexivity].
  apply Nat.eqb_eq in E. now subst. Qed.

Lemma merge_loop_app (pre post : list loc) (st : DataManager * Changes) :
  mloop (pre ++ post) st = mloop post (mloop pre st).
Proof. apply fold_left_app. Qed.

Lemma merge_item_max_history (st : DataManager * Changes) (l : loc) :
  max_history (fst (mitem st l)) = max_history (fst st).
Proof.
  destruct st as [dm c]. unfold merge_item. cbn [fst].
  apply (uqh_frame (question_url (heap dm l)) l dm).
Qed.

Lemma merge_loop_max_history (ls : list loc) (st : DataManager * Changes) :
  max_history (fst (mloop ls st)) = max_history (fst st).
Proof.
  revert st. induction ls as [|l ls IH]; intros st; [reflexivity|].
  unfold merge_loop in *. simpl. rewrite IH. apply merge_item_max_history.
Qed.

(** The change record only grows, at the end. *)
Lemma merge_item_extends (st : DataManager * Changes) (l : loc) :
  exists u n,
    updated (snd (mitem st l)) = updated (snd st) ++ u
    /\ new (snd (mitem st l)) = new (snd st) ++ n.
Proof.
  destruct st as [dm c]. simpl.
  destruct (latest (history_of dm (question_url (heap dm l)))).
  - match goal with |- context [if ?b then _ else _] => destruct b end; simpl.
    + eexists _, []. split; [reflexivity | now rewrite app_nil_r].
    + exists [], []. now rewrite !app_nil_r.
  - simpl. eexists [], _. split; [now rewrite app_nil_r | reflexivity].
Qed.

Lemma merge_loop_extends (ls : list loc) (st : DataManager * Changes) :
  exists u n,
    updated (snd (mloop ls st)) = updated (snd st) ++ u
    /\ new (snd (mloop ls st)) = new (snd st) ++ n.
Proof.
  revert st. induction ls as [|l ls IH]; intros st.
  - exists [], []. now rewrite !app_nil_r.
  - simpl. destruct (IH (mitem st l)) as (u & n & Hu & Hn).
    destruct (merge_item_extends st l) as (u0 & n0 & Hu0 & Hn0).
    exists (u0 ++ u), (n0 ++ n). unfold merge_loop in *.
    rewrite Hu, Hn, Hu0, Hn0, !app_assoc. auto.
Qed.

Lemma emits_emits (es1 es2 : list Event) (dm : DataManager) :
  emits es2 (emits es1 dm) = emits (es1 ++ es2) dm.
Proof. unfold emits. simpl. now rewrite app_assoc. Qed.

Lemma emits_nil (dm : DataManager) : emits [] dm = dm.
Proof. destruct dm. unfold emits. simpl. now rewrite app_nil_r. Qed.

(** A broadcast calls the observers in the order of the list and stops at
    the first that raises. *)
Lemma notify_loop_spec (ls : list Listener) (dm : DataManager) :
  notify_loop ls dm
  = (emits (map (fun l => Notified (lid l) (_data dm) (view_of dm))
              (called (_data dm) (view_of dm) ls)) dm,
     match first_failure (_data dm) (view_of dm) ls with
     | None => Ok tt
     | Some e => Raise e
     end).
Proof.
  revert dm. induction ls as [|l ls IH]; intros dm.
  - simpl. now rewrite emits_nil.
  - cbn [notify_loop called first_failure]. unfold bind, call_update.
    destruct (update l (_data dm) (view_of dm)) as [e|] eqn:E.
    + reflexivity.
    + rewrite IH. change (emit ?e dm) with (emits [e] dm).
      now rewrite emits_emits.
Qed.

(** What [update_questions] returns and leaves in memory is what its loop
    built, whether or not the write and the observers succeed. *)
Lemma update_questions_loop (new_questions : list loc) (dm : DataManager) :
  let final := mloop new_questions (dm, empty_changes) in
  let r := update_questions now disk_ok new_questions dm in
  heap (fst r) = heap (fst final)
  /\ questions (fst r) = questions (fst final)
  /\ watched_questions (fst r) = watched_questions (fst final)
  /\ max_history (fst r) = max_history dm
  /\ forall changes, snd r = Ok changes -> changes = snd final.
Proof.
  cbv zeta. unfold update_questions.
  pose proof (merge_loop_max_history new_questions (dm, empty_changes)) as Hmax.
  destruct (mloop new_questions (dm, empty_changes)) as [dm1 c] eqn:E.
  simpl in Hmax. cbn [fst snd].
  unfold bind, save_questions.
  destruct (disk_ok (writes dm1)).
  - unfold _notify_listeners. rewrite notify_loop_spec.
    destruct (first_failure _ _ _); simpl;
      repeat split; auto; intros ? [=]; congruence.
  - simpl. repeat split; auto; intros ? [=].
Qed.
End MergeFacts.

(** ** The bound on the histories *)

Lemma evict_evict_app (max : nat) (history : list loc) (l : loc) :
  evict max (evict max history ++ [l]) = evict max (history ++ [l]).
Proof.
  destruct (Nat.le_gt_cases (List.length history) max) as [Hle|Hgt].
  - rewrite (evict_skipn max history).
    replace (List.length history - max) with 0 by lia. reflexivity.
  - destruct max as [|m].
    + assert (Hnil : forall h, evict 0 h = [])
        by (intros h; apply length_zero_iff_nil; now rewrite evict_length).
      now rewrite !Hnil.
    + assert (Hlen : List.length (evict (S m) history) = S m)
        by (rewrite evict_length; lia).
      rewrite (evict_skipn (S m) (evict (S m) history ++ [l])).
      rewrite (evict_skipn (S m) (history ++ [l])).
      rewrite !length_app, Hlen. cbn [List.length].
      replace (S m + 1 - S m) with 1 by lia.
      rewrite !skipn_app_last by lia.
      f_equal. rewrite evict_skipn, skipn_skipn. f_equal. lia.
Qed.

Section HistoryInvariant.
Variable now : nat -> string.
Variable disk_ok : nat -> bool.
(** The object the merges started from, and its bound. *)
Variable dm0 : DataManager.
Hypothesis max_positive : 1 <= max_history dm0.

Lemma uqh_mem_other (url url' : string) (l : loc) (dm : DataManager) :
  url' <> url ->
  Dict.mem (questions (update_question_history now url l dm)) url'
  = Dict.mem (questions dm) url'.
Proof.
  intros Hne. unfold update_question_history, Dict.mem.
  destruct (Dict.get (questions dm) url); simpl;
    now rewrite ?get_set_other by assumption.
Qed.

Lemma uqh_wf (url : string) (l : loc) (dm : DataManager) :
  Dict.wf (questions dm) ->
  Dict.wf (questions (update_question_history now url l dm)).
Proof.
  intros Hwf. unfold update_question_history.
  destruct (Dict.mem (questions dm) url); simpl; auto using wf_set.
Qed.

Lemma merge_item_inv (dm : DataManager) (c : Changes) (log : list loc) (l : loc) :
  history_inv dm0 dm log ->
  history_inv dm0 (fst (merge_item now (dm, c) l)) (log ++ [l]).
Proof.
  intros (Hurl & Hhist & Hne & Hmax & Hwf). unfold merge_item. cbn [fst].
  set (url := question_url (heap dm l)).
  assert (Hurl0 : question_url (heap dm0 l) = url) by (symmetry; apply Hurl).
  repeat split.
  - intros l'. rewrite uqh_heap, heap_set_url. apply Hurl.
  - intros url'. unfold merged_for. rewrite filter_app. cbn [filter].
    destruct (String.eqb (question_url (heap dm0 l)) url') eqn:E.
    + apply String.eqb_eq in E. rewrite Hurl0 in E. subst url'.
      rewrite uqh_history, Hmax, Hhist. apply evict_evict_app.
    + apply String.eqb_neq in E. rewrite Hurl0 in E.
      rewrite app_nil_r, uqh_history_other by congruence. apply Hhist.
  - intros url' Hmem. destruct (String.eqb url' url) eqn:E.
    + apply String.eqb_eq in E. subst url'. rewrite uqh_history, Hmax.
      apply evict_nonempty; [assumption|]. now destruct (history_of dm url).
    + apply String.eqb_neq in E.
      rewrite uqh_history_other by assumption.
      rewrite uqh_mem_other in Hmem by assumption. auto.
  - rewrite <- Hmax. apply (uqh_frame now url l dm).
  - now apply uqh_wf.
Qed.

Lemma merge_loop_inv (ls log : list loc) (dm : DataManager) (c : Changes) :
  history_inv dm0 dm log ->
  history_inv dm0 (fst (merge_loop now ls (dm, c))) (log ++ ls).
Proof.
  revert log dm c. induction ls as [|l ls IH]; intros log dm c Hinv.
  - now rewrite app_nil_r.
  - cbn [merge_loop fold_left].
    pose proof (merge_item_inv c l Hinv) as Hstep.
    destruct (merge_item now (dm, c) l) as [dm' c'].
    replace (log ++ l :: ls) with ((log ++ [l]) ++ ls)
      by now rewrite <- app_assoc.
    apply (IH _ dm' c'). exact Hstep.
Qed.

Lemma history_inv_ext (dm dm' : DataManager) (log : list loc) :
  heap dm' = heap dm -> questions dm' = questions dm ->
  max_history dm' = max_history dm ->
  history_inv dm0 dm log -> history_inv dm0 dm' log.
Proof.
  intros Hh Hq Hm (Hurl & Hhist & Hne & Hmax & Hwf).
  unfold history_inv, history_of in *. rewrite Hh, Hq, Hm. auto.
Qed.

Lemma update_questions_inv (batch log : list loc) (dm : DataManager) :
  history_inv dm0 dm log ->
  history_inv dm0 (fst (update_questions now disk_ok batch dm)) (log ++ batch).
Proof.
  intros Hinv.
  destruct (update_questions_loop now disk_ok batch dm) as (Hh & Hq & _ & Hm & _).
  pose proof (merge_loop_inv batch empty_changes Hinv) as Hloop.
  eapply history_inv_ext; [exact Hh | exact Hq | | exact Hloop].
  rewrite Hm. symmetry. apply (merge_loop_max_history now batch (dm, empty_changes)).
Qed.

Lemma merges_inv (batches : list (list loc)) (log : list loc) (dm : DataManager) :
  history_inv dm0 dm log ->
  history_inv dm0 (merges now disk_ok batches dm) (log ++ List.concat batches).
Proof.
  revert log dm. induction batches as [|b bs IH]; intros log dm Hinv.
  - simpl. now rewrite app_nil_r.
  - cbn [merges fold_left List.concat]. rewrite app_assoc.
    apply IH. now apply update_questions_inv.
Qed.
End HistoryInvariant.

(** C3.  After any sequence of merges that started from an empty store,
    with a bound of at least 1: the history of every identity is the last
    [max_history] items merged for it, in the order they arrived (the
    oldest ones are the ones dropped); a key is in the store exactly when
    its history is not empty; and every stored history has between 1 and
    [max_history] entries. *)
Theorem histories_bounded :
  forall (now : nat -> string) (disk_ok : nat -> bool)
         (batches : list (list loc)) (dm0 : DataManager),
    questions dm0 = [] ->
    1 <= max_history dm0 ->
    let dm := merges now disk_ok batches dm0 in
    forall url : string,
      let arrived := merged_for dm0 url (List.concat batches) in
      history_of dm url = skipn (List.length arrived - max_history dm0) arrived
      /\ (Dict.mem (questions dm) url = true <-> history_of dm url <> [])
      /\ (forall history : list loc,
            In (url, history) (questions dm) ->
            history = history_of dm url
            /\ 1 <= List.length history <= max_history dm0).
Proof.
  intros now disk_ok batches dm0 Hempty Hmax dm url arrived.
  assert (Hinit : history_inv dm0 dm0 []).
  { unfold history_inv, history_of, Dict.mem, Dict.wf. rewrite Hempty. simpl.
    repeat split; auto; try discriminate. constructor. }
  pose proof (merges_inv now disk_ok Hmax batches Hinit) as Hinv.
  cbn [app] in Hinv. fold dm in Hinv.
  destruct Hinv as (_ & Hhist & Hne & _ & Hwf).
  assert (Heq : history_of dm url
                = skipn (List.length arrived - max_history dm0) arrived).
  { rewrite Hhist. apply evict_skipn. }
  split; [exact Heq|]. split.
  - split; [apply Hne|]. intros Hn. unfold history_of, Dict.mem in *.
    destruct (Dict.get (questions dm) url); congruence.
  - intros history Hin. apply In_get in Hin; [|exact Hwf].
    assert (Hh : history = history_of dm url)
      by (unfold history_of; now rewrite Hin).
    split; [exact Hh|]. subst history.
    assert (Hmem : Dict.mem (questions dm) url = true)
      by (unfold Dict.mem; now rewrite Hin).
    apply Hne in Hmem. split.
    + destruct (history_of dm url); [congruence | simpl; lia].
    + rewrite Hhist, evict_length. lia.
Qed.

Lemma histories_bounded_witness :
  let dm := merges Ex.clock Ex.disk_fine [[0; 2]; [1]; [3]] (Ex.fresh 2 []) in
  history_of dm "a" = [1; 3]
  /\ (Dict.mem (questions dm) "a" = true <-> history_of dm "a" <> []).
Proof.
  assert (Hmax : 1 <= max_history (Ex.fresh 2 [])) by (simpl; lia).
  destruct (histories_bounded Ex.clock Ex.disk_fine [[0; 2]; [1]; [3]]
              (Ex.fresh 2 []) eq_refl Hmax "a") as (Hhist & Hiff & _).
  split; [exact Hhist | exact Hiff].
Defined.

(** ** The entries of ['new'] *)

Section NewEntries.
Variable now : nat -> string.
Variable disk_ok : nat -> bool.

Local Abbreviation mitem := (merge_item now).
Local Abbreviation mloop := (merge_loop now).

Lemma merge_item_url (st : DataManager * Changes) (x l : loc) :
  question_url (heap (fst (mitem st x)) l) = question_url (heap (fst st) l).
Proof.
  destruct st as [dm c]. unfold merge_item. cbn [fst].
  rewrite uqh_heap. apply heap_set_url.
Qed.

Lemma merge_loop_url (ls : list loc) (st : DataManager * Changes) (l : loc) :
  question_url (heap (fst (mloop ls st)) l) = question_url (heap (fst st) l).
Proof.
  revert st. induction ls as [|x ls IH]; intros st; [reflexivity|].
  cbn [merge_loop fold_left]. unfold merge_loop in IH. rewrite IH.
  apply merge_item_url.
Qed.

Lemma merge_item_ticks (st : DataManager * Changes) (x : loc) :
  ticks (fst (mitem st x)) = S (ticks (fst st)).
Proof.
  destruct st as [dm c]. unfold merge_item. cbn [fst].
  apply (uqh_frame now (question_url (heap dm x)) x dm).
Qed.

Lemma merge_loop_ticks (ls : list loc) (st : DataManager * Changes) :
  ticks (fst (mloop ls st)) = ticks (fst st) + List.length ls.
Proof.
  revert st. induction ls as [|x ls IH]; intros st; [simpl; lia|].
  cbn [merge_loop fold_left List.length]. unfold merge_loop in IH.
  rewrite IH, merge_item_ticks. lia.
Qed.

Lemma merge_loop_history_other (ls : list loc) (st : DataManager * Changes)
    (url : string) :
  (forall l', In l' ls -> question_url (heap (fst st) l') <> url) ->
  history_of (fst (mloop ls st)) url = history_of (fst st) url.
Proof.
  revert st. induction ls as [|x ls IH]; intros st Hother; [reflexivity|].
  cbn [merge_loop fold_left]. unfold merge_loop in IH. rewrite IH.
  - destruct st as [dm c]. unfold merge_item. cbn [fst] in *.
    apply uqh_history_other. intros Heq. apply (Hother x); [now left | auto].
  - intros l' Hin. rewrite merge_item_url. apply Hother. now right.
Qed.

Lemma merge_item_stamp (st : DataManager * Changes) (x l : loc) (n : nat) :
  n < ticks (fst st) ->
  saved_at (heap (fst st) l) = Some (now n) ->
  exists n', n <= n' < ticks (fst (mitem st x))
             /\ saved_at (heap (fst (mitem st x)) l) = Some (now n').
Proof.
  intros Hn Hs. rewrite merge_item_ticks.
  destruct st as [dm c]. unfold merge_item. cbn [fst] in *.
  rewrite uqh_heap. unfold heap_set. destruct (Nat.eqb l x).
  - exists (ticks dm). split; [lia | reflexivity].
  - exists n. split; [lia | assumption].
Qed.

Lemma merge_loop_stamp (ls : list loc) (st : DataManager * Changes)
    (l : loc) (n : nat) :
  n < ticks (fst st) ->
  saved_at (heap (fst st) l) = Some (now n) ->
  exists n', n <= n' < ticks (fst (mloop ls st))
             /\ saved_at (heap (fst (mloop ls st)) l) = Some (now n').
Proof.
  revert st n. induction ls as [|x ls IH]; intros st n Hn Hs.
  - exists n. split; [simpl; lia | assumption].
  - cbn [merge_loop fold_left].
    destruct (merge_item_stamp st x l Hn Hs) as (n1 & Hn1 & Hs1).
    destruct (IH (mitem st x) n1 (proj2 Hn1) Hs1) as (n2 & Hn2 & Hs2).
    exists n2. unfold merge_loop in *. split; [lia | exact Hs2].
Qed.

Lemma merge_loop_cons (x : loc) (ls : list loc) (st : DataManager * Changes) :
  mloop (x :: ls) st = mloop ls (mitem st x).
Proof. reflexivity. Qed.

(** Every entry of ['new'] was put there by the step that also appended
    it to the history of its identity and stamped it. *)
Lemma merge_loop_new (ls : list loc) (dm : DataManager) (c : Changes) (l : loc) :
  1 <= max_history dm ->
  let final := mloop ls (dm, c) in
  let url := question_url (heap dm l) in
  In l (new (snd final)) ->
  In l (new c)
  \/ (exists n, ticks dm <= n < ticks (fst final)
                /\ saved_at (heap (fst final) l) = Some (now n))
     /\ exists pre post,
          ls = pre ++ l :: post
          /\ latest (history_of (fst (mloop (pre ++ [l]) (dm, c))) url) = Some l
          /\ ((forall l', In l' post -> question_url (heap dm l') <> url) ->
              latest (history_of (fst final) url) = Some l).
Proof.
  revert dm c. induction ls as [|x ls IH]; intros dm c Hmax; cbv zeta.
  - simpl. auto.
  - rewrite !merge_loop_cons. intros Hin.
    pose proof (merge_item_max_history now (dm, c) x) as Hmax1.
    pose proof (merge_item_ticks (dm, c) x) as Hticks.
    pose proof (fun l' => merge_item_url (dm, c) x l') as Hurl.
    destruct (mitem (dm, c) x) as [dm1 c1] eqn:Estep. cbn [fst snd] in *.
    assert (Hmax' : 1 <= max_history dm1) by lia.
    destruct (IH dm1 c1 Hmax' Hin) as [Hc1 | [Hstamp Hsplit]].
    + (* the entry was there after the first step *)
      unfold merge_item in Estep. injection Estep as Edm Ec.
      rewrite <- Ec in Hc1.
      destruct (latest (history_of dm (question_url (heap dm x)))) eqn:Elat.
      * left.
        match goal with H : In l (new (if ?b then _ else _)) |- _ =>
          destruct b end; exact Hc1.
      * cbn [new] in Hc1. apply in_app_or in Hc1.
        destruct Hc1 as [Hc | [<- | []]]; [now left | right].
        assert (Hsx : saved_at (heap dm1 x) = Some (now (ticks dm))).
        { rewrite <- Edm, uqh_heap. unfold heap_set.
          now rewrite Nat.eqb_refl. }
        assert (Hlx : latest (history_of dm1 (question_url (heap dm x))) = Some x).
        { rewrite <- Edm, uqh_history. now apply latest_evict. }
        split.
        -- destruct (@merge_loop_stamp ls (dm1, c1) x (ticks dm))
             as (n & Hn & Hs); cbn [fst]; [lia | exact Hsx |].
           exists n. cbn [fst] in Hn. split; [lia | exact Hs].
        -- exists [], ls. split; [reflexivity|]. split.
           ++ cbn [app]. rewrite merge_loop_cons. unfold merge_item.
              cbn [merge_loop fold_left fst]. rewrite Edm. exact Hlx.
           ++ intros Hother. rewrite merge_loop_history_other.
              ** exact Hlx.
              ** cbn [fst]. intros l' Hl'. rewrite Hurl. now apply Hother.
    + right. rewrite Hurl in Hsplit. split.
      * destruct Hstamp as (n & Hn & Hs). exists n. split; [lia | exact Hs].
      * destruct Hsplit as (pre & post & -> & Hlat & Hfin).
        exists (x :: pre), post. split; [reflexivity|]. split.
        -- cbn [app]. rewrite merge_loop_cons, Estep. exact Hlat.
        -- intros Hother. apply Hfin. intros l' Hl'. rewrite Hurl.
           now apply Hother.
Qed.
End NewEntries.

(** ** The store a merge leaves *)

Lemma evict_short (max : nat) (history : list loc) :
  List.length history <= max -> evict max history = history.
Proof.
  intros Hle. rewrite evict_skipn.
  replace (List.length history - max) with 0 by lia. reflexivity.
Qed.

Lemma evict_app_any (max : nat) (history more : list loc) :
  evict max (evict max history ++ more) = evict max (history ++ more).
Proof.
  induction more as [|l more IH] using rev_ind.
  - rewrite !app_nil_r. apply evict_short. rewrite evict_length. lia.
  - rewrite !app_assoc, <- evict_evict_app, IH. apply evict_evict_app.
Qed.

Lemma merged_for_ext (dm dm' : DataManager) (url : string) (ls : list loc) :
  (forall l, question_url (heap dm' l) = question_url (heap dm l)) ->
  merged_for dm' url ls = merged_for dm url ls.
Proof.
  intros H. unfold merged_for. apply filter_ext. intros l. now rewrite H.
Qed.

Lemma set_saved_at_twice (q : Question) (t1 t2 : string) :
  set_saved_at (set_saved_at q t1) t2 = set_saved_at q t2.
Proof. reflexivity. Qed.

Section MergeLoop.
Variable now : nat -> string.

Lemma merge_loop_history (ls : list loc) (dm : DataManager) (c : Changes)
    (url : string) :
  history_of (fst (merge_loop now ls (dm, c))) url
  = match merged_for dm url ls with
    | [] => history_of dm url
    | _ :: _ => evict (max_history dm) (history_of dm url ++ merged_for dm url ls)
    end.
Proof.
  revert dm c. induction ls as [|x ls IH]; intros dm c; [reflexivity|].
  rewrite merge_loop_cons.
  pose proof (merge_item_url now (dm, c) x) as Hurl.
  pose proof (merge_item_max_history now (dm, c) x) as Hmax.
  assert (Hstep : forall u,
            history_of (fst (merge_item now (dm, c) x)) u
            = if String.eqb (question_url (heap dm x)) u
              then evict (max_history dm) (history_of dm u ++ [x])
              else history_of dm u).
  { intros u. unfold merge_item. cbn [fst].
    destruct (String.eqb (question_url (heap dm x)) u) eqn:E.
    - apply String.eqb_eq in E. subst u. apply uqh_history.
    - apply String.eqb_neq in E. apply uqh_history_other. congruence. }
  destruct (merge_item now (dm, c) x) as [dm1 c1]. cbn [fst] in *.
  rewrite IH, (merged_for_ext dm dm1 url ls Hurl), Hmax, Hstep.
  unfold merged_for at 3 4. cbn [filter].
  fold (merged_for dm url ls).
  destruct (String.eqb (question_url (heap dm x)) url).
  - destruct (merged_for dm url ls) as [|y rest]; [reflexivity|].
    rewrite evict_app_any, <- app_assoc. reflexivity.
  - reflexivity.
Qed.

Lemma merge_loop_heap_other (ls : list loc) (st : DataManager * Changes) (l : loc) :
  ~ In l ls -> heap (fst (merge_loop now ls st)) l = heap (fst st) l.
Proof.
  revert st. induction ls as [|x ls IH]; intros st Hnin; [reflexivity|].
  rewrite merge_loop_cons, IH by (intros H; apply Hnin; now right).
  destruct st as [dm c]. unfold merge_item. cbn [fst].
  rewrite uqh_heap. unfold heap_set.
  destruct (Nat.eqb l x) eqn:E; [|reflexivity].
  apply Nat.eqb_eq in E. exfalso. apply Hnin. now left.
Qed.

Lemma merge_loop_heap_stamped (ls : list loc) (st : DataManager * Changes) (l : loc) :
  In l ls ->
  exists n,
    ticks (fst st) <= n < ticks (fst st) + List.length ls
    /\ heap (fst (merge_loop now ls st)) l
       = set_saved_at (heap (fst st) l) (now n).
Proof.
  revert st. induction ls as [|x ls IH]; intros st Hin; [destruct Hin|].
  rewrite merge_loop_cons.
  pose proof (merge_item_ticks now st x) as Hticks.
  assert (Hheap : heap (fst (merge_item now st x))
                  = heap_set (heap (fst st)) x
                      (set_saved_at (heap (fst st) x) (now (ticks (fst st))))).
  { destruct st as [dm c]. unfold merge_item. cbn [fst]. apply uqh_heap. }
  destruct (in_dec Nat.eq_dec l ls) as [Hl|Hl].
  - destruct (IH (merge_item now st x) Hl) as (n & Hn & Hs).
    exists n. split; [cbn [List.length]; lia|].
    rewrite Hs, Hheap. unfold heap_set.
    destruct (Nat.eqb l x) eqn:E; [|reflexivity].
    apply Nat.eqb_eq in E. subst. reflexivity.
  - destruct Hin as [->|Hin]; [|contradiction].
    exists (ticks (fst st)). split; [cbn [List.length]; lia|].
    rewrite merge_loop_heap_other by assumption.
    rewrite Hheap. unfold heap_set. now rewrite Nat.eqb_refl.
Qed.

Lemma uqh_get_other (url url' : string) (l : loc) (dm : DataManager) :
  url' <> url ->
  Dict.get (questions (update_question_history now url l dm)) url'
  = Dict.get (questions dm) url'.
Proof.
  intros Hne. unfold update_question_history.
  destruct (Dict.mem (questions dm) url); simpl;
    now rewrite ?get_set_other by assumption.
Qed.

(** The items of other identities leave the entry of [url] as it is. *)
Lemma merge_loop_get_other (ls : list loc) (st : DataManager * Changes)
    (url : string) :
  (forall l', In l' ls -> question_url (heap (fst st) l') <> url) ->
  Dict.get (questions (fst (merge_loop now ls st))) url
  = Dict.get (questions (fst st)) url.
Proof.
  revert st. induction ls as [|x ls IH]; intros st Hother; [reflexivity|].
  rewrite merge_loop_cons, IH.
  - destruct st as [dm c]. unfold merge_item. cbn [fst] in *.
    apply uqh_get_other. intros Heq. apply (Hother x); [now left | auto].
  - intros l' Hin. rewrite merge_item_url. apply Hother. now right.
Qed.

(** The loop writes nothing but ['saved_at'] into an object. *)
Lemma merge_loop_unstamped (ls : list loc) (st : DataManager * Changes)
    (l : loc) (t : string) :
  set_saved_at (heap (fst (merge_loop now ls st)) l) t
  = set_saved_at (heap (fst st) l) t.
Proof.
  destruct (in_dec Nat.eq_dec l ls) as [Hin|Hnin].
  - destruct (@merge_loop_heap_stamped ls st l Hin) as (n & _ & ->). reflexivity.
  - now rewrite merge_loop_heap_other.
Qed.

Lemma merge_loop_totals (ls : list loc) (st : DataManager * Changes) (l : loc) :
  view_total (heap (fst (merge_loop now ls st)) l) = view_total (heap (fst st) l)
  /\ answer_total (heap (fst (merge_loop now ls st)) l)
     = answer_total (heap (fst st) l).
Proof.
  pose proof (merge_loop_unstamped ls st l EmptyString) as H.
  split.
  - exact (f_equal view_total H).
  - exact (f_equal answer_total H).
Qed.

Lemma evict_keeps (max : nat) (history more : list loc) (l : loc) :
  List.length more < max -> In l (evict max (history ++ l :: more)).
Proof.
  intros Hlt. rewrite evict_skipn, skipn_app. apply in_or_app. right.
  rewrite length_app. cbn [List.length].
  replace (List.length history + S (List.length more) - max
           - List.length history) with 0 by lia.
  now left.
Qed.

Lemma merged_for_none (dm : DataManager) (url : string) (ls : list loc) :
  (forall l', In l' ls -> question_url (heap dm l') <> url) ->
  merged_for dm url ls = [].
Proof.
  induction ls as [|x ls IH]; intros H; [reflexivity|].
  unfold merged_for in *. cbn [filter].
  destruct (String.eqb (question_url (heap dm x)) url) eqn:E.
  - apply String.eqb_eq in E. exfalso. apply (H x); [now left | exact E].
  - apply IH. intros l' Hl'. apply H. now right.
Qed.

(** From the step that merges [question] to the end of the loop: the
    history of its identity is the one the loop had reached, followed by
    [question] and the later items of that identity, cut to the bound; the
    object is the one passed in, stamped at that step or at a later step
    that merges the same object again. *)
Lemma merge_loop_from (post : list loc) (dm : DataManager) (c : Changes)
    (question : loc) :
  let final := merge_loop now (question :: post) (dm, c) in
  let url := question_url (heap dm question) in
  history_of (fst final) url
  = evict (max_history dm)
      (history_of dm url ++ question :: merged_for dm url post)
  /\ (exists n,
        ticks dm <= n < ticks dm + S (List.length post)
        /\ heap (fst final) question = set_saved_at (heap dm question) (now n))
  /\ (~ In question post ->
      heap (fst final) question
      = set_saved_at (heap dm question) (now (ticks dm))).
Proof.
  cbv zeta. split; [|split].
  - rewrite merge_loop_history. unfold merged_for. cbn [filter].
    now rewrite String.eqb_refl.
  - destruct (@merge_loop_heap_stamped (question :: post) (dm, c) question)
      as (n & Hn & Hs); [now left|].
    exists n. split; [exact Hn | exact Hs].
  - intros Hnin. rewrite merge_loop_cons, merge_loop_heap_other by assumption.
    unfold merge_item. cbn [fst]. rewrite uqh_heap. unfold heap_set.
    now rewrite Nat.eqb_refl.
Qed.
End MergeLoop.

(** ** One merge cycle, step by step *)

(** [update_questions] merges the batch, then writes the items file, then
    calls the observers; a failed write raises before any observer is
    called. *)
Lemma update_questions_eq (now : nat -> string) (disk_ok : nat -> bool)
    (batch : list loc) (dm : DataManager) :
  update_questions now disk_ok batch dm
  = let (dm1, changes) := merge_loop now batch (dm, empty_changes) in
    if disk_ok (writes dm1)
    then
      (emits
         (WroteDataFile (items_content dm1)
          :: map (fun l => Notified (lid l) (_data dm1) (view_of dm1))
               (called (_data dm1) (view_of dm1) (_listeners dm1)))
         (set_data_file (Holds (items_content dm1)) (count_write dm1)),
       match first_failure (_data dm1) (view_of dm1) (_listeners dm1) with
       | None => Ok changes
       | Some e => Raise e
       end)
    else
      (emits [WriteFailed (OSError "data_file")]
         (set_data_file Torn (count_write dm1)),
       Raise (OSError "data_file")).
Proof.
  unfold update_questions.
  destruct (merge_loop now batch (dm, empty_changes)) as [dm1 c].
  unfold bind, save_questions.
  destruct (disk_ok (writes dm1)); [|reflexivity].
  unfold _notify_listeners. rewrite notify_loop_spec.
  change (emit ?e ?d) with (emits [e] d). rewrite emits_emits.
  cbn [app]. change (_data (emits _ _)) with (_data dm1).
  change (view_of (emits _ _)) with (view_of dm1).
  change (_listeners (emits _ _)) with (_listeners dm1).
  destruct (first_failure (_data dm1) (view_of dm1) (_listeners dm1));
    reflexivity.
Qed.

Lemma update_questions_ticks (now : nat -> string) (disk_ok : nat -> bool)
    (batch : list loc) (dm : DataManager) :
  ticks (fst (update_questions now disk_ok batch dm))
  = ticks (fst (merge_loop now batch (dm, empty_changes))).
Proof.
  rewrite update_questions_eq.
  destruct (merge_loop now batch (dm, empty_changes)) as [dm1 c].
  destruct (disk_ok (writes dm1)); reflexivity.
Qed.

Section MergeClaims.
Variable now : nat -> string.
Variable disk_ok : nat -> bool.

(** What a call of [update_questions] leaves for the item at one position
    of its batch, whether it returns or raises. *)
Lemma update_questions_leaves (pre post : list loc) (question : loc)
    (dm : DataManager) :
  let batch := pre ++ question :: post in
  let reached := merge_loop now pre (dm, empty_changes) in
  let final := merge_loop now batch (dm, empty_changes) in
  let r := update_questions now disk_ok batch dm in
  let url := question_url (heap (fst reached) question) in
  ticks (fst reached) = ticks dm + List.length pre
  /\ (forall l : loc,
        view_total (heap (fst reached) l) = view_total (heap dm l)
        /\ answer_total (heap (fst reached) l) = answer_total (heap dm l))
  /\ ((forall l', In l' pre -> question_url (heap dm l') <> url) ->
      Dict.get (questions (fst reached)) url = Dict.get (questions dm) url)
  /\ heap (fst r) = heap (fst final)
  /\ questions (fst r) = questions (fst final)
  /\ history_of (fst r) url
     = evict (max_history dm)
         (history_of (fst reached) url ++ question :: merged_for dm url post)
  /\ (List.length (merged_for dm url post) < max_history dm ->
      In question (history_of (fst r) url))
  /\ ((forall l', In l' post -> question_url (heap dm l') <> url) ->
      1 <= max_history dm ->
      latest (history_of (fst r) url) = Some question)
  /\ (exists n,
        ticks dm + List.length pre <= n < ticks dm + List.length batch
        /\ heap (fst r) question = set_saved_at (heap dm question) (now n))
  /\ (~ In question post ->
      heap (fst r) question
      = set_saved_at (heap dm question) (now (ticks dm + List.length pre)))
  /\ (disk_ok (writes (fst final)) = true ->
      first_failure (_data (fst final)) (view_of (fst final))
        (_listeners (fst final)) = None ->
      snd r = Ok (snd final)).
Proof.
  cbv zeta.
  pose proof (merge_loop_max_history now pre (dm, empty_changes)) as Hmax.
  pose proof (merge_loop_url now pre (dm, empty_changes)) as Hurl.
  pose proof (merge_loop_ticks now pre (dm, empty_changes)) as Hticks.
  pose proof (merge_loop_unstamped now pre (dm, empty_changes)) as Hobj.
  pose proof (merge_loop_totals now pre (dm, empty_changes)) as Htot.
  pose proof (merge_loop_get_other now pre (dm, empty_changes)) as Hget.
  destruct (update_questions_loop now disk_ok (pre ++ question :: post) dm)
    as (Hh & Hq & _).
  pose proof (update_questions_eq now disk_ok (pre ++ question :: post) dm)
    as Hcall.
  assert (Hhist : forall u,
            history_of
              (fst (update_questions now disk_ok (pre ++ question :: post) dm)) u
            = history_of
                (fst (merge_loop now (pre ++ question :: post)
                        (dm, empty_changes))) u)
    by (intros u; unfold history_of; now rewrite Hq).
  rewrite !Hhist, Hh.
  assert (Hlen : List.length (pre ++ question :: post)
                 = List.length pre + S (List.length post))
    by (rewrite length_app; reflexivity).
  rewrite Hlen.
  rewrite (merge_loop_app now pre (question :: post)) in *.
  destruct (merge_loop now pre (dm, empty_changes)) as [dm1 c].
  cbn [fst snd] in *.
  destruct (merge_loop_from now post dm1 c question) as (Hfrom & Hstamp & Hlast).
  rewrite (merged_for_ext dm dm1 _ post Hurl), Hmax in Hfrom.
  split; [lia|]. split; [exact Htot|]. split; [apply Hget|].
  split; [reflexivity|]. split; [exact Hq|]. split; [exact Hfrom|].
  split; [|split; [|split; [|split]]].
  - intros Hfew. rewrite Hfrom. now apply evict_keeps.
  - intros Hother Hpos. rewrite Hfrom, merged_for_none.
    + now apply latest_evict.
    + exact Hother.
  - destruct Hstamp as (n & Hn & Hs). exists n. split; [lia|].
    rewrite Hs. apply Hobj.
  - intros Hnin. rewrite (Hlast Hnin), Hticks. apply Hobj.
  - intros Hdisk Hnone. rewrite Hcall.
    destruct (merge_loop now (question :: post) (dm1, c)) as [dm2 c2].
    cbn [fst snd] in *. now rewrite Hdisk, Hnone.
Qed.

(** C1.  In a merge of the batch [pre ++ question :: post], when the loop
    reaches [question]: if its identity is absent from the store or has an
    empty history, the item is added once to ['new'] and nothing is added
    to ['updated']; if its identity has a last snapshot [prior], nothing
    is added to ['new'], the increments are the differences of the totals
    against [prior], and one entry with them is added to ['updated']
    exactly when one of them is not zero; in both cases the item is
    appended to the history of its identity (which is then cut to the
    bound) and stamped with the current time.  What the later items add
    comes after, and the record the call returns is the one the loop
    built.

    The store is read as the loop finds it at [question], that is, the
    store before the call with the earlier items of the batch merged: it
    is [ticks dm + length pre] clock readings after the call began, the
    totals of every object are those the object had before the call, and
    for an identity that no earlier item has, the entry of the store is
    the one before the call.

    What the call leaves, whether it returns or raises: the objects and
    the store are those the loop built; the history of the identity is the
    one the loop had reached, followed by [question] and the later items
    of that identity, cut to the bound, so [question] is in it when fewer
    later items than the bound have its identity and is its last entry
    when none has; the object is the one passed in with ['saved_at'] set
    to a clock reading of this call, the one of its own step unless the
    same object is merged again later.  When the write succeeds and no
    observer raises, the call returns the record. *)
Theorem update_questions_records_changes :
  forall (pre post : list loc) (question : loc) (dm : DataManager),
    let batch := pre ++ question :: post in
    let reached := merge_loop now pre (dm, empty_changes) in
    let after := merge_item now reached question in
    let final := merge_loop now batch (dm, empty_changes) in
    let r := update_questions now disk_ok batch dm in
    let incoming := heap (fst reached) question in
    let url := question_url incoming in
    ((Dict.get (questions (fst reached)) url = None
      \/ Dict.get (questions (fst reached)) url = Some []) ->
       new (snd after) = new (snd reached) ++ [question]
       /\ updated (snd after) = updated (snd reached))
    /\ (forall prior : loc,
          latest (history_of (fst reached) url) = Some prior ->
          let view_inc :=
            (view_total incoming - view_total (heap (fst reached) prior))%Z in
          let answer_inc :=
            (answer_total incoming - answer_total (heap (fst reached) prior))%Z in
          new (snd after) = new (snd reached)
          /\ (view_inc <> 0%Z \/ answer_inc <> 0%Z ->
              updated (snd after)
              = updated (snd reached) ++ [mkUpdated url view_inc answer_inc])
          /\ (view_inc = 0%Z /\ answer_inc = 0%Z ->
              updated (snd after) = updated (snd reached)))
    /\ history_of (fst after) url
       = evict (max_history dm) (history_of (fst reached) url ++ [question])
    /\ saved_at (heap (fst after) question) = Some (now (ticks (fst reached)))
    /\ (exists u n,
          updated (snd final) = updated (snd after) ++ u
          /\ new (snd final) = new (snd after) ++ n)
    /\ (forall changes : Changes, snd r = Ok changes -> changes = snd final)
    /\ url = question_url (heap dm question)
    /\ ((forall l', In l' pre -> question_url (heap dm l') <> url) ->
        history_of (fst reached) url = history_of dm url)
    /\ ticks (fst reached) = ticks dm + List.length pre
    /\ (forall l : loc,
          view_total (heap (fst reached) l) = view_total (heap dm l)
          /\ answer_total (heap (fst reached) l) = answer_total (heap dm l))
    /\ ((forall l', In l' pre -> question_url (heap dm l') <> url) ->
        Dict.get (questions (fst reached)) url = Dict.get (questions dm) url)
    /\ heap (fst r) = heap (fst final)
    /\ questions (fst r) = questions (fst final)
    /\ history_of (fst r) url
       = evict (max_history dm)
           (history_of (fst reached) url ++ question :: merged_for dm url post)
    /\ (List.length (merged_for dm url post) < max_history dm ->
        In question (history_of (fst r) url))
    /\ ((forall l', In l' post -> question_url (heap dm l') <> url) ->
        1 <= max_history dm ->
        latest (history_of (fst r) url) = Some question)
    /\ (exists n,
          ticks dm + List.length pre <= n < ticks dm + List.length batch
          /\ heap (fst r) question = set_saved_at (heap dm question) (now n))
    /\ (~ In question post ->
        heap (fst r) question
        = set_saved_at (heap dm question) (now (ticks dm + List.length pre)))
    /\ (disk_ok (writes (fst final)) = true ->
        first_failure (_data (fst final)) (view_of (fst final))
          (_listeners (fst final)) = None ->
        snd r = Ok (snd final)).
Proof.
  intros pre post question dm. cbv zeta.
  pose proof (update_questions_leaves pre post question dm) as Hleaves.
  cbv zeta in Hleaves.
  pose proof (merge_loop_max_history now pre (dm, empty_changes)) as Hmax.
  pose proof (merge_loop_url now pre (dm, empty_changes) question) as Hurl.
  pose proof (merge_loop_history_other now pre (dm, empty_changes)) as Hsame.
  destruct (merge_loop now pre (dm, empty_changes)) as [dm1 c] eqn:Epre.
  cbn [fst snd] in *.
  split; [|split; [|split; [|split; [|split; [|split; [|split; [|split]]]]]]].
  - intros Habs. unfold merge_item. cbn [snd].
    assert (Hh : history_of dm1 (question_url (heap dm1 question)) = []).
    { unfold history_of. destruct Habs as [-> | ->]; reflexivity. }
    rewrite Hh. split; reflexivity.
  - intros prior H. unfold merge_item. cbn [snd]. rewrite H.
    split; [|split].
    + match goal with |- context [if ?b then _ else _] => destruct b end;
        reflexivity.
    + intros Hnz.
      match goal with |- context [if ?b then _ else _] => destruct b eqn:E end;
        [reflexivity|].
      apply orb_false_iff in E. destruct E as [E1 E2].
      apply negb_false_iff in E1, E2. apply Z.eqb_eq in E1, E2. tauto.
    + intros [Hv Ha]. rewrite Hv, Ha. reflexivity.
  - unfold merge_item. cbn [fst]. rewrite uqh_history. now rewrite Hmax.
  - unfold merge_item. cbn [fst]. rewrite uqh_heap. unfold heap_set.
    now rewrite Nat.eqb_refl.
  - rewrite merge_loop_app, Epre. cbn [merge_loop fold_left].
    apply (merge_loop_extends now post).
  - intros changes Hret.
    now apply (update_questions_loop now disk_ok (pre ++ question :: post) dm).
  - exact Hurl.
  - intros Hother. now apply Hsame.
  - exact Hleaves.
Qed.

End MergeClaims.

Lemma update_questions_records_changes_witness :
  let dm := Ex.fresh 2 [] in
  let reached := merge_loop Ex.clock [0] (dm, empty_changes) in
  let after := merge_item Ex.clock reached 1 in
  let r := update_questions Ex.clock Ex.disk_fine ([0] ++ 1 :: [2]) dm in
  latest (history_of (fst reached) "a") = Some 0
  /\ new (snd after) = [0]
  /\ updated (snd after) = [mkUpdated "a" 50 0]
  /\ history_of (fst after) "a" = [0; 1]
  /\ saved_at (heap (fst after) 1) = Some "1"
  /\ history_of (fst r) "a" = [0; 1]
  /\ latest (history_of (fst r) "a") = Some 1
  /\ heap (fst r) 1 = set_saved_at (heap dm 1) "1"
  /\ snd r = Ok (mkChanges [mkUpdated "a" 50 0] [0; 2]).
Proof.
  cbv zeta.
  destruct (update_questions_records_changes Ex.clock Ex.disk_fine
              [0] [2] 1 (Ex.fresh 2 []))
    as (_ & Hupd & Hhist & Hstamp & _ & _ & _ & _ & _ & _ & _ & _ & _
        & Hleft & _ & Hlatest & _ & Hobject & Hreturns).
  destruct (Hupd 0 eq_refl) as (Hnew & Hnz & _).
  split; [reflexivity|]. split; [exact Hnew|].
  split; [apply Hnz; left; discriminate|].
  split; [exact Hhist|]. split; [exact Hstamp|].
  split; [exact Hleft|]. split; [|split].
  - apply Hlatest; [|simpl; lia].
    intros l' [<-|[]]. discriminate.
  - apply Hobject. intros [H|[]]. discriminate.
  - apply Hreturns; reflexivity.
Defined.

(** ** New entries and the latest snapshot *)

(** C10, as stated, fails: when a batch holds two items of one identity
    that the store does not know, the first is returned in ['new'] but the
    latest history entry of the identity is the second. *)
Lemma new_entry_not_latest :
  let r := update_questions Ex.clock Ex.disk_fine [0; 1] (Ex.fresh 2 []) in
  exists changes,
    snd r = Ok changes
    /\ In 0 (new changes)
    /\ question_url (heap (fst r) 0) = "a"
    /\ latest (history_of (fst r) "a") = Some 1
    /\ heap (fst r) 1 <> heap (fst r) 0.
Proof.
  eexists. split; [reflexivity|].
  split; [now left|]. split; [reflexivity|]. split; [reflexivity|].
  intros H. apply (f_equal view_total) in H. discriminate H.
Qed.

(** C10, amended.  With a bound of at least 1, every entry of the ['new']
    list that [update_questions] returns is the object itself that the
    merge appended to the history of its identity: it carries a [saved_at]
    stamp read from the clock during this call; it was the latest history
    entry of its identity right after its step, and it still is when the
    call returns unless a later item of the same batch has the same
    identity. *)
Theorem new_entries_are_stored :
  forall (now : nat -> string) (disk_ok : nat -> bool)
         (batch : list loc) (dm : DataManager) (changes : Changes),
    1 <= max_history dm ->
    snd (update_questions now disk_ok batch dm) = Ok changes ->
    let dm' := fst (update_questions now disk_ok batch dm) in
    forall l : loc,
      In l (new changes) ->
      let url := question_url (heap dm l) in
      (exists n, ticks dm <= n < ticks dm'
                 /\ saved_at (heap dm' l) = Some (now n))
      /\ exists pre post,
           batch = pre ++ l :: post
           /\ latest (history_of
                        (fst (merge_loop now (pre ++ [l]) (dm, empty_changes)))
                        url) = Some l
           /\ ((forall l', In l' post -> question_url (heap dm l') <> url) ->
               latest (history_of dm' url) = Some l).
Proof.
  intros now disk_ok batch dm changes Hmax Hret dm' l Hin url.
  destruct (update_questions_loop now disk_ok batch dm)
    as (Hheap & Hq & _ & _ & Hchanges).
  pose proof (update_questions_ticks now disk_ok batch dm) as Hticks.
  apply Hchanges in Hret. subst changes.
  destruct (@merge_loop_new now batch dm empty_changes l Hmax Hin)
    as [[] | [Hstamp Hsplit]].
  fold dm' in Hheap, Hq, Hticks. split.
  - rewrite Hheap, Hticks. exact Hstamp.
  - destruct Hsplit as (pre & post & Hb & Hlat & Hfin).
    exists pre, post. split; [exact Hb|]. split; [exact Hlat|].
    intros Hother. unfold history_of. rewrite Hq. now apply Hfin.
Qed.

Lemma new_entries_are_stored_witness :
  let r := update_questions Ex.clock Ex.disk_fine [0; 2] (Ex.fresh 2 []) in
  snd r = Ok (mkChanges [] [0; 2])
  /\ (exists n, 0 <= n < ticks (fst r)
                /\ saved_at (heap (fst r) 2) = Some (Ex.clock n)).
Proof.
  split; [reflexivity|].
  assert (Hmax : 1 <= max_history (Ex.fresh 2 [])) by (simpl; lia).
  assert (Hin : In 2 (new (mkChanges [] [0; 2]))) by (right; now left).
  destruct (new_entries_are_stored Ex.clock Ex.disk_fine [0; 2] (Ex.fresh 2 [])
              Hmax eq_refl 2 Hin) as (Hstamp & _).
  exact Hstamp.
Defined.

(** ** The broadcast *)

Lemma called_all (d : option PyValue) (v : View) (ls : list Listener) :
  first_failure d v ls = None -> called d v ls = ls.
Proof.
  induction ls as [|l ls IH]; [reflexivity|]. simpl.
  destruct (update l d v); [discriminate|]. intros H. now rewrite IH.
Qed.

Lemma called_until (d : option PyValue) (v : View)
    (pre post : list Listener) (l : Listener) (e : PyExc) :
  (forall l', In l' pre -> update l' d v = None) ->
  update l d v = Some e ->
  called d v (pre ++ l :: post) = pre ++ [l]
  /\ first_failure d v (pre ++ l :: post) = Some e.
Proof.
  intros Hpre Hl. induction pre as [|p pre IH]; simpl.
  - now rewrite Hl.
  - rewrite (Hpre p) by now left.
    destruct IH as [IH1 IH2]; [intros l' Hin; apply Hpre; now right|].
    now rewrite IH1, IH2.
Qed.

(** C5, as stated, fails: the first registered observer raises and the
    second is never called; the exception leaves the broadcast. *)
Lemma failing_observer_stops_broadcast :
  let dm := Ex.fresh 3 [Ex.failing; Ex.quiet] in
  let r := _notify_listeners dm in
  snd r = Raise (Raised "boom")
  /\ trace (fst r) = [Notified (lid Ex.failing) None (view_of dm)]
  /\ ~ In (lid Ex.quiet)
         (map (fun ev => match ev with Notified n _ _ => n | _ => 0 end)
            (trace (fst r))).
Proof.
  split; [reflexivity|]. split; [reflexivity|].
  simpl. intros [H|[]]. discriminate H.
Qed.

(** C5, amended.  A broadcast calls [update] of the registered observers
    one after the other in registration order ([register_listener] appends
    at the end of the list): if no call raises, every registered observer
    is called once, in that order; if a call raises, the observers
    registered before it and that one have been called, the exception
    leaves the broadcast, and the observers registered after it are not
    called. *)
Theorem broadcast_in_order :
  forall dm : DataManager,
    let d := _data dm in
    let v := view_of dm in
    let notified := fun ls => map (fun l => Notified (lid l) d v) ls in
    (first_failure d v (_listeners dm) = None ->
     _notify_listeners dm = (emits (notified (_listeners dm)) dm, Ok tt))
    /\ (forall (pre post : list Listener) (l : Listener) (e : PyExc),
          _listeners dm = pre ++ l :: post ->
          (forall l', In l' pre -> update l' d v = None) ->
          update l d v = Some e ->
          _notify_listeners dm = (emits (notified (pre ++ [l])) dm, Raise e))
    /\ (forall l : Listener,
          isinstance_DataListener l = true ->
          listener_in l (_listeners dm) = false ->
          register_listener l dm
          = (set_listeners (_listeners dm ++ [l]) dm, Ok tt)).
Proof.
  intros dm d v notified. split; [|split].
  - intros Hnone. unfold _notify_listeners. rewrite notify_loop_spec.
    fold d v. now rewrite Hnone, called_all.
  - intros pre post l e Hls Hpre Hl. unfold _notify_listeners.
    rewrite notify_loop_spec. fold d v. rewrite Hls.
    destruct (@called_until d v pre post l e Hpre Hl) as [-> ->]. reflexivity.
  - intros l Hinst Hnew. unfold register_listener. now rewrite Hinst, Hnew.
Qed.

Lemma broadcast_in_order_witness :
  _notify_listeners (Ex.fresh 3 [Ex.quiet; Ex.failing; Ex.quiet])
  = (emits [Notified 1 None (mkView [] []); Notified 2 None (mkView [] [])]
       (Ex.fresh 3 [Ex.quiet; Ex.failing; Ex.quiet]),
     Raise (Raised "boom")).
Proof.
  destruct (broadcast_in_order (Ex.fresh 3 [Ex.quiet; Ex.failing; Ex.quiet]))
    as (_ & Hfail & _).
  apply (Hfail [Ex.quiet] [Ex.quiet] Ex.failing (Raised "boom") eq_refl).
  - intros l' [<-|[]]. reflexivity.
  - reflexivity.
Defined.

(** ** Persistence before notification *)

Lemma merge_loop_trace (now : nat -> string) (ls : list loc)
    (st : DataManager * Changes) :
  trace (fst (merge_loop now ls st)) = trace (fst st).
Proof.
  revert st. induction ls as [|x ls IH]; intros st; [reflexivity|].
  cbn [merge_loop fold_left]. unfold merge_loop in IH. rewrite IH.
  destruct st as [dm c]. unfold merge_item. cbn [fst].
  apply (uqh_frame now (question_url (heap dm x)) x dm).
Qed.

(** C6.  In a merge cycle the trace grows by either a failed write alone
    (the call raises and no observer is called), or by the write of the
    items file followed by the calls of the observers: every observer that
    is called sees the store that the write, which comes first, has put in
    the items file. *)
Theorem persist_before_notify :
  forall (now : nat -> string) (disk_ok : nat -> bool)
         (batch : list loc) (dm : DataManager),
    let r := update_questions now disk_ok batch dm in
    let dm' := fst r in
    exists delta : list Event,
      trace dm' = trace dm ++ delta
      /\ ((delta = [WriteFailed (OSError "data_file")]
           /\ snd r = Raise (OSError "data_file"))
          \/ (exists ls : list Listener,
                delta = WroteDataFile (items_content dm')
                        :: map (fun l => Notified (lid l) (_data dm') (view_of dm')) ls
                /\ data_file dm' = Holds (items_content dm')))
      /\ (forall (n : nat) (d : option PyValue) (seen : View),
            In (Notified n d seen) delta ->
            hd_error delta = Some (WroteDataFile (view_questions seen))
            /\ data_file dm' = Holds (view_questions seen)
            /\ view_questions seen = items_content dm').
Proof.
  intros now disk_ok batch dm. cbv zeta. rewrite update_questions_eq.
  pose proof (merge_loop_trace now batch (dm, empty_changes)) as Htr.
  destruct (merge_loop now batch (dm, empty_changes)) as [dm1 c].
  cbn [fst] in Htr.
  destruct (disk_ok (writes dm1)); cbn [fst snd].
  - eexists. split; [unfold emits, set_data_file, count_write; cbn [trace]; rewrite Htr; reflexivity|]. split.
    + right. eexists. split; reflexivity.
    + intros n d seen [Hin|Hin]; [discriminate|].
      apply in_map_iff in Hin. destruct Hin as (l & [= _ _ <-] & _).
      repeat split.
  - eexists. split; [unfold emits, set_data_file, count_write; cbn [trace]; rewrite Htr; reflexivity|]. split.
    + left. split; reflexivity.
    + intros n d seen [Hin|[]]. discriminate.
Qed.

Lemma persist_before_notify_witness :
  let dm := Ex.fresh 2 [Ex.quiet] in
  let r := update_questions Ex.clock Ex.disk_fine [0] dm in
  exists delta : list Event,
    trace (fst r) = trace dm ++ delta
    /\ forall n d seen,
         In (Notified n d seen) delta ->
         hd_error delta = Some (WroteDataFile (view_questions seen))
         /\ data_file (fst r) = Holds (view_questions seen).
Proof.
  destruct (persist_before_notify Ex.clock Ex.disk_fine [0] (Ex.fresh 2 [Ex.quiet]))
    as (delta & Htrace & _ & Hseen).
  exists delta. split; [exact Htrace|].
  intros n d seen Hin. destruct (Hseen n d seen Hin) as (Hhd & Hfile & _).
  split; [exact Hhd | exact Hfile].
Defined.

(** ** The watch list *)

(** C9, as stated, fails: a watched identity that has no history in the
    store (the items file was removed, the watched file kept) is not
    watched any more after [remove_from_watched] then [add_to_watched]. *)
Lemma unwatch_rewatch_loses_orphan :
  let dm := Ex.orphan_watch in
  let dm1 := fst (remove_from_watched Ex.disk_fine "a" dm) in
  let dm2 := fst (add_to_watched Ex.disk_fine "a" dm1) in
  Dict.mem (watched_questions dm) "a" = true
  /\ Dict.mem (watched_questions dm2) "a" = false.
Proof. split; reflexivity. Qed.

(** C9, amended.  [add_to_watched] changes nothing when the identity is
    already watched or is not a key of the store; when the identity is not
    watched and has a latest snapshot, it puts that snapshot in the watch
    list under the identity and writes the watched file; the store is not
    touched.  [remove_from_watched] changes nothing when the identity is
    not watched.  For a watched identity that has a latest snapshot in the
    store, [remove_from_watched] followed by [add_to_watched] leaves it
    watched, with that latest snapshot. *)
Theorem watch_list_operations :
  forall (disk_ok : nat -> bool) (url : string) (dm : DataManager),
    (Dict.mem (watched_questions dm) url = true
     \/ Dict.mem (questions dm) url = false ->
     add_to_watched disk_ok url dm = (dm, Ok tt))
    /\ (forall l : loc,
          Dict.mem (watched_questions dm) url = false ->
          latest (history_of dm url) = Some l ->
          let r := add_to_watched disk_ok url dm in
          watched_questions (fst r) = Dict.set (watched_questions dm) url l
          /\ Dict.get (watched_questions (fst r)) url = Some l
          /\ questions (fst r) = questions dm
          /\ heap (fst r) = heap dm
          /\ data_file (fst r) = data_file dm
          /\ (disk_ok (writes dm) = true ->
              snd r = Ok tt
              /\ watched_file (fst r) = Holds (watched_content (fst r))))
    /\ (Dict.mem (watched_questions dm) url = false ->
        remove_from_watched disk_ok url dm = (dm, Ok tt))
    /\ (forall l : loc,
          Dict.wf (watched_questions dm) ->
          Dict.mem (watched_questions dm) url = true ->
          latest (history_of dm url) = Some l ->
          let dm1 := fst (remove_from_watched disk_ok url dm) in
          let dm2 := fst (add_to_watched disk_ok url dm1) in
          Dict.mem (watched_questions dm1) url = false
          /\ Dict.get (watched_questions dm2) url = Some l
          /\ questions dm2 = questions dm
          /\ heap dm2 = heap dm).
Proof.
  intros disk_ok url dm.
  assert (Hadd : forall dm0 l,
            Dict.mem (watched_questions dm0) url = false ->
            latest (history_of dm0 url) = Some l ->
            add_to_watched disk_ok url dm0
            = save_watched disk_ok
                (set_watched_questions
                   (Dict.set (watched_questions dm0) url l) dm0)).
  { intros dm0 l Hw Hl. unfold add_to_watched. rewrite Hw, Hl.
    assert (Hq : Dict.mem (questions dm0) url = true).
    { unfold history_of, Dict.mem in *.
      destruct (Dict.get (questions dm0) url); [reflexivity | discriminate]. }
    now rewrite Hq. }
  split; [|split; [|split]].
  - intros [Hw | Hq]; unfold add_to_watched.
    + now rewrite Hw.
    + rewrite Hq. now rewrite andb_false_r.
  - intros l Hw Hl. cbv zeta. rewrite (Hadd dm l Hw Hl).
    unfold save_watched. cbn [writes set_watched_questions].
    destruct (disk_ok (writes dm)); cbn [fst snd];
      (split; [reflexivity|]); (split; [apply get_set_same|]);
      repeat split; discriminate.
  - intros Hw. unfold remove_from_watched. now rewrite Hw.
  - intros l Hwf Hw Hl. cbv zeta.
    assert (Hrem : let dm1 := fst (remove_from_watched disk_ok url dm) in
                   watched_questions dm1 = Dict.del (watched_questions dm) url
                   /\ questions dm1 = questions dm /\ heap dm1 = heap dm).
    { unfold remove_from_watched, save_watched. rewrite Hw.
      cbn [writes set_watched_questions].
      destruct (disk_ok (writes dm)); repeat split. }
    cbv zeta in Hrem. destruct Hrem as (Hw1 & Hq1 & Hh1).
    set (dm1 := fst (remove_from_watched disk_ok url dm)) in *.
    assert (Hmem1 : Dict.mem (watched_questions dm1) url = false).
    { unfold Dict.mem. rewrite Hw1, get_del_same by assumption. reflexivity. }
    assert (Hl1 : latest (history_of dm1 url) = Some l).
    { unfold history_of. rewrite Hq1. exact Hl. }
    split; [exact Hmem1|]. rewrite (Hadd dm1 l Hmem1 Hl1).
    unfold save_watched. cbn [writes set_watched_questions].
    destruct (disk_ok (writes dm1)); cbn [fst];
      (split; [apply get_set_same|]); split; assumption.
Qed.

Lemma watch_list_operations_witness :
  let dm := fst (update_questions Ex.clock Ex.disk_fine [0; 2] (Ex.fresh 2 [])) in
  let watched := fst (add_to_watched Ex.disk_fine "b" dm) in
  let again :=
    fst (add_to_watched Ex.disk_fine "b"
           (fst (remove_from_watched Ex.disk_fine "b" watched))) in
  Dict.get (watched_questions watched) "b" = Some 2
  /\ Dict.get (watched_questions again) "b" = Some 2.
Proof.
  cbv zeta.
  set (dm := fst (update_questions Ex.clock Ex.disk_fine [0; 2] (Ex.fresh 2 []))).
  destruct (watch_list_operations Ex.disk_fine "b" dm) as (_ & Hadd & _).
  destruct (Hadd 2 eq_refl eq_refl) as (_ & Hget & _).
  split; [exact Hget|].
  set (watched := fst (add_to_watched Ex.disk_fine "b" dm)).
  destruct (watch_list_operations Ex.disk_fine "b" watched) as (_ & _ & _ & Hround).
  assert (Hwf : Dict.wf (watched_questions watched)).
  { repeat constructor. simpl. tauto. }
  destruct (Hround 2 Hwf eq_refl eq_refl) as (_ & Hget' & _).
  exact Hget'.
Defined.

(** ** The question list *)

Lemma insert_desc_perm {A : Type} (x : Q * A) (l : list (Q * A)) :
  Permutation (insert_desc x l) (x :: l).
Proof.
  induction l as [|y l IH]; simpl; [reflexivity|].
  destruct (score_lt (fst x) (fst y)); [|reflexivity].
  rewrite IH. apply perm_swap.
Qed.

Lemma sorted_reverse_perm {A : Type} (l : list (Q * A)) :
  Permutation (sorted_reverse l) l.
Proof.
  induction l as [|x l IH]; simpl; [reflexivity|].
  rewrite insert_desc_perm. now constructor.
Qed.

Lemma decorate_items (dm : DataManager) (items : list (string * list loc))
    (ds : list (Q * (string * list loc))) :
  decorate dm items = Ok ds -> map snd ds = items.
Proof.
  revert ds. induction items as [|x items IH]; intros ds; simpl.
  - now intros [= <-].
  - destruct (sort_key dm x); [|discriminate].
    destruct (decorate dm items); [|discriminate].
    intros [= <-]. simpl. now rewrite IH.
Qed.

Lemma decorate_total (dm : DataManager) (items : list (string * list loc)) :
  (forall k h, In (k, h) items -> h <> []) ->
  exists ds, decorate dm items = Ok ds.
Proof.
  induction items as [|[k h] items IH]; intros Hne; simpl.
  - now exists [].
  - unfold sort_key. simpl. destruct h as [|l h].
    + exfalso. apply (Hne k []); [now left | reflexivity].
    + destruct IH as [ds ->]; [intros k' h' Hin; apply (Hne k'); now right|].
      eauto.
Qed.

Lemma pin_watched_fold (dm : DataManager) (ws : list string)
    (out : list loc) (ids : list string) :
  exists out',
    fold_left (pin_watched dm) ws (out, ids)
    = (out ++ out', ids ++ filter (has_history dm) ws)
    /\ map Some out'
       = map (fun k => latest (history_of dm k)) (filter (has_history dm) ws).
Proof.
  revert out ids. induction ws as [|w ws IH]; intros out ids.
  - exists []. simpl. now rewrite !app_nil_r.
  - assert (Hstep : pin_watched dm (out, ids) w
                    = match history_of dm w with
                      | [] => (out, ids)
                      | x :: h => (out ++ [last h x], ids ++ [w])
                      end)
      by (unfold pin_watched; destruct (history_of dm w); reflexivity).
    assert (Hhas : has_history dm w
                   = match history_of dm w with [] => false | _ :: _ => true end)
      by reflexivity.
    cbn [fold_left filter]. rewrite Hstep, Hhas.
    destruct (history_of dm w) as [|x h] eqn:E.
    + apply IH.
    + destruct (IH (out ++ [last h x]) (ids ++ [w])) as (out' & -> & Hmap).
      exists (last h x :: out'). rewrite <- !app_assoc. split; [reflexivity|].
      cbn [map]. rewrite E. cbn [latest]. now rewrite Hmap.
Qed.

Lemma existsb_eqb_In (k : string) (ids : list string) :
  existsb (String.eqb k) ids = true <-> In k ids.
Proof.
  rewrite existsb_exists. split.
  - intros (x & Hin & Heq). apply String.eqb_eq in Heq. now subst.
  - intros Hin. exists k. split; [assumption | apply String.eqb_refl].
Qed.

Lemma append_unseen_fold (items : list (string * list loc))
    (out : list loc) (ids : list string) :
  NoDup (map fst items) ->
  exists out',
    fold_left append_unseen items (out, ids)
    = (out ++ out', ids ++ map fst (filter (unseen ids) items))
    /\ map Some out'
       = map (fun kv => latest (snd kv)) (filter (unseen ids) items).
Proof.
  revert out ids. induction items as [|[k h] items IH]; intros out ids Hnd.
  - exists []. simpl. now rewrite !app_nil_r.
  - inversion Hnd as [|? ? Hnin Hnd']; subst.
    assert (Hstep : append_unseen (out, ids) (k, h)
                    = match latest h with
                      | None => (out, ids)
                      | Some l =>
                          if existsb (String.eqb k) ids then (out, ids)
                          else (out ++ [l], ids ++ [k])
                      end) by reflexivity.
    assert (Hsel : unseen ids (k, h)
                   = match latest h with
                     | Some _ => negb (existsb (String.eqb k) ids)
                     | None => false
                     end) by reflexivity.
    cbn [fold_left filter]. rewrite Hstep, Hsel.
    destruct (latest h) as [l|] eqn:El.
    + destruct (existsb (String.eqb k) ids) eqn:Ex; cbn [negb].
      * apply IH; assumption.
      * destruct (IH (out ++ [l]) (ids ++ [k]) Hnd') as (out' & -> & Hmap).
        assert (Hfilter : filter (unseen (ids ++ [k])) items
                          = filter (unseen ids) items).
        { apply filter_ext_in. intros [k' h'] Hin. unfold unseen.
          cbn [fst snd]. destruct (latest h'); [|reflexivity]. f_equal.
          rewrite existsb_app. cbn [existsb].
          destruct (String.eqb k' k) eqn:Ek; [|now rewrite !orb_false_r].
          apply String.eqb_eq in Ek. subst k'. exfalso. apply Hnin.
          change k with (fst (k, h')). now apply in_map. }
        rewrite Hfilter in *. exists (l :: out').
        rewrite <- !app_assoc. split; [reflexivity|].
        cbn [map fst snd]. now rewrite El, Hmap.
    + apply IH; assumption.
Qed.

Lemma mem_keys {V : Type} (d : Dict.t V) (k : string) :
  Dict.mem d k = true <-> In k (Dict.keys d).
Proof.
  unfold Dict.mem. pose proof (get_None_keys d k) as H.
  destruct (Dict.get d k); split; intros Hx; try reflexivity; try discriminate.
  - destruct (in_dec string_dec k (Dict.keys d)) as [|Hn]; [assumption|].
    apply H in Hn. discriminate.
  - exfalso. apply (proj1 H); auto.
Qed.

Lemma has_history_iff (dm : DataManager) (k : string) :
  has_history dm k = true <-> history_of dm k <> [].
Proof.
  unfold has_history. destruct (history_of dm k); split;
    congruence.
Qed.

(** The whole of [get_question_list]: the pinned identities, then the
    unseen entries of the sorted store. *)
Lemma get_question_list_ids_eq (dm : DataManager)
    (out : list loc) (ids : list string) :
  Dict.wf (questions dm) ->
  get_question_list_ids dm = Ok (out, ids) ->
  exists ds,
    decorate dm (questions dm) = Ok ds
    /\ ids = pinned dm
             ++ map fst (filter (unseen (pinned dm)) (map snd (sorted_reverse ds)))
    /\ map Some out = map (fun k => latest (history_of dm k)) ids.
Proof.
  intros Hwf. unfold get_question_list_ids.
  destruct (decorate dm (questions dm)) as [ds|] eqn:Ed; [|discriminate].
  destruct (pin_watched_fold dm (Dict.keys (watched_questions dm)) [] [])
    as (out1 & -> & Hmap1). cbn [app]. fold (pinned dm) in *.
  assert (Hperm : Permutation (map snd (sorted_reverse ds)) (questions dm)).
  { rewrite <- (@decorate_items dm _ _ Ed). apply Permutation_map, sorted_reverse_perm. }
  assert (Hnd : NoDup (map fst (map snd (sorted_reverse ds)))).
  { eapply Permutation_NoDup; [|exact Hwf].
    symmetry. apply Permutation_map, Hperm. }
  destruct (@append_unseen_fold (map snd (sorted_reverse ds)) out1 (pinned dm) Hnd)
    as (out2 & -> & Hmap2).
  intros [= <- <-]. exists ds. split; [reflexivity|]. split; [reflexivity|].
  rewrite !map_app, Hmap1, Hmap2. f_equal. rewrite map_map.
  apply map_ext_in. intros [k h] Hin. cbn [fst snd].
  apply filter_In in Hin. destruct Hin as [Hin _].
  apply (Permutation_in _ Hperm) in Hin.
  unfold history_of. now rewrite (@In_get _ _ _ _ Hwf Hin).
Qed.

(** C4.  When [get_question_list] returns (it does whenever no stored
    history is empty), its output is the latest snapshot of each identity
    of a list [pinned ++ rest] without repetition, where [pinned] are the
    watched identities that have a non-empty history, in the order of the
    watch list, and no identity of [rest] is watched: every watched
    identity with a history comes before every identity that is not
    watched, whatever the scores. *)
Theorem watched_first :
  forall dm : DataManager,
    Dict.wf (questions dm) ->
    Dict.wf (watched_questions dm) ->
    ((forall k h, In (k, h) (questions dm) -> h <> []) ->
     exists out, get_question_list dm = Ok out)
    /\ (forall out : list loc,
          get_question_list dm = Ok out ->
          exists (ids rest : list string),
            get_question_list_ids dm = Ok (out, ids)
            /\ ids = pinned dm ++ rest
            /\ pinned dm
               = filter (fun k => match history_of dm k with
                                  | [] => false
                                  | _ :: _ => true
                                  end)
                   (Dict.keys (watched_questions dm))
            /\ (forall k, In k (pinned dm) <->
                          Dict.mem (watched_questions dm) k = true
                          /\ history_of dm k <> [])
            /\ (forall k, In k rest ->
                          Dict.mem (watched_questions dm) k = false
                          /\ history_of dm k <> [])
            /\ NoDup ids
            /\ map Some out = map (fun k => latest (history_of dm k)) ids).
Proof.
  intros dm Hwf Hwfw.
  assert (Hpinned : forall k, In k (pinned dm) <->
                              Dict.mem (watched_questions dm) k = true
                              /\ history_of dm k <> []).
  { intros k. unfold pinned. rewrite filter_In, mem_keys, has_history_iff.
    tauto. }
  split.
  - intros Hne. unfold get_question_list, get_question_list_ids.
    destruct (decorate_total dm (questions dm) Hne) as [ds ->].
    destruct (fold_left append_unseen _ _). eauto.
  - intros out Hret. unfold get_question_list in Hret.
    destruct (get_question_list_ids dm) as [[out' ids]|] eqn:Eids;
      [|discriminate].
    injection Hret as ->.
    destruct (@get_question_list_ids_eq dm out ids Hwf Eids) as (ds & Ed & Hids & Hout).
    set (rest := map fst (filter (unseen (pinned dm)) (map snd (sorted_reverse ds))))
      in *.
    assert (Hperm : Permutation (map snd (sorted_reverse ds)) (questions dm)).
    { rewrite <- (@decorate_items dm _ _ Ed).
      apply Permutation_map, sorted_reverse_perm. }
    assert (Hrest : forall k, In k rest ->
                              ~ In k (pinned dm) /\ history_of dm k <> []).
    { intros k Hin. unfold rest in Hin. apply in_map_iff in Hin.
      destruct Hin as ([k' h] & Hk & Hin). cbn [fst] in Hk. subst k'.
      apply filter_In in Hin. destruct Hin as [Hin Hsel].
      apply (Permutation_in _ Hperm) in Hin.
      unfold unseen in Hsel. cbn [fst snd] in Hsel.
      destruct (latest h) eqn:El; [|discriminate].
      apply negb_true_iff in Hsel. split.
      - intros Hp. apply existsb_eqb_In in Hp. congruence.
      - unfold history_of. rewrite (@In_get _ _ _ _ Hwf Hin).
        intros ->. discriminate. }
    exists ids, rest. split; [reflexivity|]. split; [exact Hids|].
    split; [reflexivity|]. split; [exact Hpinned|]. split; [|split].
    + intros k Hin. destruct (Hrest k Hin) as [Hnp Hh]. split; [|exact Hh].
      destruct (Dict.mem (watched_questions dm) k) eqn:Em; [|reflexivity].
      exfalso. apply Hnp. apply Hpinned. now split.
    + rewrite Hids. apply NoDup_app.
      * apply NoDup_filter. exact Hwfw.
      * unfold rest. apply NoDup_map_inv with (f := fun k : string => k).
        rewrite map_id.
        assert (Hnd : NoDup (map fst (map snd (sorted_reverse ds)))).
        { eapply Permutation_NoDup; [|exact Hwf].
          symmetry. apply Permutation_map, Hperm. }
        revert Hnd. generalize (map snd (sorted_reverse ds)).
        induction l as [|[k h] l IH]; intros Hnd; simpl; [constructor|].
        inversion Hnd as [|? ? Hnin Hnd']; subst.
        destruct (unseen (pinned dm) (k, h)); simpl; auto.
        constructor; auto. intros Hin. apply Hnin.
        apply in_map_iff in Hin. destruct Hin as (x & <- & Hx).
        apply filter_In in Hx. apply in_map. tauto.
      * intros k Hp Hr. destruct (Hrest k Hr) as [Hn _]. now apply Hn.
    + exact Hout.
Qed.

Lemma watched_first_witness :
  let dm := fst (add_to_watched Ex.disk_fine "a" Ex.two_questions) in
  get_question_list dm = Ok [3; 2]
  /\ exists ids rest,
       get_question_list_ids dm = Ok ([3; 2], ids)
       /\ ids = pinned dm ++ rest
       /\ NoDup ids.
Proof.
  cbv zeta.
  set (dm := fst (add_to_watched Ex.disk_fine "a" Ex.two_questions)).
  assert (Hq : Dict.keys (questions dm) = ["a"; "b"]) by (vm_compute; reflexivity).
  assert (Hw : Dict.keys (watched_questions dm) = ["a"]) by (vm_compute; reflexivity).
  assert (Hwf : Dict.wf (questions dm)).
  { unfold Dict.wf. rewrite Hq. repeat constructor; simpl; intuition discriminate. }
  assert (Hwfw : Dict.wf (watched_questions dm)).
  { unfold Dict.wf. rewrite Hw. repeat constructor; simpl; tauto. }
  assert (Hget : get_question_list dm = Ok [3; 2]) by (vm_compute; reflexivity).
  destruct (watched_first dm Hwf Hwfw) as (_ & Hout).
  split; [exact Hget|].
  destruct (Hout [3; 2] Hget) as (ids & rest & Hids & Hsplit & _ & _ & _ & Hnd & _).
  exists ids, rest. split; [exact Hids|]. split; [exact Hsplit | exact Hnd].
Defined.

(** *** The order of the unwatched part *)

Lemma score_lt_iff (a b : Q) : score_lt a b = true <-> Qlt a b.
Proof.
  unfold score_lt. rewrite negb_true_iff. split.
  - intros H. apply Qnot_le_lt. intros Hle.
    apply Qle_bool_iff in Hle. congruence.
  - intros Hlt. destruct (Qle_bool b a) eqn:E; [|reflexivity].
    apply Qle_bool_iff in E. exfalso. now apply (Qlt_not_le a b).
Qed.

Lemma score_lt_false (a b : Q) : score_lt a b = false -> Qle b a.
Proof.
  unfold score_lt. rewrite negb_false_iff. apply Qle_bool_iff.
Qed.

Lemma insert_desc_sorted {A : Type} (x : Q * A) (l : list (Q * A)) :
  StronglySorted (score_ge fst) l ->
  StronglySorted (score_ge fst) (insert_desc x l).
Proof.
  induction l as [|y l IH]; intros Hs; simpl.
  - repeat constructor.
  - apply StronglySorted_inv in Hs. destruct Hs as [Hs Hall].
    destruct (score_lt (fst x) (fst y)) eqn:E.
    + constructor; [now apply IH|].
      rewrite (insert_desc_perm x l). constructor; [|exact Hall].
      apply score_lt_iff in E. unfold score_ge. now apply Qlt_le_weak.
    + apply score_lt_false in E. constructor.
      * now constructor.
      * constructor; [exact E|].
        eapply Forall_impl; [|exact Hall]. intros z Hz. unfold score_ge in *.
        eapply Qle_trans; eassumption.
Qed.

Lemma sorted_reverse_sorted {A : Type} (l : list (Q * A)) :
  StronglySorted (score_ge fst) (sorted_reverse l).
Proof.
  induction l as [|x l IH]; simpl; [constructor|].
  now apply insert_desc_sorted.
Qed.

Lemma insert_desc_stable {A : Type} (q : Q) (x : Q * A) (l : list (Q * A)) :
  filter (score_is fst q) (insert_desc x l) = filter (score_is fst q) (x :: l).
Proof.
  induction l as [|y l IH]; [reflexivity|]. cbn [insert_desc].
  destruct (score_lt (fst x) (fst y)) eqn:E; [|reflexivity].
  cbn [filter] in *. rewrite IH.
  destruct (score_is fst q x) eqn:Ex, (score_is fst q y) eqn:Ey; try reflexivity.
  exfalso. unfold score_is in *. apply Qeq_bool_eq in Ex, Ey.
  apply score_lt_iff in E. rewrite Ex, Ey in E. now apply (Qlt_irrefl q).
Qed.

Lemma sorted_reverse_stable {A : Type} (q : Q) (l : list (Q * A)) :
  filter (score_is fst q) (sorted_reverse l) = filter (score_is fst q) l.
Proof.
  induction l as [|x l IH]; [reflexivity|]. cbn [sorted_reverse fold_right].
  fold (sorted_reverse l). rewrite insert_desc_stable. cbn [filter].
  now rewrite IH.
Qed.

Lemma filter_comm {A : Type} (f g : A -> bool) (l : list A) :
  filter f (filter g l) = filter g (filter f l).
Proof.
  induction l as [|x l IH]; [reflexivity|]. cbn [filter].
  destruct (f x) eqn:Ef, (g x) eqn:Eg; cbn [filter];
    rewrite ?Ef, ?Eg, IH; reflexivity.
Qed.

Lemma filter_of_map {A B : Type} (f : B -> bool) (g : A -> B) (l : list A) :
  filter f (map g l) = map g (filter (fun x => f (g x)) l).
Proof.
  induction l as [|x l IH]; [reflexivity|]. cbn [map filter].
  destruct (f (g x)); cbn [map]; now rewrite IH.
Qed.

Lemma sorted_filter {A : Type} (R : A -> A -> Prop) (f : A -> bool) (l : list A) :
  StronglySorted R l -> StronglySorted R (filter f l).
Proof.
  induction 1 as [|x l Hs IH Hall]; cbn [filter]; [constructor|].
  destruct (f x); [|assumption]. constructor; [assumption|].
  apply Forall_forall. intros y Hy. apply filter_In in Hy.
  rewrite Forall_forall in Hall. now apply Hall.
Qed.

Lemma sorted_map {A B : Type} (R : B -> B -> Prop) (g : A -> B) (l : list A) :
  StronglySorted (fun x y => R (g x) (g y)) l -> StronglySorted R (map g l).
Proof.
  induction 1 as [|x l Hs IH Hall]; cbn [map]; constructor; [assumption|].
  apply Forall_forall. intros y Hy. apply in_map_iff in Hy.
  destruct Hy as (z & <- & Hz). rewrite Forall_forall in Hall. now apply Hall.
Qed.

Lemma sorted_weaken {A : Type} (R R' : A -> A -> Prop) (l : list A) :
  (forall x y, In x l -> In y l -> R x y -> R' x y) ->
  StronglySorted R l -> StronglySorted R' l.
Proof.
  intros Himp Hs. induction Hs as [|x l Hs IH Hall]; constructor.
  - apply IH. intros a b Ha Hb. apply Himp; now right.
  - rewrite Forall_forall in *. intros y Hy.
    apply Himp; [now left | now right | now apply Hall].
Qed.

(** What [decorate] attaches to an entry of the store. *)
Lemma decorate_keys (dm : DataManager) (items : list (string * list loc))
    (ds : list (Q * (string * list loc))) :
  decorate dm items = Ok ds ->
  forall d, In d ds ->
    exists first rest,
      snd (snd d) = first :: rest /\ fst d = potential_score (heap dm first).
Proof.
  revert ds. induction items as [|[k h] items IH]; intros ds; simpl.
  - intros [= <-] d [].
  - unfold sort_key. cbn [snd]. destruct h as [|first rest]; [discriminate|].
    destruct (decorate dm items) as [ds'|]; [|discriminate].
    intros [= <-] d [<- | Hin]; [cbn; eauto | now apply (IH ds')].
Qed.

(** X11.  The unwatched part of the question list is in descending order of
    the score of the {e first} entry of each history, and identities of
    equal score keep the order of the keys of the store. *)
Lemma unwatched_sorted_by_oldest (dm : DataManager)
    (out : list loc) (ids : list string) :
  Dict.wf (questions dm) ->
  get_question_list_ids dm = Ok (out, ids) ->
  exists rest,
    ids = pinned dm ++ rest
    /\ StronglySorted (score_ge (oldest_score dm)) rest
    /\ forall q : Q,
         filter (score_is (oldest_score dm) q) rest
         = filter (score_is (oldest_score dm) q)
             (filter (fun k => negb (existsb (String.eqb k) (pinned dm)))
                (Dict.keys (questions dm))).
Proof.
  intros Hwf Hret.
  destruct (@get_question_list_ids_eq dm out ids Hwf Hret) as (ds & Ed & Hids & _).
  eexists. split; [exact Hids|].
  pose proof (@decorate_items dm _ _ Ed) as Hitems.
  pose proof (decorate_keys dm _ Ed) as Hkeys.
  assert (Hperm : Permutation (sorted_reverse ds) ds) by apply sorted_reverse_perm.
  (* the score attached to an entry is the oldest score of its identity *)
  assert (Hscore : forall d, In d ds ->
            fst d = oldest_score dm (fst (snd d)) /\ latest (snd (snd d)) <> None).
  { intros d Hin. destruct (Hkeys d Hin) as (first & rest & Hh & Hq).
    assert (Hs : In (snd d) (questions dm))
      by (rewrite <- Hitems; now apply in_map).
    destruct d as [q [k h]]. cbn [fst snd] in *. subst h. split.
    - unfold oldest_score, history_of.
      now rewrite (@In_get _ _ _ _ Hwf Hs).
    - discriminate. }
  assert (Hscore' : forall d, In d (sorted_reverse ds) ->
            fst d = oldest_score dm (fst (snd d)) /\ latest (snd (snd d)) <> None).
  { intros d Hin. apply Hscore. now apply (Permutation_in _ Hperm). }
  split.
  - apply sorted_map, sorted_filter, sorted_map.
    apply sorted_weaken with (R := score_ge fst); [|apply sorted_reverse_sorted].
    intros x y Hx Hy. unfold score_ge.
    destruct (Hscore' x Hx) as [-> _]. destruct (Hscore' y Hy) as [-> _]. auto.
  - intros q.
    assert (Hpush : forall l : list (Q * (string * list loc)),
              (forall d, In d l ->
                 fst d = oldest_score dm (fst (snd d)) /\ latest (snd (snd d)) <> None) ->
              filter (score_is (oldest_score dm) q)
                (map fst (filter (unseen (pinned dm)) (map snd l)))
              = map fst (filter (unseen (pinned dm))
                           (map snd (filter (score_is fst q) l)))).
    { intros l Hl. rewrite filter_of_map, filter_comm, filter_of_map.
      do 3 f_equal. apply filter_ext_in. intros d Hd.
      unfold score_is. now destruct (Hl d Hd) as [-> _]. }
    rewrite (Hpush _ Hscore'), sorted_reverse_stable, <- (Hpush _ Hscore).
    f_equal. rewrite Hitems. unfold Dict.keys. rewrite filter_of_map. f_equal.
    apply filter_ext_in. intros [k h] Hin. unfold unseen. cbn [fst snd].
    rewrite <- Hitems in Hin. apply in_map_iff in Hin.
    destruct Hin as (d & Hd & Hin). destruct (Hscore d Hin) as [_ Hl].
    rewrite Hd in Hl. cbn [snd] in Hl. now destruct (latest h).
Qed.

(** C2.  The code at a store where it departs from the claim: the history
    of "a" holds scores 1 then 9, the history of "b" holds score 5, nothing
    is watched.  The list comes out as "b" (latest score 5) before "a"
    (latest score 9): the sort key is the score of the first entry of each
    history, [x[1][0]], while the entry listed is the last one, [[-1]]. *)
Theorem question_list_sorted_by_oldest_snapshot :
  let dm := Ex.two_questions in
  questions dm = [("a", [0; 3]); ("b", [2])]
  /\ watched_questions dm = []
  /\ get_question_list_ids dm = Ok ([2; 3], ["b"; "a"])
  /\ get_question_list dm = Ok [2; 3]
  /\ latest (history_of dm "b") = Some 2
  /\ latest (history_of dm "a") = Some 3
  /\ Qlt (potential_score (heap dm 2)) (potential_score (heap dm 3)).
Proof. repeat split. Qed.

(** ** The tracker *)

Section TrackerFacts.
Variable now : nat -> string.
Variable disk_ok : nat -> bool.
Variable fetch_data : nat -> FetchResult.

Local Abbreviation perform := (perform_update now disk_ok fetch_data).

(** [perform_update] always returns: whatever is raised inside its [try]
    is caught.  It touches neither the events nor the worker's position. *)
Lemma perform_update_frame (t : DataTracker) :
  snd (perform t) = Ok tt
  /\ pc (fst (perform t)) = pc t
  /\ stop_event (fst (perform t)) = stop_event t
  /\ refresh_event (fst (perform t)) = refresh_event t
  /\ worker_cycles (fst (perform t)) = worker_cycles t
  /\ fetches (fst (perform t)) = S (fetches t).
Proof.
  unfold perform_update, bind, try_except, strftime, print, modify,
    call_fetch, on_data_manager.
  cbn [fst snd fetches set_data_manager set_last_refresh_time count_fetch].
  destruct (fetch_data (fetches t)) as [items|e].
  - cbn [data_manager next_loc].
    destruct (allocate items _ _) as [[ls h] next].
    cbn [data_manager set_next_loc set_data_manager].
    destruct (update_questions now disk_ok ls _) as [dm' [c|e]];
      cbn; repeat split.
  - cbn. repeat split.
Qed.

Lemma worker_step_total (t : DataTracker) :
  exists t', worker_step now disk_ok fetch_data t = Some t'.
Proof.
  unfold worker_step. destruct (pc t); eauto.
  destruct (perform_update_frame (count_cycle t)) as (Hok & _).
  destruct (perform (count_cycle t)) as [t' r]. cbn [snd] in Hok.
  rewrite Hok. eauto.
Qed.

Lemma worker_step_cycle (t : DataTracker) :
  pc t = Cycle ->
  worker_step now disk_ok fetch_data t
  = Some (set_pc Waiting (fst (perform (count_cycle t)))).
Proof.
  intros Hpc. unfold worker_step. rewrite Hpc.
  destruct (perform_update_frame (count_cycle t)) as (Hok & _).
  destruct (perform (count_cycle t)) as [t' r]. cbn [snd] in Hok.
  now rewrite Hok.
Qed.

(** One action while the stop event is set. *)
Lemma act_after_stop (a : Action) (t t' : DataTracker) :
  stop_event t = true ->
  act now disk_ok fetch_data a t = Some t' ->
  stop_event t' = true
  /\ worker_cycles t' + pending (pc t') = worker_cycles t + pending (pc t)
  /\ (pc t <> NotStarted ->
      pc t' <> NotStarted
      /\ match a with
         | WorkerStep => steps_to_exit (pc t') = steps_to_exit (pc t) - 1
         | _ => steps_to_exit (pc t') <= steps_to_exit (pc t)
         end)
  /\ (a <> CallRefresh -> pc t <> Cycle ->
      data_manager t' = data_manager t /\ pc t' <> Cycle).
Proof.
  intros Hstop. destruct a; cbn [act].
  - intros [= <-]. destruct (pc t) eqn:E; cbn; rewrite ?E; cbn;
      repeat split; auto; try congruence; try lia.
  - unfold stop, modify. intros [= <-]. cbn. repeat split; auto; lia.
  - unfold refresh, bind, modify.
    destruct (perform_update_frame t) as (Hok & Hpc & Hs & _ & Hc & _).
    destruct (perform t) as [t1 r]. cbn [fst snd] in *. rewrite Hok.
    intros [= <-]. cbn. rewrite Hpc, Hs, Hc.
    repeat split; auto; try lia. congruence.
  - unfold worker_step. destruct (pc t) eqn:E.
    + intros [= <-]. rewrite E. cbn. repeat split; auto; congruence.
    + rewrite Hstop. intros [= <-]. cbn. repeat split; auto; congruence.
    + destruct (perform_update_frame (count_cycle t))
        as (Hok & Hpc & Hs & _ & Hc & _).
      destruct (perform (count_cycle t)) as [t1 r]. cbn [fst snd] in *.
      rewrite Hok. intros [= <-]. cbn. rewrite Hs, Hc. cbn.
      repeat split; auto; try lia; try congruence.
    + intros [= <-]. cbn. repeat split; auto; congruence.
    + intros [= <-]. destruct (refresh_event t); cbn;
        repeat split; auto; congruence.
    + intros [= <-]. rewrite E. cbn. repeat split; auto; congruence.
Qed.

Lemma run_after_stop (sched : list Action) (t t' : DataTracker) :
  stop_event t = true ->
  run_schedule now disk_ok fetch_data sched t = Some t' ->
  stop_event t' = true
  /\ worker_cycles t' + pending (pc t') = worker_cycles t + pending (pc t)
  /\ (pc t <> NotStarted ->
      pc t' <> NotStarted
      /\ steps_to_exit (pc t') <= steps_to_exit (pc t) - worker_steps sched)
  /\ (~ In CallRefresh sched -> pc t <> Cycle ->
      data_manager t' = data_manager t).
Proof.
  revert t. induction sched as [|a sched IH]; intros t Hstop; cbn [run_schedule].
  - intros [= <-]. unfold worker_steps. cbn. repeat split; auto; lia.
  - destruct (act now disk_ok fetch_data a t) as [t1|] eqn:Ea; [|discriminate].
    intros Hrun.
    destruct (@act_after_stop a t t1 Hstop Ea) as (Hs1 & Hc1 & Hd1 & Hdm1).
    destruct (IH t1 Hs1 Hrun) as (Hs & Hc & Hd & Hdm).
    split; [exact Hs|]. split; [lia|]. split.
    + intros Hstarted. destruct (Hd1 Hstarted) as [Hn1 Hm1].
      destruct (Hd Hn1) as [Hn Hm]. split; [exact Hn|].
      unfold worker_steps in *. cbn [filter].
      destruct a; cbn [List.length]; lia.
    + intros Hnr Hpc.
      destruct Hdm1 as [Hdm1 Hpc1];
        [intros ->; apply Hnr; now left | assumption |].
      rewrite <- Hdm1. apply Hdm; [|assumption].
      intros Hin. apply Hnr. now right.
Qed.

Lemma run_schedule_total (sched : list Action) (t : DataTracker) :
  exists t', run_schedule now disk_ok fetch_data sched t = Some t'.
Proof.
  revert t. induction sched as [|a sched IH]; intros t; cbn [run_schedule].
  - eauto.
  - assert (Hact : exists t1, act now disk_ok fetch_data a t = Some t1).
    { destruct a; cbn [act]; eauto.
      - unfold stop, modify. eauto.
      - unfold refresh, bind, modify.
        destruct (perform_update_frame t) as (Hok & _).
        destruct (perform t) as [t1 r]. cbn [snd] in Hok. rewrite Hok. eauto.
      - apply worker_step_total. }
    destruct Hact as [t1 ->]. apply IH.
Qed.

(** From its wait a worker that is not stopped comes back to the start
    of a cycle in three steps. *)
Lemma worker_resumes (t1 : DataTracker) :
  pc t1 = Waiting ->
  stop_event t1 = false ->
  exists t4,
    run_schedule now disk_ok fetch_data [WorkerStep; WorkerStep; WorkerStep] t1
    = Some t4
    /\ pc t4 = Cycle
    /\ fetches t4 = fetches t1
    /\ data_manager t4 = data_manager t1.
Proof.
  destruct t1 as [dm s r lt f nl p wc]. cbn. intros -> ->.
  destruct r; cbn; eexists; repeat split.
Qed.
End TrackerFacts.

(** C7, as stated, fails: [stop()] returns while the worker is between its
    loop test and its cycle; the worker has not left its loop, and its next
    step merges a fetched item into the store. *)
Lemma stop_returns_while_worker_runs :
  let run := run_schedule Ex.clock Ex.disk_fine Ex.fetch_c in
  match run [CallStart; WorkerStep; CallStop] Ex.tracker0 with
  | None => False
  | Some t1 =>
      stop_event t1 = true
      /\ pc t1 = Cycle
      /\ questions (data_manager t1) = []
      /\ match run [WorkerStep] t1 with
         | None => False
         | Some t2 => questions (data_manager t2) = [("c", [10])]
         end
  end.
Proof. vm_compute. repeat split. Qed.

(** C7, amended.  [stop()] only sets the stop event and returns at once,
    without waiting for the worker.  From then on, whatever the foreground
    thread and the worker do, the event stays set and the worker begins no
    new cycle: it runs at most the one cycle it had already begun; a
    started worker has left its loop after at most four more of its steps;
    and when no cycle was begun (and nobody calls [refresh()]), the store
    is never changed again. *)
Theorem stop_only_signals :
  forall (now : nat -> string) (disk_ok : nat -> bool)
         (fetch_data : nat -> FetchResult) (t : DataTracker),
    stop t = (set_stop_event true t, Ok tt)
    /\ forall (sched : list Action),
         stop_event t = true ->
         exists t',
           run_schedule now disk_ok fetch_data sched t = Some t'
           /\ stop_event t' = true
           /\ worker_cycles t' <= worker_cycles t + pending (pc t)
           /\ (pc t <> NotStarted -> 4 <= worker_steps sched -> pc t' = Exited)
           /\ (pc t <> Cycle -> ~ In CallRefresh sched ->
               data_manager t' = data_manager t).
Proof.
  intros now disk_ok fetch_data t. split; [reflexivity|].
  intros sched Hstop.
  destruct (run_schedule_total now disk_ok fetch_data sched t) as [t' Hrun].
  destruct (@run_after_stop now disk_ok fetch_data sched t t' Hstop Hrun)
    as (Hs & Hc & Hd & Hdm).
  exists t'. split; [exact Hrun|]. split; [exact Hs|]. split; [lia|]. split.
  - intros Hstarted Hsteps. destruct (Hd Hstarted) as [Hn Hm].
    assert (Hbound : steps_to_exit (pc t) <= 4) by (destruct (pc t); simpl; lia).
    destruct (pc t'); simpl in Hm; try lia; congruence.
  - intros Hpc Hnr. now apply Hdm.
Qed.

Lemma stop_only_signals_witness :
  exists t',
    run_schedule Ex.clock Ex.disk_fine Ex.fetch_c
      [WorkerStep; WorkerStep; WorkerStep; WorkerStep] Ex.stopped_in_flight
    = Some t'
    /\ pc t' = Exited
    /\ worker_cycles t' <= 1.
Proof.
  destruct (stop_only_signals Ex.clock Ex.disk_fine Ex.fetch_c
              Ex.stopped_in_flight) as (_ & Hafter).
  destruct (Hafter [WorkerStep; WorkerStep; WorkerStep; WorkerStep] eq_refl)
    as (t' & Hrun & _ & Hc & Hexit & _).
  exists t'. split; [exact Hrun|]. split; [|exact Hc].
  apply Hexit; [discriminate | unfold worker_steps; simpl; lia].
Defined.

(** C8.  When the fetch function raises during a cycle, [perform_update]
    returns normally: the store (objects, histories, watch list, files,
    observers) is as before, nothing has been written and no observer
    called, and the console shows the start of the cycle and the error.
    The worker goes on to its wait; unless it is stopped it comes back to
    the start of a cycle three steps later and runs [perform_update]
    again, with the next call of the fetch function. *)
Theorem fetch_failure_is_contained :
  forall (now : nat -> string) (disk_ok : nat -> bool)
         (fetch_data : nat -> FetchResult) (t : DataTracker) (e : PyExc),
    fetch_data (fetches t) = FetchRaised e ->
    let r := perform_update now disk_ok fetch_data t in
    let dm := data_manager t in
    snd r = Ok tt
    /\ same_store dm (data_manager (fst r))
    /\ writes (data_manager (fst r)) = writes dm
    /\ trace (data_manager (fst r))
       = trace dm ++ [Printed (FetchingNewData (now (ticks dm)));
                      Printed (ErrorOccurred e)]
    /\ last_refresh_time (fst r) = now (S (ticks dm))
    /\ (pc t = Cycle ->
        stop_event t = false ->
        exists t1 t4,
          worker_step now disk_ok fetch_data t = Some t1
          /\ pc t1 = Waiting
          /\ same_store dm (data_manager t1)
          /\ run_schedule now disk_ok fetch_data
               [WorkerStep; WorkerStep; WorkerStep] t1 = Some t4
          /\ pc t4 = Cycle
          /\ fetches t4 = S (fetches t)
          /\ worker_step now disk_ok fetch_data t4
             = Some (set_pc Waiting
                       (fst (perform_update now disk_ok fetch_data
                               (count_cycle t4))))).
Proof.
  intros now disk_ok fetch_data t e Hfetch. cbv zeta.
  assert (Hperform : forall t0,
            fetch_data (fetches t0) = FetchRaised e ->
            perform_update now disk_ok fetch_data t0
            = (count_fetch
                 (set_data_manager
                    (emits [Printed (FetchingNewData (now (ticks (data_manager t0))));
                            Printed (ErrorOccurred e)]
                       (tick (tick (data_manager t0))))
                    (set_last_refresh_time
                       (now (S (ticks (data_manager t0)))) t0)),
               Ok tt)).
  { intros t0 H0.
    unfold perform_update, bind, try_except, strftime, print, modify, call_fetch.
    cbn [fst snd fetches set_data_manager set_last_refresh_time data_manager
         ticks tick emit].
    rewrite H0. unfold count_fetch, set_data_manager, emits, emit. cbn.
    rewrite <- app_assoc. reflexivity. }
  rewrite (Hperform t Hfetch). cbn [fst snd].
  split; [reflexivity|]. split; [repeat split|]. split; [reflexivity|].
  split; [reflexivity|]. split; [reflexivity|].
  intros Hpc Hstop.
  rewrite (worker_step_cycle now disk_ok fetch_data t Hpc).
  rewrite (Hperform (count_cycle t) Hfetch). cbn [fst].
  eexists.
  match goal with |- exists t4, Some ?t1 = _ /\ _ =>
    destruct (@worker_resumes now disk_ok fetch_data t1 eq_refl Hstop)
      as (t4 & Hrun & Hpc4 & Hf4 & Hdm4)
  end.
  exists t4. split; [reflexivity|]. split; [reflexivity|].
  split; [repeat split|]. split; [exact Hrun|]. split; [exact Hpc4|].
  split; [exact Hf4|]. now apply worker_step_cycle.
Qed.

Lemma fetch_failure_is_contained_witness :
  let t := set_pc Cycle Ex.tracker0 in
  snd (perform_update Ex.clock Ex.disk_fine Ex.fetch_flaky t) = Ok tt
  /\ same_store (data_manager t)
       (data_manager (fst (perform_update Ex.clock Ex.disk_fine Ex.fetch_flaky t)))
  /\ match run_schedule Ex.clock Ex.disk_fine Ex.fetch_flaky
             [WorkerStep; WorkerStep; WorkerStep; WorkerStep; WorkerStep] t with
     | None => False
     | Some t5 => questions (data_manager t5) = [("c", [10])]
     end.
Proof.
  cbv zeta.
  destruct (@fetch_failure_is_contained Ex.clock Ex.disk_fine Ex.fetch_flaky
              (set_pc Cycle Ex.tracker0) (Raised "timeout") eq_refl)
    as (Hok & Hsame & _).
  split; [exact Hok|]. split; [exact Hsame|].
  vm_compute. reflexivity.
Defined.

(** * Further properties *)

(** ** The registry of observers *)

Lemma listener_in_iff (l : Listener) (ls : list Listener) :
  listener_in l ls = true <-> In (lid l) (map lid ls).
Proof.
  unfold listener_in. rewrite existsb_exists, in_map_iff. split.
  - intros (x & Hin & Heq). apply Nat.eqb_eq in Heq. eauto.
  - intros (x & Heq & Hin). exists x. split; [assumption|].
    now apply Nat.eqb_eq.
Qed.

Lemma listener_in_false (l : Listener) (ls : list Listener) :
  listener_in l ls = false <-> ~ In (lid l) (map lid ls).
Proof.
  rewrite <- listener_in_iff. destruct (listener_in l ls); split; congruence.
Qed.

Lemma remove_first_ids (l : Listener) (ls : list Listener) (n : nat) :
  In n (map lid (remove_first l ls)) -> In n (map lid ls).
Proof.
  induction ls as [|x ls IH]; simpl; [tauto|].
  destruct (Nat.eqb (lid x) (lid l)); simpl; tauto.
Qed.

Lemma remove_first_distinct (l : Listener) (ls : list Listener) :
  NoDup (map lid ls) -> NoDup (map lid (remove_first l ls)).
Proof.
  induction ls as [|x ls IH]; simpl; [auto|].
  intros Hnd. inversion Hnd as [|? ? Hnin Hnd']; subst.
  destruct (Nat.eqb (lid x) (lid l)); simpl; [assumption|].
  constructor; [|auto]. intros Hin. apply Hnin. eapply remove_first_ids; eauto.
Qed.

Lemma remove_first_gone (l : Listener) (ls : list Listener) :
  NoDup (map lid ls) -> ~ In (lid l) (map lid (remove_first l ls)).
Proof.
  induction ls as [|x ls IH]; simpl; [tauto|].
  intros Hnd. inversion Hnd as [|? ? Hnin Hnd']; subst.
  destruct (Nat.eqb (lid x) (lid l)) eqn:E; simpl.
  - apply Nat.eqb_eq in E. now rewrite <- E.
  - apply Nat.eqb_neq in E. intros [H|H]; [contradiction | now apply IH].
Qed.

Lemma remove_first_other (l l' : Listener) (ls : list Listener) :
  lid l' <> lid l ->
  (In (lid l') (map lid (remove_first l ls)) <-> In (lid l') (map lid ls)).
Proof.
  intros Hne. induction ls as [|x ls IH]; simpl; [tauto|].
  destruct (Nat.eqb (lid x) (lid l)) eqn:E; simpl.
  - apply Nat.eqb_eq in E. split; [tauto|]. intros [H|H]; [congruence | assumption].
  - rewrite IH. tauto.
Qed.

Lemma remove_first_absent (l : Listener) (ls : list Listener) :
  ~ In (lid l) (map lid ls) -> remove_first l ls = ls.
Proof.
  induction ls as [|x ls IH]; simpl; [reflexivity|]. intros Hnin.
  destruct (Nat.eqb (lid x) (lid l)) eqn:E.
  - apply Nat.eqb_eq in E. tauto.
  - f_equal. apply IH. tauto.
Qed.

Lemma remove_first_last (l : Listener) (ls : list Listener) :
  ~ In (lid l) (map lid ls) -> remove_first l (ls ++ [l]) = ls.
Proof.
  induction ls as [|x ls IH]; simpl; intros Hnin.
  - now rewrite Nat.eqb_refl.
  - destruct (Nat.eqb (lid x) (lid l)) eqn:E.
    + apply Nat.eqb_eq in E. tauto.
    + f_equal. apply IH. tauto.
Qed.

Lemma called_ids (d : option PyValue) (v : View) (ls : list Listener) (n : nat) :
  In n (map lid (called d v ls)) -> In n (map lid ls).
Proof.
  induction ls as [|x ls IH]; simpl; [tauto|].
  destruct (update x d v); simpl; tauto.
Qed.

Lemma called_distinct (d : option PyValue) (v : View) (ls : list Listener) :
  NoDup (map lid ls) -> NoDup (map lid (called d v ls)).
Proof.
  induction ls as [|x ls IH]; simpl; [auto|].
  intros Hnd. inversion Hnd as [|? ? Hnin Hnd']; subst.
  constructor.
  - destruct (update x d v); simpl; [tauto|].
    intros Hin. apply Hnin. eapply called_ids; eauto.
  - destruct (update x d v); [constructor | auto].
Qed.

Lemma notified_ids_app (tr1 tr2 : list Event) :
  notified_ids (tr1 ++ tr2) = notified_ids tr1 ++ notified_ids tr2.
Proof.
  induction tr1 as [|e tr1 IH]; [reflexivity|].
  destruct e; simpl; now rewrite IH.
Qed.

Lemma notified_ids_map (d : option PyValue) (v : View) (ls : list Listener) :
  notified_ids (map (fun l => Notified (lid l) d v) ls) = map lid ls.
Proof. induction ls as [|x ls IH]; simpl; [reflexivity | now rewrite IH]. Qed.

Lemma registry_call_distinct (c : RegistryCall) (dm : DataManager) :
  NoDup (map lid (_listeners dm))
  /\ Forall (fun l => isinstance_DataListener l = true) (_listeners dm) ->
  NoDup (map lid (_listeners (registry_call c dm)))
  /\ Forall (fun l => isinstance_DataListener l = true)
       (_listeners (registry_call c dm)).
Proof.
  intros [Hnd Hall]. destruct c as [l|l]; unfold registry_call.
  - unfold register_listener.
    destruct (isinstance_DataListener l) eqn:Ei; cbn [andb]; [|now split].
    destruct (listener_in l (_listeners dm)) eqn:E; cbn [negb fst]; [now split|].
    cbn [_listeners set_listeners]. split.
    + rewrite map_app. apply NoDup_app; [assumption | repeat constructor; simpl; tauto |].
      intros n Hn [<-|[]]. now apply listener_in_false in E.
    + apply Forall_app. split; [assumption | now repeat constructor].
  - unfold unregister_listener.
    destruct (listener_in l (_listeners dm)); cbn [fst]; [|now split].
    cbn [_listeners set_listeners]. split; [now apply remove_first_distinct|].
    clear Hnd. induction Hall as [|x ls Hx Hall IH]; simpl; [constructor|].
    destruct (Nat.eqb (lid x) (lid l)); [assumption | now constructor].
Qed.

(** X1.  Starting from the empty registry of [EventSource.__init__], after
    any sequence of [register_listener] and [unregister_listener] calls
    (those that raise included) the registry holds instances of
    [DataListener] only and no observer twice; so a broadcast calls every
    observer at most once. *)
Theorem observers_registered_once :
  forall (cs : list RegistryCall) (dm : DataManager),
    _listeners dm = [] ->
    let dm' := registry_calls cs dm in
    NoDup (map lid (_listeners dm'))
    /\ Forall (fun l => isinstance_DataListener l = true) (_listeners dm')
    /\ exists delta,
         trace (fst (_notify_listeners dm')) = trace dm' ++ delta
         /\ NoDup (notified_ids delta).
Proof.
  intros cs dm Hempty dm'.
  assert (Hinv : NoDup (map lid (_listeners dm'))
                 /\ Forall (fun l => isinstance_DataListener l = true)
                      (_listeners dm')).
  { subst dm'. unfold registry_calls.
    assert (H0 : NoDup (map lid (_listeners dm))
                 /\ Forall (fun l => isinstance_DataListener l = true)
                      (_listeners dm))
      by (rewrite Hempty; split; constructor).
    clear Hempty. revert dm H0. induction cs as [|c cs IH]; intros dm H0.
    - exact H0.
    - cbn [fold_left]. apply IH. now apply registry_call_distinct. }
  destruct Hinv as [Hnd Hall]. split; [exact Hnd|]. split; [exact Hall|].
  unfold _notify_listeners. rewrite notify_loop_spec. cbn [fst].
  eexists. split; [reflexivity|].
  rewrite notified_ids_map. now apply called_distinct.
Qed.

Lemma observers_registered_once_witness :
  let dm := registry_calls
              [CallRegister Ex.quiet; CallRegister Ex.failing;
               CallRegister Ex.quiet; CallUnregister Ex.failing]
              (Ex.fresh 3 []) in
  map lid (_listeners dm) = [1] /\ NoDup (map lid (_listeners dm)).
Proof.
  destruct (observers_registered_once
              [CallRegister Ex.quiet; CallRegister Ex.failing;
               CallRegister Ex.quiet; CallUnregister Ex.failing]
              (Ex.fresh 3 []) eq_refl) as (Hnd & _).
  split; [reflexivity | exact Hnd].
Defined.

(** X2.  [unregister_listener] never raises; in a registry without
    repetition it leaves the observer unregistered and the others
    registered as they were; when the observer is not registered nothing
    changes; and it undoes a [register_listener] that was accepted. *)
Theorem unregister_listener_removes :
  forall (l : Listener) (dm : DataManager),
    NoDup (map lid (_listeners dm)) ->
    let r := unregister_listener l dm in
    snd r = Ok tt
    /\ listener_in l (_listeners (fst r)) = false
    /\ (forall l', lid l' <> lid l ->
                   listener_in l' (_listeners (fst r))
                   = listener_in l' (_listeners dm))
    /\ (listener_in l (_listeners dm) = false -> fst r = dm)
    /\ (isinstance_DataListener l = true ->
        listener_in l (_listeners dm) = false ->
        snd (register_listener l dm) = Ok tt
        /\ _listeners (fst (unregister_listener l (fst (register_listener l dm))))
           = _listeners dm).
Proof.
  intros l dm Hnd. cbv zeta. unfold unregister_listener at 1 2 3 4.
  destruct (listener_in l (_listeners dm)) eqn:E; cbn [fst snd].
  - split; [reflexivity|]. cbn [_listeners set_listeners]. split; [|split; [|split]].
    + apply listener_in_false. now apply remove_first_gone.
    + intros l' Hne. apply eq_true_iff_eq.
      rewrite !listener_in_iff. now apply remove_first_other.
    + discriminate.
    + discriminate.
  - split; [reflexivity|]. split; [exact E|]. split; [reflexivity|].
    split; [reflexivity|]. intros Hi _.
    unfold register_listener. rewrite Hi, E. cbn [andb negb fst snd].
    split; [reflexivity|]. unfold unregister_listener.
    cbn [_listeners set_listeners].
    assert (Hin : listener_in l (_listeners dm ++ [l]) = true).
    { apply listener_in_iff. rewrite map_app. apply in_or_app. right. now left. }
    rewrite Hin. cbn [fst _listeners set_listeners].
    apply remove_first_last. now apply listener_in_false.
Qed.

Lemma unregister_listener_removes_witness :
  let dm := Ex.fresh 3 [Ex.quiet; Ex.failing] in
  map lid (_listeners (fst (unregister_listener Ex.quiet dm))) = [2]
  /\ listener_in Ex.quiet (_listeners (fst (unregister_listener Ex.quiet dm)))
     = false.
Proof.
  assert (Hnd : NoDup (map lid (_listeners (Ex.fresh 3 [Ex.quiet; Ex.failing])))).
  { repeat constructor; simpl; intuition discriminate. }
  destruct (unregister_listener_removes Ex.quiet
              (Ex.fresh 3 [Ex.quiet; Ex.failing]) Hnd) as (_ & Hgone & _).
  split; [reflexivity | exact Hgone].
Defined.

(** ** What the observers are told *)

(** X3.  Assigning the [data] property stores the value first and then
    broadcasts: the observers are called in registration order with the new
    value, up to the first that raises, and the value stays stored when one
    raises. *)
Theorem data_setter_broadcasts_value :
  forall (value : PyValue) (dm : DataManager),
    let r := data_setter value dm in
    let reached := called (Some value) (view_of dm) (_listeners dm) in
    fst r = emits (map (fun l => Notified (lid l) (Some value) (view_of dm)) reached)
              (set_data (Some value) dm)
    /\ _data (fst r) = Some value
    /\ (snd r = Ok tt <-> first_failure (Some value) (view_of dm) (_listeners dm) = None)
    /\ (snd r = Ok tt -> reached = _listeners dm).
Proof.
  intros value dm. cbv zeta. unfold data_setter, bind, modify, _notify_listeners.
  rewrite notify_loop_spec.
  change (_data (set_data (Some value) dm)) with (Some value).
  change (view_of (set_data (Some value) dm)) with (view_of dm).
  change (_listeners (set_data (Some value) dm)) with (_listeners dm).
  cbn [fst snd]. split; [reflexivity|]. split; [reflexivity|].
  destruct (first_failure (Some value) (view_of dm) (_listeners dm)) eqn:E.
  - split; [split; discriminate | discriminate].
  - split; [tauto|]. intros _. now apply called_all.
Qed.

Lemma merge_loop_data (now : nat -> string) (ls : list loc)
    (st : DataManager * Changes) :
  _data (fst (merge_loop now ls st)) = _data (fst st).
Proof.
  revert st. induction ls as [|x ls IH]; intros st; [reflexivity|].
  cbn [merge_loop fold_left]. unfold merge_loop in IH. rewrite IH.
  destruct st as [dm c]. unfold merge_item. cbn [fst].
  apply (uqh_frame now (question_url (heap dm x)) x dm).
Qed.

(** X4.  A merge cycle never assigns [_data]: every observer it calls is
    passed the value [_data] had before the call, which is [None] for a
    data manager whose [data] property was never assigned. *)
Theorem merge_notifies_with_stale_data :
  forall (now : nat -> string) (disk_ok : nat -> bool)
         (batch : list loc) (dm : DataManager),
    let r := update_questions now disk_ok batch dm in
    _data (fst r) = _data dm
    /\ exists delta,
         trace (fst r) = trace dm ++ delta
         /\ forall n d seen, In (Notified n d seen) delta -> d = _data dm.
Proof.
  intros now disk_ok batch dm. cbv zeta. rewrite update_questions_eq.
  pose proof (merge_loop_trace now batch (dm, empty_changes)) as Htr.
  pose proof (merge_loop_data now batch (dm, empty_changes)) as Hdata.
  destruct (merge_loop now batch (dm, empty_changes)) as [dm1 c].
  cbn [fst] in Htr, Hdata.
  destruct (disk_ok (writes dm1)); cbn [fst].
  - split; [exact Hdata|]. eexists.
    split; [unfold emits, set_data_file, count_write; cbn [trace];
            rewrite Htr; reflexivity|].
    intros n d seen [Hin|Hin]; [discriminate|].
    apply in_map_iff in Hin. destruct Hin as (l & [= _ <- _] & _). exact Hdata.
  - split; [exact Hdata|]. eexists.
    split; [unfold emits, set_data_file, count_write; cbn [trace];
            rewrite Htr; reflexivity|].
    intros n d seen [Hin|[]]. discriminate.
Qed.

(** ** A merge into any store *)

Section MergeAnyStore.
Variable now : nat -> string.

Lemma first_seen_ext (s1 s2 urls : list string) :
  (forall x, In x s1 <-> In x s2) -> first_seen s1 urls = first_seen s2 urls.
Proof.
  revert s1 s2. induction urls as [|u urls IH]; intros s1 s2 Heq; [reflexivity|].
  cbn [first_seen].
  assert (Hb : existsb (String.eqb u) s1 = existsb (String.eqb u) s2).
  { apply eq_true_iff_eq. rewrite !existsb_eqb_In. apply Heq. }
  rewrite Hb. destruct (existsb (String.eqb u) s2).
  - now apply IH.
  - f_equal. apply IH. intros x. simpl. rewrite Heq. tauto.
Qed.

Lemma uqh_keys (url : string) (l : loc) (dm : DataManager) :
  Dict.keys (questions (update_question_history now url l dm))
  = if Dict.mem (questions dm) url then Dict.keys (questions dm)
    else Dict.keys (questions dm) ++ [url].
Proof.
  unfold update_question_history.
  destruct (Dict.mem (questions dm) url) eqn:E; cbn [questions set_questions tick set_heap].
  - now apply keys_set_mem.
  - rewrite keys_set_mem.
    + now apply keys_set_new.
    + unfold Dict.mem. now rewrite get_set_same.
Qed.

Lemma merge_loop_keys (ls : list loc) (dm : DataManager) (c : Changes) :
  Dict.keys (questions (fst (merge_loop now ls (dm, c))))
  = Dict.keys (questions dm)
    ++ first_seen (Dict.keys (questions dm))
         (map (fun l => question_url (heap dm l)) ls).
Proof.
  revert dm c. induction ls as [|x ls IH]; intros dm c.
  - simpl. now rewrite app_nil_r.
  - rewrite merge_loop_cons.
    pose proof (merge_item_url now (dm, c) x) as Hurl.
    assert (Hkeys : Dict.keys (questions (fst (merge_item now (dm, c) x)))
                    = if Dict.mem (questions dm) (question_url (heap dm x))
                      then Dict.keys (questions dm)
                      else Dict.keys (questions dm) ++ [question_url (heap dm x)]).
    { unfold merge_item. cbn [fst]. apply uqh_keys. }
    destruct (merge_item now (dm, c) x) as [dm1 c1]. cbn [fst] in *.
    rewrite IH, Hkeys. cbn [map first_seen].
    rewrite (map_ext _ _ Hurl).
    assert (Hmem : existsb (String.eqb (question_url (heap dm x)))
                     (Dict.keys (questions dm))
                   = Dict.mem (questions dm) (question_url (heap dm x))).
    { apply eq_true_iff_eq. rewrite existsb_eqb_In. symmetry. apply mem_keys. }
    rewrite Hmem. destruct (Dict.mem (questions dm) (question_url (heap dm x))).
    + reflexivity.
    + rewrite <- app_assoc. cbn [app]. do 2 f_equal.
      apply first_seen_ext. intros k. rewrite in_app_iff. simpl. tauto.
Qed.
End MergeAnyStore.

(** X5.  A merge into any store: the history of an identity that has items
    in the batch becomes the old history followed by those items, in the
    order of the batch, cut to its last [max_history] entries; the history
    of any other identity is untouched.  The objects of the batch are
    stamped with a time read during the call and nothing else in them
    changes; no other object changes. *)
Theorem merge_extends_histories :
  forall (now : nat -> string) (disk_ok : nat -> bool)
         (batch : list loc) (dm : DataManager),
    let dm' := fst (update_questions now disk_ok batch dm) in
    (forall url : string,
       history_of dm' url
       = match merged_for dm url batch with
         | [] => history_of dm url
         | _ :: _ =>
             evict (max_history dm) (history_of dm url ++ merged_for dm url batch)
         end)
    /\ (forall l, ~ In l batch -> heap dm' l = heap dm l)
    /\ (forall l, In l batch ->
          exists n, ticks dm <= n < ticks dm + List.length batch
                    /\ heap dm' l = set_saved_at (heap dm l) (now n)).
Proof.
  intros now disk_ok batch dm dm'.
  destruct (update_questions_loop now disk_ok batch dm) as (Hh & Hq & _).
  fold dm' in Hh, Hq. split; [|split].
  - intros url. unfold history_of at 1. rewrite Hq.
    apply (merge_loop_history now batch dm empty_changes url).
  - intros l Hl. rewrite Hh.
    now apply (merge_loop_heap_other now batch (dm, empty_changes)).
  - intros l Hl. rewrite Hh.
    now apply (merge_loop_heap_stamped now batch (dm, empty_changes)).
Qed.

Lemma merge_extends_histories_witness :
  let dm' := fst (update_questions Ex.clock Ex.disk_fine [1; 2; 3] Ex.two_questions) in
  history_of dm' "a" = [1; 3]
  /\ exists n, 3 <= n < 6
               /\ heap dm' 3 = set_saved_at (heap Ex.two_questions 3) (Ex.clock n).
Proof.
  destruct (merge_extends_histories Ex.clock Ex.disk_fine [1; 2; 3]
              Ex.two_questions) as (Hhist & _ & Hstamp).
  split.
  - rewrite (Hhist "a"). vm_compute. reflexivity.
  - apply (Hstamp 3). simpl. tauto.
Defined.

(** X6.  A merge never removes or moves a key of the store: the keys after
    the call are the keys before it followed by the identities of the
    batch that were not keys, each once, in the order of their first
    appearance in the batch. *)
Theorem merge_keeps_key_order :
  forall (now : nat -> string) (disk_ok : nat -> bool)
         (batch : list loc) (dm : DataManager),
    let dm' := fst (update_questions now disk_ok batch dm) in
    Dict.keys (questions dm')
    = Dict.keys (questions dm)
      ++ first_seen (Dict.keys (questions dm))
           (map (fun l => question_url (heap dm l)) batch).
Proof.
  intros now disk_ok batch dm dm'.
  destruct (update_questions_loop now disk_ok batch dm) as (_ & Hq & _).
  fold dm' in Hq. rewrite Hq. apply merge_loop_keys.
Qed.

(** ** Merging in one call or in two *)

Section MergeCore.
Variable now : nat -> string.

Lemma uqh_questions (url : string) (l : loc) (dm : DataManager) :
  questions (update_question_history now url l dm)
  = Dict.set (if Dict.mem (questions dm) url then questions dm
              else Dict.set (questions dm) url [])
      url (evict (max_history dm) (history_of dm url ++ [l])).
Proof.
  unfold update_question_history, history_of.
  destruct (Dict.mem (questions dm) url) eqn:E;
    cbn [questions set_questions tick set_heap max_history]; [reflexivity|].
  rewrite get_set_same. unfold Dict.mem in E.
  destruct (Dict.get (questions dm) url); [discriminate | reflexivity].
Qed.

Lemma merge_item_core (dm dm' : DataManager) (c c' : Changes) (l : loc) :
  same_core dm dm' ->
  same_core (fst (merge_item now (dm, c) l)) (fst (merge_item now (dm', c') l))
  /\ exists u n,
       updated (snd (merge_item now (dm, c) l)) = updated c ++ u
       /\ new (snd (merge_item now (dm, c) l)) = new c ++ n
       /\ updated (snd (merge_item now (dm', c') l)) = updated c' ++ u
       /\ new (snd (merge_item now (dm', c') l)) = new c' ++ n.
Proof.
  intros (Hh & Hq & Hm & Ht). split.
  - unfold merge_item, same_core. cbn [fst].
    rewrite !uqh_heap, !uqh_questions. unfold history_of.
    rewrite Hh, Hq, Hm, Ht. repeat split.
    + destruct (uqh_frame now (question_url (heap dm l)) l dm') as (-> & _).
      destruct (uqh_frame now (question_url (heap dm l)) l dm) as (-> & _).
      exact Hm.
    + destruct (uqh_frame now (question_url (heap dm l)) l dm') as (_ & -> & _).
      destruct (uqh_frame now (question_url (heap dm l)) l dm) as (_ & -> & _).
      now rewrite Ht.
  - unfold merge_item. cbn [snd]. unfold history_of. rewrite Hh, Hq.
    destruct (latest _).
    + match goal with |- context [if ?b then _ else _] => destruct b end;
        cbn [updated new].
      * match goal with |- context [updated c ++ [?e]] => exists [e], [] end.
        rewrite !app_nil_r. repeat split.
      * exists [], []. rewrite !app_nil_r. repeat split.
    + cbn [updated new]. exists [], [l]. rewrite !app_nil_r. repeat split.
Qed.

Lemma merge_loop_core (ls : list loc) (dm dm' : DataManager) (c c' : Changes) :
  same_core dm dm' ->
  same_core (fst (merge_loop now ls (dm, c))) (fst (merge_loop now ls (dm', c')))
  /\ exists u n,
       updated (snd (merge_loop now ls (dm, c))) = updated c ++ u
       /\ new (snd (merge_loop now ls (dm, c))) = new c ++ n
       /\ updated (snd (merge_loop now ls (dm', c'))) = updated c' ++ u
       /\ new (snd (merge_loop now ls (dm', c'))) = new c' ++ n.
Proof.
  revert dm dm' c c'. induction ls as [|x ls IH]; intros dm dm' c c' Hcore.
  - split; [exact Hcore|]. exists [], []. rewrite !app_nil_r. repeat split.
  - rewrite !merge_loop_cons.
    destruct (merge_item_core c c' x Hcore) as (Hcore1 & u1 & n1 & Hu & Hn & Hu' & Hn').
    destruct (merge_item now (dm, c) x) as [dm1 c1].
    destruct (merge_item now (dm', c') x) as [dm1' c1']. cbn [fst snd] in *.
    destruct (IH dm1 dm1' c1 c1' Hcore1) as (Hcore2 & u2 & n2 & H1 & H2 & H3 & H4).
    split; [exact Hcore2|]. exists (u1 ++ u2), (n1 ++ n2).
    rewrite H1, H2, H3, H4, Hu, Hn, Hu', Hn', !app_assoc. repeat split.
Qed.
End MergeCore.

(** X7.  Merging a batch in one call or its two halves in two calls leaves
    the same objects and the same store (the write and the observers in
    between change neither), and when the calls return, the change record
    of the whole batch is the two records one after the other. *)
Theorem merge_in_two_calls :
  forall (now : nat -> string) (disk_ok : nat -> bool)
         (b1 b2 : list loc) (dm : DataManager),
    let whole := update_questions now disk_ok (b1 ++ b2) dm in
    let first := update_questions now disk_ok b1 dm in
    let second := update_questions now disk_ok b2 (fst first) in
    heap (fst second) = heap (fst whole)
    /\ questions (fst second) = questions (fst whole)
    /\ forall c c1 c2,
         snd whole = Ok c -> snd first = Ok c1 -> snd second = Ok c2 ->
         updated c = updated c1 ++ updated c2
         /\ new c = new c1 ++ new c2.
Proof.
  intros now disk_ok b1 b2 dm. cbv zeta.
  destruct (update_questions_loop now disk_ok (b1 ++ b2) dm)
    as (Hh & Hq & _ & _ & Hc).
  destruct (update_questions_loop now disk_ok b1 dm)
    as (Hh1 & Hq1 & _ & Hm1 & Hc1).
  pose proof (update_questions_ticks now disk_ok b1 dm) as Ht1.
  set (dm1 := fst (update_questions now disk_ok b1 dm)) in *.
  destruct (update_questions_loop now disk_ok b2 dm1)
    as (Hh2 & Hq2 & _ & _ & Hc2).
  rewrite merge_loop_app in Hh, Hq, Hc.
  pose proof (merge_loop_max_history now b1 (dm, empty_changes)) as Hmax.
  destruct (merge_loop now b1 (dm, empty_changes)) as [m1 k1] eqn:E1.
  cbn [fst snd] in *.
  assert (Hcore : same_core m1 dm1).
  { unfold same_core. rewrite Hh1, Hq1, Hm1, Ht1, Hmax. repeat split. }
  destruct (merge_loop_core now b2 k1 empty_changes Hcore)
    as ((Hch & Hcq & _) & u & n & Hu & Hn & Hu' & Hn').
  rewrite Hh, Hq, Hh2, Hq2. split; [exact Hch|]. split; [exact Hcq|].
  intros c c1 c2 Hw Hf Hs.
  apply Hc in Hw. apply Hc1 in Hf. apply Hc2 in Hs. subst c c1 c2.
  rewrite Hu, Hn, Hu', Hn'. cbn [updated new empty_changes app]. now split.
Qed.

Lemma merge_in_two_calls_witness :
  let whole := update_questions Ex.clock Ex.disk_fine ([0; 2] ++ [1]) (Ex.fresh 2 []) in
  let first := update_questions Ex.clock Ex.disk_fine [0; 2] (Ex.fresh 2 []) in
  let second := update_questions Ex.clock Ex.disk_fine [1] (fst first) in
  snd whole = Ok (mkChanges [mkUpdated "a" 50 0] [0; 2])
  /\ updated (mkChanges [mkUpdated "a" 50 0] [0; 2])
     = updated (mkChanges [] [0; 2]) ++ updated (mkChanges [mkUpdated "a" 50 0] [])
  /\ questions (fst second) = questions (fst whole).
Proof.
  destruct (merge_in_two_calls Ex.clock Ex.disk_fine [0; 2] [1] (Ex.fresh 2 []))
    as (_ & Hq & Hc).
  assert (Hw : snd (update_questions Ex.clock Ex.disk_fine ([0; 2] ++ [1])
                      (Ex.fresh 2 []))
               = Ok (mkChanges [mkUpdated "a" 50 0] [0; 2]))
    by (vm_compute; reflexivity).
  assert (Hf : snd (update_questions Ex.clock Ex.disk_fine [0; 2] (Ex.fresh 2 []))
               = Ok (mkChanges [] [0; 2])) by (vm_compute; reflexivity).
  assert (Hs : snd (update_questions Ex.clock Ex.disk_fine [1]
                      (fst (update_questions Ex.clock Ex.disk_fine [0; 2]
                              (Ex.fresh 2 []))))
               = Ok (mkChanges [mkUpdated "a" 50 0] []))
    by (vm_compute; reflexivity).
  destruct (Hc _ _ _ Hw Hf Hs) as [Hu _].
  split; [exact Hw|]. split; [exact Hu | exact Hq].
Defined.

(** ** A write that fails *)

Lemma same_core_trans (a b c : DataManager) :
  same_core a b -> same_core b c -> same_core a c.
Proof.
  unfold same_core. intros (H1 & H2 & H3 & H4) (H5 & H6 & H7 & H8).
  repeat split; congruence.
Qed.

Lemma update_questions_core (now : nat -> string) (disk_ok : nat -> bool)
    (batch : list loc) (dm : DataManager) :
  same_core (fst (merge_loop now batch (dm, empty_changes)))
    (fst (update_questions now disk_ok batch dm)).
Proof.
  destruct (update_questions_loop now disk_ok batch dm) as (Hh & Hq & _ & Hm & _).
  pose proof (update_questions_ticks now disk_ok batch dm) as Ht.
  pose proof (merge_loop_max_history now batch (dm, empty_changes)) as Hmax.
  unfold same_core. cbn [fst] in Hmax. rewrite Hh, Hq, Hm, Ht, Hmax.
  repeat split.
Qed.

Lemma two_updates_core (now : nat -> string) (disk_ok : nat -> bool)
    (b1 b2 : list loc) (dm : DataManager) :
  same_core (fst (merge_loop now (b1 ++ b2) (dm, empty_changes)))
    (fst (update_questions now disk_ok b2
            (fst (update_questions now disk_ok b1 dm)))).
Proof.
  rewrite merge_loop_app.
  pose proof (update_questions_core now disk_ok b1 dm) as H1.
  destruct (merge_loop now b1 (dm, empty_changes)) as [m1 k1]. cbn [fst] in H1.
  destruct (merge_loop_core now b2 k1 empty_changes H1) as (H2 & _).
  eapply same_core_trans; [exact H2|]. apply update_questions_core.
Qed.

Lemma merge_loop_writes (now : nat -> string) (ls : list loc)
    (st : DataManager * Changes) :
  writes (fst (merge_loop now ls st)) = writes (fst st).
Proof.
  revert st. induction ls as [|x ls IH]; intros st; [reflexivity|].
  cbn [merge_loop fold_left]. unfold merge_loop in IH. rewrite IH.
  destruct st as [dm c]. unfold merge_item. cbn [fst].
  apply (uqh_frame now (question_url (heap dm x)) x dm).
Qed.

(** X8.  When the write of the items file fails, [update_questions] raises
    before any observer is called and the merge stays in memory: nothing is
    rolled back.  The next call whose write succeeds writes the whole
    store, with the items of both batches merged as if in one call. *)
Theorem failed_write_keeps_merge :
  forall (now : nat -> string) (disk_ok : nat -> bool)
         (b1 b2 : list loc) (dm : DataManager),
    disk_ok (writes dm) = false ->
    disk_ok (S (writes dm)) = true ->
    let first := update_questions now disk_ok b1 dm in
    let second := update_questions now disk_ok b2 (fst first) in
    snd first = Raise (OSError "data_file")
    /\ trace (fst first) = trace dm ++ [WriteFailed (OSError "data_file")]
    /\ data_file (fst first) = Torn
    /\ (forall url,
          history_of (fst first) url
          = match merged_for dm url b1 with
            | [] => history_of dm url
            | _ :: _ =>
                evict (max_history dm) (history_of dm url ++ merged_for dm url b1)
            end)
    /\ data_file (fst second) = Holds (items_content (fst second))
    /\ (forall url,
          history_of (fst second) url
          = match merged_for dm url (b1 ++ b2) with
            | [] => history_of dm url
            | _ :: _ =>
                evict (max_history dm)
                  (history_of dm url ++ merged_for dm url (b1 ++ b2))
            end).
Proof.
  intros now disk_ok b1 b2 dm Hbad Hgood. cbv zeta.
  destruct (two_updates_core now disk_ok b1 b2 dm) as (_ & Hq12 & _).
  destruct (update_questions_core now disk_ok b1 dm) as (_ & Hq1 & _).
  assert (Hfirst : update_questions now disk_ok b1 dm
                   = (emits [WriteFailed (OSError "data_file")]
                        (set_data_file Torn
                           (count_write (fst (merge_loop now b1 (dm, empty_changes))))),
                      Raise (OSError "data_file"))).
  { rewrite update_questions_eq.
    pose proof (merge_loop_writes now b1 (dm, empty_changes)) as Hw.
    destruct (merge_loop now b1 (dm, empty_changes)) as [m1 k1].
    cbn [fst] in *. now rewrite Hw, Hbad. }
  assert (Hsecond : data_file (fst (update_questions now disk_ok b2
                                      (fst (update_questions now disk_ok b1 dm))))
                    = Holds (items_content
                               (fst (update_questions now disk_ok b2
                                       (fst (update_questions now disk_ok b1 dm)))))).
  { rewrite Hfirst. cbn [fst]. rewrite update_questions_eq.
    pose proof (merge_loop_writes now b2
                  (emits [WriteFailed (OSError "data_file")]
                     (set_data_file Torn
                        (count_write (fst (merge_loop now b1 (dm, empty_changes))))),
                   empty_changes)) as Hw.
    destruct (merge_loop now b2 _) as [m2 k2]. cbn [fst] in Hw.
    rewrite Hw. cbn [writes emits set_data_file count_write].
    rewrite (merge_loop_writes now b1 (dm, empty_changes)). cbn [fst].
    rewrite Hgood. reflexivity. }
  split; [now rewrite Hfirst|]. split.
  { rewrite Hfirst. cbn [fst]. unfold emits, set_data_file, count_write.
    cbn [trace]. now rewrite (merge_loop_trace now b1 (dm, empty_changes)). }
  split; [now rewrite Hfirst|]. split; [|split; [exact Hsecond|]].
  - intros url. unfold history_of at 1. rewrite Hq1.
    apply (merge_loop_history now b1 dm empty_changes url).
  - intros url. unfold history_of at 1. rewrite Hq12.
    apply (merge_loop_history now (b1 ++ b2) dm empty_changes url).
Qed.

Lemma failed_write_keeps_merge_witness :
  let flaky := fun n => match n with 0 => false | S _ => true end in
  let first := update_questions Ex.clock flaky [0; 2] (Ex.fresh 2 []) in
  let second := update_questions Ex.clock flaky [3] (fst first) in
  snd first = Raise (OSError "data_file")
  /\ history_of (fst first) "a" = [0]
  /\ data_file (fst second) = Holds (items_content (fst second))
  /\ history_of (fst second) "a" = [0; 3].
Proof.
  cbv zeta.
  destruct (failed_write_keeps_merge Ex.clock
              (fun n => match n with 0 => false | S _ => true end)
              [0; 2] [3] (Ex.fresh 2 []) eq_refl eq_refl)
    as (Hraise & _ & _ & H1 & Hfile & H2).
  split; [exact Hraise|]. split; [|split; [exact Hfile|]].
  - rewrite (H1 "a"). vm_compute. reflexivity.
  - rewrite (H2 "a"). vm_compute. reflexivity.
Defined.

(** ** The question list: when it raises, what it lists *)

Lemma decorate_raises (dm : DataManager) (items : list (string * list loc))
    (e : PyExc) :
  decorate dm items = Raise e -> e = IndexError /\ exists k, In (k, []) items.
Proof.
  induction items as [|[k h] items IH]; simpl; [discriminate|].
  unfold sort_key. cbn [snd]. destruct h as [|first rest].
  - intros [= <-]. split; [reflexivity|]. exists k. now left.
  - destruct (decorate dm items); [discriminate|].
    intros [= <-]. destruct IH as [He [k' Hk']]; [reflexivity|].
    split; [exact He|]. exists k'. now right.
Qed.

Lemma decorate_nonempty (dm : DataManager) (items : list (string * list loc))
    (ds : list (Q * (string * list loc))) :
  decorate dm items = Ok ds -> forall k h, In (k, h) items -> h <> [].
Proof.
  intros Hd k h Hin Hh. subst h.
  rewrite <- (@decorate_items dm _ _ Hd) in Hin.
  apply in_map_iff in Hin. destruct Hin as (d & Hsnd & Hin).
  destruct (decorate_keys dm _ Hd d Hin) as (first & rest & Hh & _).
  rewrite Hsnd in Hh. discriminate Hh.
Qed.

Lemma get_question_list_result (dm : DataManager) :
  match get_question_list dm with
  | Ok _ => exists ds, decorate dm (questions dm) = Ok ds
  | Raise e => decorate dm (questions dm) = Raise e
  end.
Proof.
  unfold get_question_list, get_question_list_ids.
  destruct (decorate dm (questions dm)) as [ds|e]; [|reflexivity].
  destruct (fold_left append_unseen _ _). eauto.
Qed.

(** X9.  [get_question_list] raises [IndexError], and nothing else, exactly
    when some key of the store has an empty history: the sort computes
    [x[1][0]] for every key before the loop that would skip empty
    histories runs.  So whenever the call returns, no history of the store
    is empty. *)
Theorem question_list_raises_on_empty_history :
  forall dm : DataManager,
    (get_question_list dm = Raise IndexError
     <-> exists k, In (k, []) (questions dm))
    /\ (forall e, get_question_list dm = Raise e -> e = IndexError)
    /\ ((exists out, get_question_list dm = Ok out)
        <-> forall k h, In (k, h) (questions dm) -> h <> []).
Proof.
  intros dm. pose proof (get_question_list_result dm) as Hres.
  assert (Hall : (forall k h, In (k, h) (questions dm) -> h <> []) ->
                 exists out, get_question_list dm = Ok out).
  { intros Hne. unfold get_question_list, get_question_list_ids.
    destruct (decorate_total dm (questions dm) Hne) as [ds ->].
    destruct (fold_left append_unseen _ _). eauto. }
  split; [|split].
  - split.
    + intros Hr. rewrite Hr in Hres. now apply decorate_raises in Hres.
    + intros [k Hk]. destruct (get_question_list dm) as [out|e] eqn:E.
      * destruct Hres as [ds Hd]. exfalso.
        now apply (@decorate_nonempty dm _ _ Hd k [] Hk).
      * apply decorate_raises in Hres. destruct Hres as [-> _]. reflexivity.
  - intros e He. rewrite He in Hres. now apply decorate_raises in Hres.
  - split; [|exact Hall].
    intros [out Ho]. rewrite Ho in Hres. destruct Hres as [ds Hd].
    intros k h. now apply (@decorate_nonempty dm _ _ Hd k h).
Qed.

Lemma question_ids_facts (dm : DataManager) (out : list loc) (ids : list string) :
  Dict.wf (questions dm) ->
  Dict.wf (watched_questions dm) ->
  get_question_list_ids dm = Ok (out, ids) ->
  NoDup ids
  /\ (forall k, In k ids <-> In k (Dict.keys (questions dm)))
  /\ map Some out = map (fun k => latest (history_of dm k)) ids.
Proof.
  intros Hwf Hwfw Hret.
  destruct (@get_question_list_ids_eq dm out ids Hwf Hret) as (ds & Ed & Hids & Hout).
  assert (Hperm : Permutation (map snd (sorted_reverse ds)) (questions dm)).
  { rewrite <- (@decorate_items dm _ _ Ed).
    apply Permutation_map, sorted_reverse_perm. }
  pose proof (@decorate_nonempty dm _ _ Ed) as Hne.
  assert (Hpinned : forall k, In k (pinned dm) -> In k (Dict.keys (questions dm))).
  { intros k Hk. unfold pinned in Hk. apply filter_In in Hk.
    destruct Hk as [_ Hh]. apply has_history_iff in Hh.
    apply mem_keys. unfold Dict.mem, history_of in *.
    destruct (Dict.get (questions dm) k); congruence. }
  set (rest := map fst (filter (unseen (pinned dm)) (map snd (sorted_reverse ds))))
    in *.
  assert (Hrest : forall k, In k rest <->
                            In k (Dict.keys (questions dm)) /\ ~ In k (pinned dm)).
  { intros k. unfold rest. rewrite in_map_iff. split.
    - intros ([k' h] & Hk & Hin). cbn [fst] in Hk. subst k'.
      apply filter_In in Hin. destruct Hin as [Hin Hsel].
      apply (Permutation_in _ Hperm) in Hin. split.
      + unfold Dict.keys. change k with (fst (k, h)). now apply in_map.
      + unfold unseen in Hsel. cbn [fst snd] in Hsel.
        destruct (latest h); [|discriminate].
        apply negb_true_iff in Hsel. intros Hp.
        apply existsb_eqb_In in Hp. congruence.
    - intros [Hk Hnp]. unfold Dict.keys in Hk. apply in_map_iff in Hk.
      destruct Hk as ([k' h] & Hk & Hin). cbn [fst] in Hk. subst k'.
      exists (k, h). split; [reflexivity|]. apply filter_In. split.
      + apply (Permutation_in _ (Permutation_sym Hperm)). exact Hin.
      + unfold unseen. cbn [fst snd].
        destruct (latest h) eqn:El.
        * apply negb_true_iff.
          destruct (existsb (String.eqb k) (pinned dm)) eqn:Ex; [|reflexivity].
          apply existsb_eqb_In in Ex. contradiction.
        * apply latest_None in El. now apply (Hne k h) in Hin. }
  split; [|split; [|exact Hout]].
  - rewrite Hids. apply NoDup_app.
    + apply NoDup_filter. exact Hwfw.
    + unfold rest.
      assert (Hnd : NoDup (map fst (map snd (sorted_reverse ds)))).
      { eapply Permutation_NoDup; [|exact Hwf].
        symmetry. apply Permutation_map, Hperm. }
      revert Hnd. generalize (map snd (sorted_reverse ds)).
      induction l as [|[k h] l IH]; intros Hnd; simpl; [constructor|].
      inversion Hnd as [|? ? Hnin Hnd']; subst.
      destruct (unseen (pinned dm) (k, h)); simpl; auto.
      constructor; auto. intros Hin. apply Hnin.
      apply in_map_iff in Hin. destruct Hin as (x & <- & Hx).
      apply filter_In in Hx. apply in_map. tauto.
    + intros k Hp Hr. apply Hrest in Hr. tauto.
  - intros k. rewrite Hids, in_app_iff, Hrest. split.
    + intros [Hp | [Hk _]]; auto.
    + intros Hk. destruct (in_dec string_dec k (pinned dm)); tauto.
Qed.

(** X10.  When [get_question_list] returns, it lists every question of the
    store exactly once, each by its latest snapshot: the identities listed
    are a rearrangement of the keys of the store, so the list is as long as
    the store (a watched identity that is not in the store is skipped). *)
Theorem question_list_lists_every_question :
  forall (dm : DataManager) (out : list loc),
    Dict.wf (questions dm) ->
    Dict.wf (watched_questions dm) ->
    get_question_list dm = Ok out ->
    exists ids,
      get_question_list_ids dm = Ok (out, ids)
      /\ Permutation ids (Dict.keys (questions dm))
      /\ map Some out = map (fun k => latest (history_of dm k)) ids
      /\ List.length out = List.length (questions dm).
Proof.
  intros dm out Hwf Hwfw Hret. unfold get_question_list in Hret.
  destruct (get_question_list_ids dm) as [[out' ids]|] eqn:Eids; [|discriminate].
  injection Hret as ->.
  destruct (question_ids_facts dm Hwf Hwfw Eids) as (Hnd & Hin & Hout).
  assert (Hperm : Permutation ids (Dict.keys (questions dm)))
    by (apply NoDup_Permutation; assumption).
  exists ids. split; [reflexivity|]. split; [exact Hperm|]. split; [exact Hout|].
  apply (f_equal (@List.length _)) in Hout. rewrite !length_map in Hout.
  rewrite Hout, (Permutation_length Hperm). unfold Dict.keys.
  apply length_map.
Qed.

Lemma question_list_lists_every_question_witness :
  exists ids,
    get_question_list_ids Ex.two_questions = Ok ([2; 3], ids)
    /\ Permutation ids ["a"; "b"].
Proof.
  assert (Hq : Dict.keys (questions Ex.two_questions) = ["a"; "b"])
    by (vm_compute; reflexivity).
  assert (Hwf : Dict.wf (questions Ex.two_questions)).
  { unfold Dict.wf. rewrite Hq. repeat constructor; simpl; intuition discriminate. }
  assert (Hwfw : Dict.wf (watched_questions Ex.two_questions)) by constructor.
  assert (Hget : get_question_list Ex.two_questions = Ok [2; 3])
    by (vm_compute; reflexivity).
  destruct (question_list_lists_every_question Ex.two_questions Hwf Hwfw Hget)
    as (ids & Hids & Hperm & _).
  exists ids. split; [exact Hids|]. now rewrite <- Hq.
Defined.

Lemma unwatched_sorted_by_oldest_witness :
  exists rest,
    ["b"; "a"] = pinned Ex.two_questions ++ rest
    /\ StronglySorted (score_ge (oldest_score Ex.two_questions)) rest.
Proof.
  assert (Hq : Dict.keys (questions Ex.two_questions) = ["a"; "b"])
    by (vm_compute; reflexivity).
  assert (Hwf : Dict.wf (questions Ex.two_questions)).
  { unfold Dict.wf. rewrite Hq. repeat constructor; simpl; intuition discriminate. }
  assert (Hget : get_question_list_ids Ex.two_questions = Ok ([2; 3], ["b"; "a"]))
    by (vm_compute; reflexivity).
  destruct (@unwatched_sorted_by_oldest Ex.two_questions [2; 3] ["b"; "a"] Hwf Hget)
    as (rest & Hids & Hsorted & _).
  exists rest. split; [exact Hids | exact Hsorted].
Defined.

(** ** A bound of zero *)

Lemma first_seen_covers (seen urls : list string) (u : string) :
  In u urls -> In u (seen ++ first_seen seen urls).
Proof.
  revert seen. induction urls as [|x urls IH]; intros seen Hin; [destruct Hin|].
  cbn [first_seen]. destruct (existsb (String.eqb x) seen) eqn:E.
  - destruct Hin as [<-|Hin]; [|now apply IH].
    apply existsb_eqb_In in E. apply in_or_app. now left.
  - destruct Hin as [<-|Hin].
    + apply in_or_app. right. now left.
    + specialize (IH (x :: seen) Hin). apply in_app_or in IH.
      apply in_or_app. destruct IH as [[<-|H]|H]; [right; now left | now left |].
      right. now right.
Qed.

Lemma evict_zero (history : list loc) : evict 0 history = [].
Proof. apply length_zero_iff_nil. now rewrite evict_length. Qed.

Lemma merge_loop_all_new (now : nat -> string) (ls : list loc)
    (dm : DataManager) (c : Changes) :
  max_history dm = 0 ->
  (forall k, history_of dm k = []) ->
  snd (merge_loop now ls (dm, c)) = mkChanges (updated c) (new c ++ ls)
  /\ forall k, history_of (fst (merge_loop now ls (dm, c))) k = [].
Proof.
  revert dm c. induction ls as [|x ls IH]; intros dm c Hmax Hempty.
  - cbn. rewrite app_nil_r. split; [now destruct c | exact Hempty].
  - rewrite merge_loop_cons.
    assert (Hstep : merge_item now (dm, c) x
                    = (update_question_history now (question_url (heap dm x)) x dm,
                       mkChanges (updated c) (new c ++ [x]))).
    { unfold merge_item. now rewrite Hempty. }
    rewrite Hstep.
    assert (Hempty' : forall k,
              history_of (update_question_history now (question_url (heap dm x)) x dm) k
              = []).
    { intros k. destruct (string_dec k (question_url (heap dm x))) as [->|Hne].
      - rewrite uqh_history, Hmax. apply evict_zero.
      - rewrite uqh_history_other by assumption. apply Hempty. }
    assert (Hmax' : max_history
                      (update_question_history now (question_url (heap dm x)) x dm)
                    = 0).
    { rewrite <- Hmax. apply (uqh_frame now (question_url (heap dm x)) x dm). }
    destruct (IH _ (mkChanges (updated c) (new c ++ [x])) Hmax' Hempty') as [Hc Hh].
    split; [|exact Hh]. rewrite Hc. cbn [updated new].
    now rewrite <- app_assoc.
Qed.

Lemma merge_loop_watched (now : nat -> string) (ls : list loc)
    (st : DataManager * Changes) :
  watched_questions (fst (merge_loop now ls st)) = watched_questions (fst st).
Proof.
  revert st. induction ls as [|x ls IH]; intros st; [reflexivity|].
  cbn [merge_loop fold_left]. unfold merge_loop in IH. rewrite IH.
  destruct st as [dm c]. unfold merge_item. cbn [fst].
  apply (uqh_frame now (question_url (heap dm x)) x dm).
Qed.

(** X12.  With [max_history = 0] and no history in the store, a merge
    keeps no snapshot: every item of the batch, repeated identities
    included, is reported in ['new'] and none in ['updated']; every
    identity of the batch becomes a key of the store with an empty
    history; after a batch that is not empty [get_question_list] raises
    [IndexError], and so does [add_to_watched] for an identity of the
    batch that is not watched. *)
Theorem zero_bound_keeps_nothing :
  forall (now : nat -> string) (disk_ok : nat -> bool)
         (batch : list loc) (dm : DataManager),
    max_history dm = 0 ->
    (forall k, history_of dm k = []) ->
    let r := update_questions now disk_ok batch dm in
    (forall c, snd r = Ok c -> new c = batch /\ updated c = [])
    /\ (forall k, history_of (fst r) k = [])
    /\ (forall l, In l batch ->
          Dict.get (questions (fst r)) (question_url (heap dm l)) = Some []
          /\ get_question_list (fst r) = Raise IndexError
          /\ (Dict.mem (watched_questions dm) (question_url (heap dm l)) = false ->
              add_to_watched disk_ok (question_url (heap dm l)) (fst r)
              = (fst r, Raise IndexError))).
Proof.
  intros now disk_ok batch dm Hmax Hempty. cbv zeta.
  destruct (update_questions_loop now disk_ok batch dm)
    as (_ & Hq & Hw & _ & Hc).
  destruct (@merge_loop_all_new now batch dm empty_changes Hmax Hempty)
    as [Hchanges Hhist].
  pose proof (merge_loop_keys now batch dm empty_changes) as Hkeys.
  set (r := update_questions now disk_ok batch dm) in *.
  assert (Hhist' : forall k, history_of (fst r) k = []).
  { intros k. unfold history_of. rewrite Hq. apply Hhist. }
  split; [|split; [exact Hhist'|]].
  - intros c Hret. apply Hc in Hret. subst c. rewrite Hchanges. now split.
  - intros l Hl.
    assert (Hget : Dict.get (questions (fst r)) (question_url (heap dm l)) = Some []).
    { assert (Hin : In (question_url (heap dm l)) (Dict.keys (questions (fst r)))).
      { rewrite Hq, Hkeys. apply first_seen_covers.
        apply in_map_iff. eauto. }
      apply mem_keys in Hin. unfold Dict.mem in Hin.
      specialize (Hhist' (question_url (heap dm l))). unfold history_of in Hhist'.
      destruct (Dict.get (questions (fst r)) (question_url (heap dm l)));
        [now subst | discriminate]. }
    split; [exact Hget|]. split.
    + pose proof (get_question_list_result (fst r)) as Hres.
      destruct (get_question_list (fst r)) as [out|e].
      * destruct Hres as [ds Hd]. exfalso.
        apply get_In in Hget.
        now apply (@decorate_nonempty (fst r) _ _ Hd _ [] Hget).
      * apply decorate_raises in Hres. now destruct Hres as [-> _].
    + intros Hnw. unfold add_to_watched. rewrite Hw.
      pose proof (merge_loop_watched now batch (dm, empty_changes)) as Hw0.
      cbn [fst] in Hw0.
      rewrite Hw0, Hnw. unfold Dict.mem. rewrite Hget. cbn [negb andb].
      now rewrite Hhist'.
Qed.

Lemma zero_bound_keeps_nothing_witness :
  let r := update_questions Ex.clock Ex.disk_fine [0; 1] (Ex.fresh 0 []) in
  snd r = Ok (mkChanges [] [0; 1])
  /\ Dict.get (questions (fst r)) "a" = Some []
  /\ get_question_list (fst r) = Raise IndexError.
Proof.
  assert (Hempty : forall k, history_of (Ex.fresh 0 []) k = []) by reflexivity.
  destruct (zero_bound_keeps_nothing Ex.clock Ex.disk_fine [0; 1] (Ex.fresh 0 [])
              eq_refl Hempty) as (_ & _ & Hitem).
  destruct (Hitem 0) as (Hget & Hlist & _); [now left|].
  split; [vm_compute; reflexivity|]. split; [exact Hget | exact Hlist].
Defined.

(** ** The watch list and the merges *)

Lemma merge_loop_watched_file (now : nat -> string) (ls : list loc)
    (st : DataManager * Changes) :
  watched_file (fst (merge_loop now ls st)) = watched_file (fst st).
Proof.
  revert st. induction ls as [|x ls IH]; intros st; [reflexivity|].
  cbn [merge_loop fold_left]. unfold merge_loop in IH. rewrite IH.
  destruct st as [dm c]. unfold merge_item. cbn [fst].
  apply (uqh_frame now (question_url (heap dm x)) x dm).
Qed.

Lemma latest_evict_app (max : nat) (history more : list loc) :
  1 <= max -> more <> [] ->
  latest (evict max (history ++ more)) = latest more.
Proof.
  intros Hmax Hne. destruct (exists_last Hne) as (init & l & ->).
  rewrite app_assoc, latest_evict by assumption. symmetry. apply latest_app.
Qed.

Lemma merged_for_In (dm : DataManager) (url : string) (ls : list loc) (l : loc) :
  In l (merged_for dm url ls) -> In l ls /\ question_url (heap dm l) = url.
Proof.
  unfold merged_for. rewrite filter_In. intros [H1 H2].
  apply String.eqb_eq in H2. now split.
Qed.

(** X13.  The watch list keeps the snapshot that was the latest when the
    identity was watched: a merge changes neither the watch list nor the
    watched file, and leaves the watched object as it is unless that very
    object is in the batch.  After new observations of a watched identity
    have been merged (bound at least 1), the latest snapshot of the store
    is one of them and no longer the watched one. *)
Theorem watch_entry_is_frozen :
  forall (now : nat -> string) (disk_ok : nat -> bool)
         (batch : list loc) (dm : DataManager),
    let dm' := fst (update_questions now disk_ok batch dm) in
    watched_questions dm' = watched_questions dm
    /\ watched_file dm' = watched_file dm
    /\ forall (k : string) (l : loc),
         Dict.get (watched_questions dm) k = Some l ->
         ~ In l batch ->
         heap dm' l = heap dm l
         /\ (1 <= max_history dm ->
             merged_for dm k batch <> [] ->
             exists l', latest (history_of dm' k) = Some l'
                        /\ In l' batch /\ l' <> l).
Proof.
  intros now disk_ok batch dm dm'.
  destruct (update_questions_loop now disk_ok batch dm) as (Hh & Hq & Hw & _).
  fold dm' in Hh, Hq, Hw. split; [|split].
  - rewrite Hw. apply (merge_loop_watched now batch (dm, empty_changes)).
  - subst dm'. rewrite update_questions_eq.
    pose proof (merge_loop_watched_file now batch (dm, empty_changes)) as Hf.
    destruct (merge_loop now batch (dm, empty_changes)) as [dm1 c].
    cbn [fst] in Hf. destruct (disk_ok (writes dm1)); exact Hf.
  - intros k l Hget Hnin. split.
    + rewrite Hh. now apply (merge_loop_heap_other now batch (dm, empty_changes)).
    + intros Hmax Hne.
      assert (Hhist : history_of dm' k
                      = evict (max_history dm)
                          (history_of dm k ++ merged_for dm k batch)).
      { transitivity (history_of (fst (merge_loop now batch (dm, empty_changes))) k);
          [unfold history_of; now rewrite Hq|].
        rewrite (merge_loop_history now batch dm empty_changes k).
        destruct (merged_for dm k batch); [congruence | reflexivity]. }
      rewrite Hhist, latest_evict_app by assumption.
      destruct (latest (merged_for dm k batch)) as [l'|] eqn:El.
      * exists l'. split; [reflexivity|].
        apply latest_In in El. apply merged_for_In in El.
        destruct El as [Hin _]. split; [exact Hin|]. congruence.
      * apply latest_None in El. contradiction.
Qed.

Lemma watch_entry_is_frozen_witness :
  let dm := fst (add_to_watched Ex.disk_fine "b" Ex.two_questions) in
  let dm' := fst (update_questions Ex.clock Ex.disk_fine [4] dm) in
  Dict.get (watched_questions dm') "b" = Some 2
  /\ heap dm' 2 = heap dm 2.
Proof.
  cbv zeta.
  set (dm := fst (add_to_watched Ex.disk_fine "b" Ex.two_questions)).
  destruct (watch_entry_is_frozen Ex.clock Ex.disk_fine [4] dm)
    as (Hw & _ & Hobj).
  assert (Hget : Dict.get (watched_questions dm) "b" = Some 2)
    by (vm_compute; reflexivity).
  split; [rewrite Hw; exact Hget|].
  apply (Hobj "b" 2 Hget). simpl. intros [H|[]]. discriminate H.
Defined.

Lemma del_set_new {V : Type} (d : Dict.t V) (k : string) (v : V) :
  Dict.mem d k = false -> Dict.del (Dict.set d k v) k = d.
Proof.
  unfold Dict.mem. induction d as [|[k' v'] d IH]; simpl.
  - now rewrite String.eqb_refl.
  - destruct (String.eqb k k') eqn:E; [discriminate|].
    intros H. simpl. rewrite E. f_equal. now apply IH.
Qed.

Lemma save_watched_frame (disk_ok : nat -> bool) (dm : DataManager) :
  let r := save_watched disk_ok dm in
  watched_questions (fst r) = watched_questions dm
  /\ questions (fst r) = questions dm
  /\ heap (fst r) = heap dm
  /\ writes (fst r) = S (writes dm)
  /\ (disk_ok (writes dm) = true ->
      snd r = Ok tt /\ watched_file (fst r) = Holds (watched_content dm)).
Proof.
  unfold save_watched. destruct (disk_ok (writes dm)); cbn;
    repeat split; discriminate.
Qed.

(** X14.  Watching an identity that is not watched and has a latest
    snapshot, then unwatching it, gives back the watch list as it was,
    entry for entry and in the same order; the store and its objects are
    not touched; and when the second write succeeds the watched file holds
    that watch list. *)
Theorem watch_then_unwatch :
  forall (disk_ok : nat -> bool) (url : string) (dm : DataManager) (l : loc),
    Dict.mem (watched_questions dm) url = false ->
    latest (history_of dm url) = Some l ->
    let dm1 := fst (add_to_watched disk_ok url dm) in
    let r := remove_from_watched disk_ok url dm1 in
    watched_questions (fst r) = watched_questions dm
    /\ questions (fst r) = questions dm
    /\ heap (fst r) = heap dm
    /\ (disk_ok (S (writes dm)) = true ->
        snd r = Ok tt
        /\ watched_file (fst r) = Holds (watched_content dm)).
Proof.
  intros disk_ok url dm l Hw Hl. cbv zeta.
  assert (Hq : Dict.mem (questions dm) url = true).
  { unfold history_of, Dict.mem in *.
    destruct (Dict.get (questions dm) url); [reflexivity | discriminate]. }
  assert (Hadd : add_to_watched disk_ok url dm
                 = save_watched disk_ok
                     (set_watched_questions
                        (Dict.set (watched_questions dm) url l) dm)).
  { unfold add_to_watched. now rewrite Hw, Hq, Hl. }
  rewrite Hadd.
  destruct (save_watched_frame disk_ok
              (set_watched_questions (Dict.set (watched_questions dm) url l) dm))
    as (Hw1 & Hq1 & Hh1 & Hwr1 & _).
  set (dm1 := fst (save_watched disk_ok _)) in *.
  cbn [watched_questions questions heap writes set_watched_questions] in *.
  assert (Hm : Dict.mem (watched_questions dm1) url = true)
    by (unfold Dict.mem; now rewrite Hw1, get_set_same).
  unfold remove_from_watched. rewrite Hm.
  destruct (save_watched_frame disk_ok
              (set_watched_questions (Dict.del (watched_questions dm1) url) dm1))
    as (Hw2 & Hq2 & Hh2 & _ & Hok).
  set (r2 := save_watched disk_ok _) in *.
  cbn [watched_questions questions heap writes set_watched_questions] in *.
  split; [now rewrite Hw2, Hw1, del_set_new|].
  split; [now rewrite Hq2, Hq1|]. split; [now rewrite Hh2, Hh1|].
  intros Hdisk. rewrite Hwr1 in Hok. destruct (Hok Hdisk) as [Hs Hf].
  split; [exact Hs|]. rewrite Hf. f_equal. unfold watched_content.
  cbn [watched_questions heap set_watched_questions].
  now rewrite Hw1, Hh1, del_set_new.
Qed.

Lemma watch_then_unwatch_witness :
  let dm1 := fst (add_to_watched Ex.disk_fine "b" Ex.two_questions) in
  let r := remove_from_watched Ex.disk_fine "b" dm1 in
  watched_questions (fst r) = [] /\ snd r = Ok tt.
Proof.
  destruct (@watch_then_unwatch Ex.disk_fine "b" Ex.two_questions 2
              eq_refl eq_refl) as (Hw & _ & _ & Hok).
  split; [exact Hw|]. now apply Hok.
Defined.

(** ** The store stays in order *)

Lemma In_evict (max : nat) (history : list loc) (l : loc) :
  In l (evict max history) -> In l history.
Proof.
  induction history as [|x rest IH]; [tauto|]. cbn [evict].
  destruct (max <? List.length (x :: rest)); [|tauto].
  intros H. right. now apply IH.
Qed.

Lemma mem_set {V : Type} (d : Dict.t V) (k k' : string) (v : V) :
  Dict.mem (Dict.set d k v) k' = String.eqb k' k || Dict.mem d k'.
Proof.
  unfold Dict.mem. destruct (String.eqb k' k) eqn:E.
  - apply String.eqb_eq in E. subst. now rewrite get_set_same.
  - apply String.eqb_neq in E. now rewrite get_set_other.
Qed.

Lemma mem_del {V : Type} (d : Dict.t V) (k k' : string) :
  Dict.wf d -> Dict.mem (Dict.del d k) k' = true -> Dict.mem d k' = true.
Proof.
  intros Hwf. unfold Dict.mem. destruct (string_dec k' k) as [->|Hne].
  - rewrite get_del_same by assumption. discriminate.
  - now rewrite get_del_other.
Qed.

Lemma filter_all {A : Type} (f : A -> bool) (l : list A) :
  (forall x, In x l -> f x = true) -> filter f l = l.
Proof.
  induction l as [|x l IH]; intros H; [reflexivity|]. cbn [filter].
  rewrite (H x) by now left. f_equal. apply IH. intros y Hy. apply H. now right.
Qed.

Lemma store_ok_ext (dm dm' : DataManager) :
  heap dm' = heap dm -> questions dm' = questions dm ->
  watched_questions dm' = watched_questions dm ->
  max_history dm' = max_history dm ->
  store_ok dm -> store_ok dm'.
Proof.
  intros Hh Hq Hw Hm. unfold store_ok, history_of.
  now rewrite Hh, Hq, Hw, Hm.
Qed.

Lemma merge_item_ok (now : nat -> string) (dm : DataManager) (c : Changes)
    (x : loc) :
  store_ok dm -> store_ok (fst (merge_item now (dm, c) x)).
Proof.
  intros (Hwf & Hwfw & Hne & Hurl & Hsub & Hmax).
  unfold merge_item. cbn [fst]. set (url := question_url (heap dm x)).
  destruct (uqh_frame now url x dm) as (Hm & _ & Hw & _).
  unfold store_ok. rewrite Hm, Hw.
  split; [now apply uqh_wf|]. split; [exact Hwfw|].
  split; [|split; [|split; [|exact Hmax]]].
  - intros k Hk. destruct (string_dec k url) as [->|Hd].
    + rewrite uqh_history. apply evict_nonempty; [assumption|].
      now destruct (history_of dm url).
    + rewrite uqh_history_other by assumption.
      rewrite uqh_mem_other in Hk by assumption. now apply Hne.
  - intros k l. rewrite uqh_heap, heap_set_url.
    destruct (string_dec k url) as [->|Hd].
    + rewrite uqh_history. intros Hin. apply In_evict in Hin.
      apply in_app_or in Hin. destruct Hin as [Hin|[<-|[]]];
        [now apply Hurl | reflexivity].
    + rewrite uqh_history_other by assumption. apply Hurl.
  - intros k Hk. destruct (string_dec k url) as [->|Hd].
    + unfold Dict.mem. rewrite uqh_questions, get_set_same. reflexivity.
    + rewrite uqh_mem_other by assumption. now apply Hsub.
Qed.

Lemma merge_loop_ok (now : nat -> string) (ls : list loc)
    (dm : DataManager) (c : Changes) :
  store_ok dm -> store_ok (fst (merge_loop now ls (dm, c))).
Proof.
  revert dm c. induction ls as [|x ls IH]; intros dm c Hok; [exact Hok|].
  rewrite merge_loop_cons.
  pose proof (merge_item_ok now c x Hok) as Hstep.
  destruct (merge_item now (dm, c) x) as [dm1 c1]. now apply IH.
Qed.

Lemma store_call_ok (now : nat -> string) (disk_ok : nat -> bool)
    (c : StoreCall) (dm : DataManager) :
  store_ok dm -> store_ok (store_call now disk_ok c dm).
Proof.
  intros Hok. destruct c as [batch|url|url]; unfold store_call.
  - destruct (update_questions_loop now disk_ok batch dm) as (Hh & Hq & Hw & Hm & _).
    eapply store_ok_ext; [exact Hh | exact Hq | exact Hw | |
                          apply (merge_loop_ok now batch empty_changes Hok)].
    rewrite Hm. symmetry.
    apply (merge_loop_max_history now batch (dm, empty_changes)).
  - unfold add_to_watched.
    destruct (negb (Dict.mem (watched_questions dm) url)
              && Dict.mem (questions dm) url) eqn:E; [|exact Hok].
    destruct (latest (history_of dm url)) as [l|]; [|exact Hok].
    apply andb_true_iff in E. destruct E as [_ Hq].
    destruct (save_watched_frame disk_ok
                (set_watched_questions (Dict.set (watched_questions dm) url l) dm))
      as (Hw1 & Hq1 & Hh1 & _).
    set (dm1 := fst (save_watched disk_ok _)) in *.
    cbn [watched_questions questions heap set_watched_questions] in *.
    assert (Hm1 : max_history dm1 = max_history dm).
    { subst dm1. unfold save_watched. destruct (disk_ok _); reflexivity. }
    destruct Hok as (Hwf & Hwfw & Hne & Hurl & Hsub & Hmax).
    unfold store_ok, history_of. rewrite Hw1, Hq1, Hh1, Hm1.
    split; [exact Hwf|]. split; [now apply wf_set|].
    split; [exact Hne|]. split; [exact Hurl|]. split; [|exact Hmax].
    intros k. rewrite mem_set. destruct (String.eqb k url) eqn:Ek.
    + apply String.eqb_eq in Ek. now subst.
    + apply Hsub.
  - unfold remove_from_watched.
    destruct (Dict.mem (watched_questions dm) url); [|exact Hok].
    destruct (save_watched_frame disk_ok
                (set_watched_questions (Dict.del (watched_questions dm) url) dm))
      as (Hw1 & Hq1 & Hh1 & _).
    set (dm1 := fst (save_watched disk_ok _)) in *.
    cbn [watched_questions questions heap set_watched_questions] in *.
    assert (Hm1 : max_history dm1 = max_history dm).
    { subst dm1. unfold save_watched. destruct (disk_ok _); reflexivity. }
    destruct Hok as (Hwf & Hwfw & Hne & Hurl & Hsub & Hmax).
    unfold store_ok, history_of. rewrite Hw1, Hq1, Hh1, Hm1.
    split; [exact Hwf|]. split; [now apply wf_del|].
    split; [exact Hne|]. split; [exact Hurl|]. split; [|exact Hmax].
    intros k Hk. apply Hsub. now apply (@mem_del _ _ url k Hwfw).
Qed.

Lemma store_calls_ok (now : nat -> string) (disk_ok : nat -> bool)
    (cs : list StoreCall) (dm : DataManager) :
  store_ok dm -> store_ok (store_calls now disk_ok cs dm).
Proof.
  revert dm. induction cs as [|c cs IH]; intros dm Hok; [exact Hok|].
  cbn [store_calls fold_left]. apply IH. now apply store_call_ok.
Qed.

Lemma store_ok_fresh (dm : DataManager) :
  questions dm = [] -> watched_questions dm = [] -> 1 <= max_history dm ->
  store_ok dm.
Proof.
  intros Hq Hw Hmax. unfold store_ok, history_of, Dict.mem, Dict.wf.
  rewrite Hq, Hw. simpl. repeat split; auto; try discriminate;
    try constructor; tauto.
Qed.

Lemma store_ok_histories (dm : DataManager) :
  store_ok dm -> forall k h, In (k, h) (questions dm) -> h <> [].
Proof.
  intros (Hwf & _ & Hne & _) k h Hin.
  apply (In_get k h Hwf) in Hin.
  specialize (Hne k). unfold Dict.mem, history_of in Hne. rewrite Hin in Hne.
  now apply Hne.
Qed.

Lemma store_ok_pinned (dm : DataManager) :
  store_ok dm -> pinned dm = Dict.keys (watched_questions dm).
Proof.
  intros (_ & _ & Hne & _ & Hsub & _). unfold pinned. apply filter_all.
  intros k Hk. apply has_history_iff. apply Hne, Hsub. now apply mem_keys.
Qed.

(** X15.  Starting from an empty store and an empty watch list with a
    bound of at least 1, after any sequence of [update_questions],
    [add_to_watched] and [remove_from_watched] calls (those that raise
    included) the store is in order: no key twice, no empty history, every
    snapshot under its own identity, every watched identity in the store.
    So [get_question_list] returns, and all the watched identities are
    pinned at the front, in the order of the watch list. *)
Theorem store_stays_in_order :
  forall (now : nat -> string) (disk_ok : nat -> bool)
         (cs : list StoreCall) (dm : DataManager),
    questions dm = [] ->
    watched_questions dm = [] ->
    1 <= max_history dm ->
    let dm' := store_calls now disk_ok cs dm in
    store_ok dm'
    /\ exists out ids rest,
         get_question_list dm' = Ok out
         /\ get_question_list_ids dm' = Ok (out, ids)
         /\ ids = Dict.keys (watched_questions dm') ++ rest.
Proof.
  intros now disk_ok cs dm Hq Hw Hmax dm'.
  assert (Hok : store_ok dm').
  { apply store_calls_ok. now apply store_ok_fresh. }
  split; [exact Hok|].
  pose proof (store_ok_histories Hok) as Hne.
  pose proof (store_ok_pinned Hok) as Hpin.
  destruct Hok as (Hwf & _).
  destruct (decorate_total dm' (questions dm') Hne) as [ds Hd].
  assert (Hids : exists out ids, get_question_list_ids dm' = Ok (out, ids)).
  { unfold get_question_list_ids. rewrite Hd.
    destruct (fold_left append_unseen _ _). eauto. }
  destruct Hids as (out & ids & Hids).
  destruct (@get_question_list_ids_eq dm' out ids Hwf Hids) as (ds' & _ & Hsplit & _).
  exists out, ids. eexists. split; [|split; [exact Hids|]].
  - unfold get_question_list. now rewrite Hids.
  - rewrite <- Hpin. exact Hsplit.
Qed.

Lemma store_stays_in_order_witness :
  let dm' := store_calls Ex.clock Ex.disk_fine
               [CallUpdate [0; 2]; CallWatch "b"; CallWatch "zz";
                CallUpdate [3]; CallUnwatch "a"]
               (Ex.fresh 2 []) in
  store_ok dm' /\ get_question_list dm' = Ok [2; 3].
Proof.
  assert (Hmax : 1 <= max_history (Ex.fresh 2 [])) by (simpl; lia).
  destruct (store_stays_in_order Ex.clock Ex.disk_fine
              [CallUpdate [0; 2]; CallWatch "b"; CallWatch "zz";
               CallUpdate [3]; CallUnwatch "a"]
              (Ex.fresh 2 []) eq_refl eq_refl Hmax) as (Hok & _).
  split; [exact Hok | vm_compute; reflexivity].
Defined.

(** ** Construction from the files *)

Lemma allocate_spec (items : list Question) (h : Heap) (next : loc) :
  exists h',
    allocate items h next
    = (seq next (List.length items), h', next + List.length items)
    /\ (forall l, l < next -> h' l = h l)
    /\ map h' (seq next (List.length items)) = items.
Proof.
  revert h next. induction items as [|q items IH]; intros h next.
  - exists h. cbn. rewrite Nat.add_0_r. repeat split.
  - cbn [allocate List.length seq].
    destruct (IH (heap_set h next q) (S next)) as (h' & -> & Hold & Hmap).
    exists h'. split; [f_equal; lia|]. split.
    + intros l Hl. rewrite Hold by lia. unfold heap_set.
      destruct (Nat.eqb l next) eqn:E; [|reflexivity].
      apply Nat.eqb_eq in E. lia.
    + cbn [map]. rewrite Hmap. f_equal.
      rewrite Hold by lia. unfold heap_set. now rewrite Nat.eqb_refl.
Qed.

Lemma set_new {V : Type} (d : Dict.t V) (k : string) (v : V) :
  ~ In k (Dict.keys d) -> Dict.set d k v = d ++ [(k, v)].
Proof.
  unfold Dict.keys. induction d as [|[k' v'] d IH]; simpl; [reflexivity|].
  intros Hnin. destruct (String.eqb k k') eqn:E.
  - apply String.eqb_eq in E. subst. tauto.
  - f_equal. apply IH. tauto.
Qed.

Lemma load_histories_spec (content : ItemsContent) (d : Dict.t (list loc))
    (h : Heap) (next : loc) :
  NoDup (Dict.keys d ++ map fst content) ->
  exists d' h' next',
    load_histories content d h next = (d ++ d', h', next')
    /\ next <= next'
    /\ (forall l, l < next -> h' l = h l)
    /\ map (fun kv => (fst kv, map h' (snd kv))) d' = content
    /\ (forall k ls l, In (k, ls) d' -> In l ls -> next <= l < next').
Proof.
  revert d h next. induction content as [|[k qs] rest IH]; intros d h next Hnd.
  - exists [], h, next. cbn. rewrite app_nil_r.
    split; [reflexivity|]. split; [lia|]. split; [reflexivity|].
    split; [reflexivity|]. intros ? ? ? [].
  - cbn [load_histories].
    destruct (allocate_spec qs h next) as (h1 & -> & Hold1 & Hmap1).
    cbv beta iota.
    assert (Hk : ~ In k (Dict.keys d)).
    { cbn [map fst] in Hnd. apply NoDup_remove_2 in Hnd.
      intros Hin. apply Hnd. apply in_or_app. now left. }
    rewrite (@set_new _ d k _ Hk).
    assert (Hnd' : NoDup (Dict.keys (d ++ [(k, seq next (List.length qs))])
                          ++ map fst rest)).
    { unfold Dict.keys in *. rewrite map_app, <- app_assoc. exact Hnd. }
    destruct (IH (d ++ [(k, seq next (List.length qs))]) h1
                (next + List.length qs) Hnd')
      as (d' & h' & next' & Heq & Hle & Hold & Hmap & Hlocs).
    exists ((k, seq next (List.length qs)) :: d'), h', next'.
    rewrite <- app_assoc in Heq. split; [exact Heq|]. split; [lia|].
    split; [|split].
    + intros l Hl. rewrite Hold by lia. now apply Hold1.
    + cbn [map fst snd]. rewrite Hmap. do 2 f_equal.
      rewrite <- Hmap1 at 2. apply map_ext_in. intros l Hl.
      apply in_seq in Hl. apply Hold. lia.
    + intros k0 ls l [[= <- <-]|Hin] Hl.
      * apply in_seq in Hl. lia.
      * specialize (Hlocs k0 ls l Hin Hl). lia.
Qed.

Lemma load_snapshots_spec (content : WatchedContent) (d : Dict.t loc)
    (h : Heap) (next : loc) :
  NoDup (Dict.keys d ++ map fst content) ->
  exists d' h',
    load_snapshots content d h next
    = (d ++ d', h', next + List.length content)
    /\ (forall l, l < next -> h' l = h l)
    /\ map (fun kv => (fst kv, h' (snd kv))) d' = content
    /\ (forall k l, In (k, l) d' -> next <= l < next + List.length content).
Proof.
  revert d h next. induction content as [|[k q] rest IH]; intros d h next Hnd.
  - exists [], h. cbn. rewrite app_nil_r, Nat.add_0_r.
    split; [reflexivity|]. split; [reflexivity|]. split; [reflexivity|].
    intros ? ? [].
  - cbn [load_snapshots].
    assert (Hk : ~ In k (Dict.keys d)).
    { cbn [map fst] in Hnd. apply NoDup_remove_2 in Hnd.
      intros Hin. apply Hnd. apply in_or_app. now left. }
    rewrite (@set_new _ d k _ Hk).
    assert (Hnd' : NoDup (Dict.keys (d ++ [(k, next)]) ++ map fst rest)).
    { unfold Dict.keys in *. rewrite map_app, <- app_assoc. exact Hnd. }
    destruct (IH (d ++ [(k, next)]) (heap_set h next q) (S next) Hnd')
      as (d' & h' & Heq & Hold & Hmap & Hlocs).
    exists ((k, next) :: d'), h'. rewrite <- app_assoc in Heq.
    split; [rewrite Heq; cbn [List.length app]; f_equal; try reflexivity; lia|].
    split; [|split].
    + intros l Hl. rewrite Hold by lia. unfold heap_set.
      destruct (Nat.eqb l next) eqn:E; [|reflexivity].
      apply Nat.eqb_eq in E. lia.
    + cbn [map fst snd]. rewrite Hmap. do 2 f_equal.
      rewrite Hold by lia. unfold heap_set. now rewrite Nat.eqb_refl.
    + intros k0 l [[= <- <-]|Hin]; cbn [List.length].
      * lia.
      * specialize (Hlocs k0 l Hin). lia.
Qed.

(** X16.  [DataManager.__init__] reads back what the two files hold: when
    the items file holds the store [items] and the watched file the watch
    list [watched] (keys written once, as [json.dump] writes a dict), the
    new data manager has exactly these contents, key for key and snapshot
    for snapshot in the same order, no observer and [_data = None].  Its
    snapshots are new objects: the objects that existed are untouched, and
    a watched snapshot is no longer the same object as an entry of a
    history. *)
Theorem init_reads_files :
  forall (world : DataManager) (next : loc) (max : nat)
         (items : ItemsContent) (watched : WatchedContent),
    data_file world = Holds items ->
    watched_file world = Holds watched ->
    NoDup (map fst items) ->
    NoDup (map fst watched) ->
    exists dm next',
      DataManager_init world next max = Ok (dm, next')
      /\ items_content dm = items
      /\ watched_content dm = watched
      /\ _listeners dm = [] /\ _data dm = None /\ max_history dm = max
      /\ next <= next'
      /\ (forall l, l < next -> heap dm l = heap world l)
      /\ (forall k ls l w wl,
            In (k, ls) (questions dm) -> In l ls ->
            In (w, wl) (watched_questions dm) -> l <> wl).
Proof.
  intros world next max items watched Hdf Hwf Hnd Hndw.
  unfold DataManager_init, load_questions, load_watched. rewrite Hdf, Hwf.
  destruct (load_histories_spec items [] (heap world) next Hnd)
    as (qs & h1 & next1 & -> & Hle & Hold1 & Hmap1 & Hlocs1).
  destruct (load_snapshots_spec watched [] h1 next1 Hndw)
    as (ws & h2 & -> & Hold2 & Hmap2 & Hlocs2).
  cbn [app]. eexists. eexists. split; [reflexivity|].
  unfold items_content, watched_content.
  cbn [heap questions watched_questions _listeners _data max_history].
  split; [|split; [exact Hmap2|]].
  - rewrite <- Hmap1. apply map_ext_in. intros [k ls] Hin. cbn [fst snd].
    f_equal. apply map_ext_in. intros l Hl. apply Hold2.
    specialize (Hlocs1 k ls l Hin Hl). lia.
  - repeat split; try lia.
    + intros l Hl. rewrite Hold2 by lia. now apply Hold1.
    + intros k ls l w wl Hin Hl Hw ->.
      specialize (Hlocs1 k ls wl Hin Hl). specialize (Hlocs2 w wl Hw). lia.
Qed.

Lemma init_reads_files_witness :
  let world := fst (add_to_watched Ex.disk_fine "a" Ex.two_questions) in
  exists dm next',
    DataManager_init world 10 3 = Ok (dm, next')
    /\ items_content dm = items_content world
    /\ watched_content dm = watched_content world.
Proof.
  cbv zeta.
  set (world := fst (add_to_watched Ex.disk_fine "a" Ex.two_questions)).
  assert (Hdf : data_file world = Holds (items_content world))
    by (vm_compute; reflexivity).
  assert (Hwf : watched_file world = Holds (watched_content world))
    by (vm_compute; reflexivity).
  assert (Hk : map fst (items_content world) = ["a"; "b"])
    by (vm_compute; reflexivity).
  assert (Hkw : map fst (watched_content world) = ["a"])
    by (vm_compute; reflexivity).
  assert (Hnd : NoDup (map fst (items_content world))).
  { rewrite Hk. repeat constructor; simpl; intuition discriminate. }
  assert (Hndw : NoDup (map fst (watched_content world))).
  { rewrite Hkw. repeat constructor; simpl; tauto. }
  destruct (init_reads_files world 10 3 Hdf Hwf Hnd Hndw)
    as (dm & next' & Hinit & Hitems & Hwatched & _).
  exists dm, next'. split; [exact Hinit|]. split; assumption.
Defined.

(** ** The tracker: refresh, the loop, a cycle *)

Section CycleFacts.
Variable now : nat -> string.
Variable disk_ok : nat -> bool.
Variable fetch_data : nat -> FetchResult.

Local Abbreviation perform := (perform_update now disk_ok fetch_data).

Lemma perform_update_refresh_time (t : DataTracker) :
  last_refresh_time (fst (perform t)) = now (S (ticks (data_manager t))).
Proof.
  unfold perform_update, bind, try_except, strftime, print, modify,
    call_fetch, on_data_manager.
  cbn [fst snd fetches set_data_manager set_last_refresh_time count_fetch].
  destruct (fetch_data (fetches t)) as [items|e].
  - cbn [data_manager next_loc].
    destruct (allocate items _ _) as [[ls h] next].
    cbn [data_manager set_next_loc set_data_manager].
    destruct (update_questions now disk_ok ls _) as [dm' [c|e]]; reflexivity.
  - reflexivity.
Qed.

End CycleFacts.

(** X17.  [refresh()] runs one cycle on the caller's thread whatever the
    state of the tracker (not started, running, stopped): it always
    returns, calls the fetch function once, records the refresh time read
    before the fetch, sets the refresh event, and touches neither the stop
    event nor the worker.  A worker that is in its wait clears the refresh
    event two steps later, before its next loop test. *)
Theorem refresh_runs_a_cycle :
  forall (now : nat -> string) (disk_ok : nat -> bool)
         (fetch_data : nat -> FetchResult) (t : DataTracker),
    let r := refresh now disk_ok fetch_data t in
    snd r = Ok tt
    /\ refresh_event (fst r) = true
    /\ fetches (fst r) = S (fetches t)
    /\ last_refresh_time (fst r) = now (S (ticks (data_manager t)))
    /\ stop_event (fst r) = stop_event t
    /\ pc (fst r) = pc t
    /\ worker_cycles (fst r) = worker_cycles t
    /\ data_manager (fst r)
       = data_manager (fst (perform_update now disk_ok fetch_data t))
    /\ (pc t = Waiting ->
        exists t2,
          run_schedule now disk_ok fetch_data [WorkerStep; WorkerStep] (fst r)
          = Some t2
          /\ pc t2 = LoopTest /\ refresh_event t2 = false
          /\ data_manager t2 = data_manager (fst r)).
Proof.
  intros now disk_ok fetch_data t. cbv zeta.
  destruct (perform_update_frame now disk_ok fetch_data t)
    as (Hok & Hpc & Hs & Hr & Hc & Hf).
  pose proof (perform_update_refresh_time now disk_ok fetch_data t) as Ht.
  unfold refresh, bind, modify.
  destruct (perform_update now disk_ok fetch_data t) as [t1 res].
  cbn [fst snd] in *. rewrite Hok. cbn [fst snd].
  split; [reflexivity|]. split; [reflexivity|]. split; [exact Hf|].
  split; [exact Ht|]. split; [exact Hs|]. split; [exact Hpc|].
  split; [exact Hc|]. split; [reflexivity|].
  intros Hw. rewrite Hw in Hpc.
  destruct t1 as [dm s rf lt f nl p wc]. cbn in *. subst p.
  eexists. repeat split.
Qed.

Lemma refresh_runs_a_cycle_witness :
  let t := set_pc Waiting Ex.tracker0 in
  let r := refresh Ex.clock Ex.disk_fine Ex.fetch_c t in
  fetches (fst r) = 1
  /\ exists t2,
       run_schedule Ex.clock Ex.disk_fine Ex.fetch_c [WorkerStep; WorkerStep] (fst r)
       = Some t2
       /\ refresh_event t2 = false.
Proof.
  destruct (refresh_runs_a_cycle Ex.clock Ex.disk_fine Ex.fetch_c
              (set_pc Waiting Ex.tracker0))
    as (_ & _ & Hf & _ & _ & _ & _ & _ & Hclear).
  split; [exact Hf|].
  destruct (Hclear eq_refl) as (t2 & Hrun & _ & Hr & _).
  exists t2. split; [exact Hrun | exact Hr].
Defined.

Section LoopFacts.
Variable now : nat -> string.
Variable disk_ok : nat -> bool.
Variable fetch_data : nat -> FetchResult.

Lemma run_schedule_app (s1 s2 : list Action) (t : DataTracker) :
  run_schedule now disk_ok fetch_data (s1 ++ s2) t
  = match run_schedule now disk_ok fetch_data s1 t with
    | Some t1 => run_schedule now disk_ok fetch_data s2 t1
    | None => None
    end.
Proof.
  revert t. induction s1 as [|a s1 IH]; intros t; [reflexivity|].
  cbn [app run_schedule]. destruct (act now disk_ok fetch_data a t); auto.
Qed.

(** One turn of the loop: test, cycle, wait, refresh test. *)
Lemma loop_turn (t : DataTracker) :
  pc t = LoopTest ->
  stop_event t = false ->
  exists t',
    run_schedule now disk_ok fetch_data
      [WorkerStep; WorkerStep; WorkerStep; WorkerStep] t = Some t'
    /\ pc t' = LoopTest /\ stop_event t' = false
    /\ refresh_event t' = false
    /\ worker_cycles t' = S (worker_cycles t)
    /\ fetches t' = S (fetches t).
Proof.
  intros Hpc Hstop. cbn [run_schedule act]. unfold worker_step at 1.
  rewrite Hpc, Hstop.
  assert (Hpc1 : pc (set_pc Cycle t) = Cycle) by reflexivity.
  rewrite (worker_step_cycle now disk_ok fetch_data _ Hpc1).
  destruct (perform_update_frame now disk_ok fetch_data
              (count_cycle (set_pc Cycle t))) as (_ & _ & Hs & _ & Hc & Hf).
  destruct (perform_update now disk_ok fetch_data (count_cycle (set_pc Cycle t)))
    as [t1 res]. cbn [fst] in *.
  destruct t1 as [dm s rf lt f nl p wc]. cbn in *. subst s wc f.
  destruct rf; cbn; rewrite Hstop; eexists; repeat split.
Qed.

Lemma never_exits_unstopped (sched : list Action) (t t' : DataTracker) :
  stop_event t = false ->
  pc t <> Exited ->
  ~ In CallStop sched ->
  run_schedule now disk_ok fetch_data sched t = Some t' ->
  stop_event t' = false /\ pc t' <> Exited.
Proof.
  revert t. induction sched as [|a sched IH]; intros t Hstop Hpc Hns;
    cbn [run_schedule].
  - intros [= <-]. now split.
  - destruct (act now disk_ok fetch_data a t) as [t1|] eqn:Ea; [|discriminate].
    intros Hrun.
    assert (H1 : stop_event t1 = false /\ pc t1 <> Exited).
    { destruct a; cbn [act] in Ea.
      - injection Ea as <-. destruct (pc t) eqn:E; cbn; rewrite ?E;
          split; auto; congruence.
      - exfalso. apply Hns. now left.
      - unfold refresh, bind, modify in Ea.
        destruct (perform_update_frame now disk_ok fetch_data t)
          as (Hok & Hp & Hs & _).
        destruct (perform_update now disk_ok fetch_data t) as [t2 r].
        cbn [fst snd] in *. rewrite Hok in Ea. injection Ea as <-.
        cbn. rewrite Hs, Hp. now split.
      - unfold worker_step in Ea. destruct (pc t) eqn:E.
        + injection Ea as <-. rewrite E. split; auto; congruence.
        + rewrite Hstop in Ea. injection Ea as <-. cbn. split; auto; congruence.
        + destruct (perform_update_frame now disk_ok fetch_data (count_cycle t))
            as (Hok & _ & Hs & _).
          destruct (perform_update now disk_ok fetch_data (count_cycle t))
            as [t2 r]. cbn [fst snd] in *. rewrite Hok in Ea.
          injection Ea as <-. cbn. rewrite Hs. cbn. split; auto; congruence.
        + injection Ea as <-. cbn. split; auto; congruence.
        + injection Ea as <-. destruct (refresh_event t); cbn;
            split; auto; congruence.
        + congruence. }
    destruct H1 as [Hs1 Hp1]. apply (IH t1 Hs1 Hp1); [|exact Hrun].
    intros Hin. apply Hns. now right.
Qed.
End LoopFacts.

(** X18.  As long as [stop()] is not called the worker never leaves its
    loop, whatever the foreground thread does; and left alone it runs one
    cycle, with one call of the fetch function, every four of its steps:
    after [4 * n] steps from the loop test it is at the loop test again
    and has run [n] cycles. *)
Theorem worker_loops_until_stopped :
  forall (now : nat -> string) (disk_ok : nat -> bool)
         (fetch_data : nat -> FetchResult) (t : DataTracker),
    stop_event t = false ->
    (forall sched t',
       pc t <> Exited -> ~ In CallStop sched ->
       run_schedule now disk_ok fetch_data sched t = Some t' ->
       stop_event t' = false /\ pc t' <> Exited)
    /\ (forall n,
          pc t = LoopTest ->
          exists t',
            run_schedule now disk_ok fetch_data (repeat WorkerStep (4 * n)) t
            = Some t'
            /\ pc t' = LoopTest /\ stop_event t' = false
            /\ worker_cycles t' = worker_cycles t + n
            /\ fetches t' = fetches t + n).
Proof.
  intros now disk_ok fetch_data t Hstop. split.
  - intros sched t' Hpc Hns Hrun.
    now apply (@never_exits_unstopped now disk_ok fetch_data sched t t').
  - intros n. revert t Hstop. induction n as [|n IH]; intros t Hstop Hpc.
    + exists t. cbn. repeat split; auto; lia.
    + replace (4 * S n) with (4 + 4 * n) by lia.
      rewrite repeat_app, run_schedule_app.
      destruct (@loop_turn now disk_ok fetch_data t Hpc Hstop)
        as (t1 & Hrun1 & Hpc1 & Hs1 & _ & Hc1 & Hf1).
      cbn [repeat]. rewrite Hrun1.
      destruct (IH t1 Hs1 Hpc1) as (t' & Hrun & Hp & Hs & Hc & Hf).
      exists t'. split; [exact Hrun|]. split; [exact Hp|]. split; [exact Hs|].
      split; lia.
Qed.

Lemma worker_loops_until_stopped_witness :
  exists t',
    run_schedule Ex.clock Ex.disk_fine Ex.fetch_c (repeat WorkerStep (4 * 2))
      (set_pc LoopTest Ex.tracker0) = Some t'
    /\ worker_cycles t' = 2 /\ fetches t' = 2.
Proof.
  destruct (@worker_loops_until_stopped Ex.clock Ex.disk_fine Ex.fetch_c
              (set_pc LoopTest Ex.tracker0) eq_refl) as (_ & Hloop).
  destruct (Hloop 2 eq_refl) as (t' & Hrun & _ & _ & Hc & Hf).
  exists t'. split; [exact Hrun|]. split; [exact Hc | exact Hf].
Defined.





(** ** The list view *)

Lemma insert_rows_fresh (dm : DataManager) (qs : list loc) (g : GUI) :
  NoDup (map iid (treeview g) ++ map (fun l => iid (row_of dm l)) qs) ->
  insert_rows dm qs g = (set_treeview (treeview g ++ map (row_of dm) qs) g, Ok tt).
Proof.
  revert g. induction qs as [|l qs IH]; intros g Hnd.
  - cbn. rewrite app_nil_r. now destruct g.
  - cbn [insert_rows map] in *. unfold bind, treeview_insert.
    assert (Hnew : existsb (String.eqb (iid (row_of dm l))) (map iid (treeview g))
                   = false).
    { destruct (existsb _ _) eqn:E; [|reflexivity].
      apply existsb_eqb_In in E. apply NoDup_remove_2 in Hnd.
      exfalso. apply Hnd. apply in_or_app. now left. }
    rewrite Hnew. rewrite IH.
    + cbn [treeview set_treeview]. rewrite <- app_assoc. reflexivity.
    + cbn [treeview set_treeview]. rewrite map_app, <- app_assoc. cbn [map app].
      apply NoDup_remove_1 in Hnd as Hnd1.
      apply NoDup_remove_2 in Hnd as Hnd2.
      apply NoDup_app; [| |].
      * now apply NoDup_app_remove_r in Hnd1.
      * constructor.
        -- intros Hin. apply Hnd2. apply in_or_app. now right.
        -- now apply NoDup_app_remove_l in Hnd1.
      * intros x Hx [<-|Hin].
        -- apply Hnd2. apply in_or_app. now left.
        -- apply NoDup_app_remove_l in Hnd as Hd. clear Hd.
           revert Hx Hin. clear - Hnd1. intros Hx Hin.
           induction (map iid (treeview g)) as [|y ys IHy]; [destruct Hx|].
           cbn [app] in Hnd1. inversion Hnd1 as [|? ? Hn Hrest]; subst.
           destruct Hx as [<-|Hx].
           ++ apply Hn. apply in_or_app. now right.
           ++ now apply IHy.
Qed.

Lemma latest_url (dm : DataManager) (k : string) (l : loc) :
  store_ok dm -> latest (history_of dm k) = Some l ->
  question_url (heap dm l) = k.
Proof.
  intros (_ & _ & _ & Hurl & _) Hl. apply Hurl. now apply latest_In.
Qed.

Lemma listed_urls (dm : DataManager) (out : list loc) (ids : list string) :
  store_ok dm ->
  map Some out = map (fun k => latest (history_of dm k)) ids ->
  map (fun l => question_url (heap dm l)) out = ids.
Proof.
  intros Hok. revert ids. induction out as [|l out IH]; intros [|k ids] Hmap;
    try discriminate; [reflexivity|].
  cbn [map] in *. injection Hmap as Hl Hrest. f_equal.
  - now apply latest_url.
  - now apply IH.
Qed.

Lemma marks_all (f : string -> bool) (ks : list string) :
  (forall k, In k ks -> f k = true) ->
  map (fun k => if f k then "Yes" else "No") ks = repeat "Yes" (List.length ks).
Proof.
  induction ks as [|k ks IH]; intros Hall; [reflexivity|].
  cbn [map List.length repeat]. rewrite (Hall k) by now left.
  f_equal. apply IH. intros k' Hk'. apply Hall. now right.
Qed.

Lemma marks_none (f : string -> bool) (ks : list string) :
  (forall k, In k ks -> f k = false) ->
  map (fun k => if f k then "Yes" else "No") ks = repeat "No" (List.length ks).
Proof.
  induction ks as [|k ks IH]; intros Hall; [reflexivity|].
  cbn [map List.length repeat]. rewrite (Hall k) by now left.
  f_equal. apply IH. intros k' Hk'. apply Hall. now right.
Qed.

Lemma app_disjoint {A : Type} (l1 l2 : list A) :
  NoDup (l1 ++ l2) -> forall x, In x l1 -> In x l2 -> False.
Proof.
  induction l1 as [|y l1 IH]; intros Hnd x Hx1 Hx2; [destruct Hx1|].
  cbn [app] in Hnd. inversion Hnd as [|? ? Hn Hr]; subst.
  destruct Hx1 as [<-|Hx1].
  - apply Hn. apply in_or_app. now right.
  - now apply (IH Hr x).
Qed.

(** X20.  [refresh_list] on a store in order: it returns, and the tree
    shows one line per question of the store, in the order of
    [get_question_list], each under the identity of its question (so Tk
    never meets an item id twice); the lines of the watched identities
    come first and are the ones marked "Yes", all the other lines are
    marked "No"; the label shows the refresh time.  On a store with an
    empty history [refresh_list] raises [IndexError] after it has emptied
    the tree: the list is left blank and the label is not updated. *)
Theorem refresh_list_shows_store :
  forall (dm : DataManager) (time : string) (g : GUI),
    (store_ok dm ->
     exists out rest,
       get_question_list dm = Ok out
       /\ refresh_list dm time g
          = (mkGUI (map (row_of dm) out) out ("Last Refresh: " ++ time)%string,
             Ok tt)
       /\ map iid (map (row_of dm) out)
          = Dict.keys (watched_questions dm) ++ rest
       /\ NoDup (map iid (map (row_of dm) out))
       /\ map col_watched (map (row_of dm) out)
          = repeat "Yes" (List.length (watched_questions dm))
            ++ repeat "No" (List.length rest))
    /\ ((exists k, In (k, []) (questions dm)) ->
        refresh_list dm time g
        = (mkGUI [] (question_list g) (last_refresh_label g), Raise IndexError)).
Proof.
  intros dm time g. split.
  - intros Hok.
    pose proof (store_ok_histories Hok) as Hne.
    pose proof (store_ok_pinned Hok) as Hpin.
    pose proof Hok as (Hwf & Hwfw & _).
    destruct (decorate_total dm (questions dm) Hne) as [ds Hd].
    assert (Hids : exists out ids, get_question_list_ids dm = Ok (out, ids)).
    { unfold get_question_list_ids. rewrite Hd.
      destruct (fold_left append_unseen _ _). eauto. }
    destruct Hids as (out & ids & Hids).
    destruct (@get_question_list_ids_eq dm out ids Hwf Hids)
      as (ds' & _ & Hsplit & _).
    destruct (@question_ids_facts dm out ids Hwf Hwfw Hids) as (Hnd & _ & Hout).
    pose proof (listed_urls out ids Hok Hout) as Hurls.
    rewrite Hpin in Hsplit.
    set (rest := map fst (filter _ _)) in Hsplit.
    assert (Hget : get_question_list dm = Ok out)
      by (unfold get_question_list; now rewrite Hids).
    assert (Hiids : map iid (map (row_of dm) out) = ids)
      by (rewrite map_map; exact Hurls).
    exists out, rest. split; [exact Hget|]. split; [|split; [|split]].
    + unfold refresh_list. rewrite Hget. unfold bind at 1, modify at 1.
      unfold bind at 1, modify at 1. unfold bind at 1.
      rewrite insert_rows_fresh.
      * reflexivity.
      * cbn [treeview set_treeview set_question_list app map].
        change (map (fun l => iid (row_of dm l)) out)
          with (map (fun l => question_url (heap dm l)) out).
        now rewrite Hurls.
    + now rewrite Hiids.
    + now rewrite Hiids.
    + rewrite map_map.
      assert (Hcol : forall l, col_watched (row_of dm l)
                               = if Dict.mem (watched_questions dm)
                                      (question_url (heap dm l))
                                 then "Yes" else "No") by reflexivity.
      rewrite (map_ext _ _ Hcol).
      rewrite <- (map_map (fun l => question_url (heap dm l))
                    (fun k => if Dict.mem (watched_questions dm) k
                              then "Yes" else "No")).
      rewrite Hurls, Hsplit, map_app. f_equal.
      * replace (List.length (watched_questions dm))
          with (List.length (Dict.keys (watched_questions dm)))
          by apply length_map.
        apply marks_all. intros k Hk. now apply mem_keys.
      * apply marks_none. intros k Hk.
        destruct (Dict.mem (watched_questions dm) k) eqn:E; [|reflexivity].
        apply mem_keys in E. exfalso. rewrite Hsplit in Hnd.
        now apply (app_disjoint _ _ Hnd k).
  - intros Hempty. unfold refresh_list.
    pose proof (get_question_list_result dm) as Hres.
    destruct (get_question_list dm) as [out|e].
    + destruct Hres as [ds Hd]. destruct Hempty as [k Hk]. exfalso.
      now apply (@decorate_nonempty dm _ _ Hd k [] Hk).
    + apply decorate_raises in Hres. destruct Hres as [-> _]. reflexivity.
Qed.

Lemma refresh_list_shows_store_witness :
  let dm := store_calls Ex.clock Ex.disk_fine
              [CallUpdate [0; 2]; CallUpdate [3]; CallWatch "a"]
              (Ex.fresh 2 []) in
  exists out rest,
    get_question_list dm = Ok out
    /\ map iid (map (row_of dm) out) = Dict.keys (watched_questions dm) ++ rest
    /\ map col_watched (map (row_of dm) out)
       = repeat "Yes" (List.length (watched_questions dm))
         ++ repeat "No" (List.length rest).
Proof.
  cbv zeta.
  assert (Hmax : 1 <= max_history (Ex.fresh 2 [])) by (simpl; lia).
  pose proof (store_calls_ok Ex.clock Ex.disk_fine
                [CallUpdate [0; 2]; CallUpdate [3]; CallWatch "a"]
                (store_ok_fresh (Ex.fresh 2 []) eq_refl eq_refl Hmax)) as Hok.
  set (dm := store_calls Ex.clock Ex.disk_fine
               [CallUpdate [0; 2]; CallUpdate [3]; CallWatch "a"]
               (Ex.fresh 2 [])) in *.
  destruct (refresh_list_shows_store dm "now" (mkGUI [] [] "")) as (Hshow & _).
  destruct (Hshow Hok) as (out & rest & Hget & _ & Hiids & _ & Hcols).
  exists out, rest. split; [exact Hget|]. split; [exact Hiids | exact Hcols].
Defined.
